(** * IssuesGenerator: placeholder substitution and markdown preview

    A shallow embedding of the template engine of the issue form
    ([project/frontend/script.js], methods [createIssue] and [updatePreview],
    and the older stand-alone [updatePreview] of the legacy script), together
    with the part of the JavaScript runtime these methods rest on:
    strings as sequences of UTF-16 code units, [String.prototype.trim],
    [new RegExp(pattern, flags)], the backtracking matcher,
    [String.prototype.replace] with a global regular expression and its
    [$]-patterns, and the property order of ordinary objects. *)

From Stdlib Require Import String Ascii DecimalString.
From Stdlib Require Import List NArith Arith Bool Lia Permutation.
Import ListNotations.

Set Implicit Arguments.

(* ================================================================== *)
(** ** JavaScript strings *)

(** A JavaScript string is a sequence of 16-bit code units. *)
Definition char := N.
Definition jsstring := list char.

Definition ch (a : ascii) : char := N_of_ascii a.

(** [str] turns an ASCII literal of the source into its code units. *)
Definition str (s : string) : jsstring := map N_of_ascii (list_ascii_of_string s).

Definition char_in (lo hi c : char) : bool := (N.leb lo c && N.leb c hi)%bool.

Definition is_digit (c : char) : bool := char_in (ch "0") (ch "9") c.

(** [\w]: the characters a-z, A-Z, 0-9 and _. *)
Definition is_word_char (c : char) : bool :=
  (char_in (ch "a") (ch "z") c || char_in (ch "A") (ch "Z") c
   || is_digit c || N.eqb c (ch "_"))%bool.

(** LineTerminator: LF, CR, LS, PS. *)
Definition is_line_terminator (c : char) : bool :=
  (N.eqb c 10%N || N.eqb c 13%N || N.eqb c 8232%N || N.eqb c 8233%N)%bool.

(** WhiteSpace and LineTerminator, the set used by [\s] and by [trim]. *)
Definition is_space (c : char) : bool :=
  (char_in 9%N 13%N c || N.eqb c 32%N || N.eqb c 160%N || N.eqb c 5760%N
   || char_in 8192%N 8202%N c || N.eqb c 8232%N || N.eqb c 8233%N
   || N.eqb c 8239%N || N.eqb c 8287%N || N.eqb c 12288%N
   || N.eqb c 65279%N)%bool.

Fixpoint eqb_str (a b : jsstring) : bool :=
  match a, b with
  | [], [] => true
  | x :: a', y :: b' => (N.eqb x y && eqb_str a' b')%bool
  | _, _ => false
  end.

(** [s.startsWith(p)]. *)
Fixpoint starts_with (p s : jsstring) : bool :=
  match p, s with
  | [], _ => true
  | x :: p', y :: s' => (N.eqb x y && starts_with p' s')%bool
  | _ :: _, [] => false
  end.

(** [s.includes(p)]. *)
Fixpoint includes (p s : jsstring) : bool :=
  (starts_with p s || match s with [] => false | _ :: s' => includes p s' end)%bool.

(** Number of positions of [s] at which [p] occurs. *)
Fixpoint occurrences (p s : jsstring) : nat :=
  (if starts_with p s then 1 else 0)
  + match s with [] => 0 | _ :: s' => occurrences p s' end.

Fixpoint trim_start (s : jsstring) : jsstring :=
  match s with
  | c :: s' => if is_space c then trim_start s' else s
  | [] => []
  end.

(** [String.prototype.trim]. *)
Definition trim (s : jsstring) : jsstring :=
  rev (trim_start (rev (trim_start s))).

(** Truthiness of a string: only the empty string is falsy. *)
Definition truthy (s : jsstring) : bool :=
  match s with [] => false | _ => true end.

(** [s.replace(pat, '')] with a string pattern: the first occurrence of
    [pat] is removed. *)
Fixpoint remove_first (pat s : jsstring) : jsstring :=
  if starts_with pat s then skipn (length pat) s
  else match s with
       | [] => []
       | c :: s' => c :: remove_first pat s'
       end.

(* ================================================================== *)
(** ** Regular expressions: abstract syntax *)

Inductive class_item : Type :=
| CRange (lo hi : char)
| CDigit | CNotDigit
| CSpace | CNotSpace
| CWord | CNotWord.

Inductive regex : Type :=
| REmpty
| RChar (c : char)
| RAny
| RClass (neg : bool) (items : list class_item)
| RBol
| REol
| RWordB (neg : bool)
| RGroup (idx : nat) (r : regex)
| RRepeat (min : nat) (max : option nat) (greedy : bool) (r : regex)
| RSeq (r1 r2 : regex)
| RAlt (r1 r2 : regex).

Record flags : Type := mkFlags {
  f_global : bool;
  f_multiline : bool;
  f_dotAll : bool
}.

Record RegExp : Type := mkRegExp {
  re_body : regex;
  re_ngroups : nat;
  re_flags : flags
}.

(** Outcome of a piece of JavaScript that can throw: its value, or the
    [SyntaxError] thrown by [new RegExp(pattern, flags)] (the only exception
    the embedded code can raise; [msg] names its cause, the full text of
    the message being the engine's).  [OutOfModel] marks the valid patterns that
    lie outside the fragment of the pattern language embedded here
    (look-around, named groups, back-references, [\c], [\x], [\u], [\k],
    legacy octal escapes, and the flags other than g, m, s). *)
Inductive outcome (A : Type) : Type :=
| Ok (a : A)
| Throws (msg : string)
| OutOfModel (what : string).
Arguments Throws {A} msg.
Arguments OutOfModel {A} what.

(* ================================================================== *)
(** ** Regular expressions: the pattern parser

    Pattern grammar of ECMAScript without the u flag, with the Annex B
    extensions every browser implements: a brace or a closing bracket that
    does not form a quantifier or a class is an ordinary character, and a
    backslash before a character with no special meaning denotes that
    character. *)

Inductive presult (A : Type) : Type :=
| POk (a : A) (rest : jsstring)
| PErr (msg : string)
| PUnsup (what : string).
Arguments PErr {A} msg.
Arguments PUnsup {A} what.

Fixpoint parse_digits (p : jsstring) (acc : nat) : nat * jsstring :=
  match p with
  | c :: p' =>
      if is_digit c then parse_digits p' (10 * acc + N.to_nat (N.sub c (ch "0")))
      else (acc, p)
  | [] => (acc, [])
  end.

Definition parse_number (p : jsstring) : option (nat * jsstring) :=
  match p with
  | c :: _ => if is_digit c then Some (parse_digits p 0) else None
  | [] => None
  end.

(** The text after an opening brace, when it completes a braced quantifier
    [{n}], [{n,}] or [{n,m}]. *)
Definition parse_braced (p : jsstring) : option (nat * option nat * jsstring) :=
  match parse_number p with
  | None => None
  | Some (lo, p1) =>
      match p1 with
      | c :: p2 =>
          if N.eqb c (ch "}") then Some (lo, Some lo, p2)
          else if N.eqb c (ch ",") then
            match p2 with
            | d :: p3 =>
                if N.eqb d (ch "}") then Some (lo, None, p3)
                else match parse_number p2 with
                     | Some (hi, e :: p4) =>
                         if N.eqb e (ch "}") then Some (lo, Some hi, p4) else None
                     | _ => None
                     end
            | [] => None
            end
          else None
      | [] => None
      end
  end.

(** The quantifier prefix at the head of [p], if there is one. *)
Definition parse_quantifier_prefix (p : jsstring)
  : option (nat * option nat * jsstring) :=
  match p with
  | c :: p' =>
      if N.eqb c (ch "*") then Some (0, None, p')
      else if N.eqb c (ch "+") then Some (1, None, p')
      else if N.eqb c (ch "?") then Some (0, Some 1, p')
      else if N.eqb c (ch "{") then parse_braced p'
      else None
  | [] => None
  end.

(** An atom followed by its optional quantifier and laziness mark. *)
Definition quantified (atom : regex) (p : jsstring) : presult regex :=
  match parse_quantifier_prefix p with
  | None => POk atom p
  | Some (lo, hi, p') =>
      let ordered := match hi with Some h => Nat.leb lo h | None => true end in
      if ordered then
        match p' with
        | c :: p'' =>
            if N.eqb c (ch "?") then POk (RRepeat lo hi false atom) p''
            else POk (RRepeat lo hi true atom) p'
        | [] => POk (RRepeat lo hi true atom) p'
        end
      else PErr "numbers out of order in {} quantifier"
  end.

(** A character class escape [\d \D \s \S \w \W]. *)
Definition class_escape (c : char) : option class_item :=
  if N.eqb c (ch "d") then Some CDigit
  else if N.eqb c (ch "D") then Some CNotDigit
  else if N.eqb c (ch "s") then Some CSpace
  else if N.eqb c (ch "S") then Some CNotSpace
  else if N.eqb c (ch "w") then Some CWord
  else if N.eqb c (ch "W") then Some CNotWord
  else None.

(** A control escape [\t \n \v \f \r]. *)
Definition control_escape (c : char) : option char :=
  if N.eqb c (ch "t") then Some 9%N
  else if N.eqb c (ch "n") then Some 10%N
  else if N.eqb c (ch "v") then Some 11%N
  else if N.eqb c (ch "f") then Some 12%N
  else if N.eqb c (ch "r") then Some 13%N
  else None.

(** The escapes whose meaning is outside the embedded fragment. *)
Definition unsupported_escape (c : char) (p : jsstring) : bool :=
  (N.eqb c (ch "c") || N.eqb c (ch "x") || N.eqb c (ch "u") || N.eqb c (ch "k")
   || char_in (ch "1") (ch "9") c
   || (N.eqb c (ch "0")
       && match p with d :: _ => is_digit d | [] => false end))%bool.

(** The character escape [\c] (with the pattern text [p] behind it) when it
    denotes a single character: a control escape, [\0], or the character
    itself. *)
Definition character_escape (c : char) (p : jsstring) : outcome char :=
  if unsupported_escape c p then OutOfModel "escape sequence"
  else match control_escape c with
       | Some k => Ok k
       | None => if N.eqb c (ch "0") then Ok 0%N else Ok c
       end.

(** One member of a character class: a single character or a class escape. *)
Inductive class_atom : Type :=
| AChar (c : char)
| ASet (i : class_item).

Definition parse_class_atom (p : jsstring) : presult class_atom :=
  match p with
  | [] => PErr "Unterminated character class"
  | c :: p' =>
      if N.eqb c (ch "\") then
        match p' with
        | [] => PErr "\ at end of pattern"
        | e :: p'' =>
            match class_escape e with
            | Some i => POk (ASet i) p''
            | None =>
                if N.eqb e (ch "b") then POk (AChar 8%N) p''
                else match character_escape e p'' with
                     | Ok k => POk (AChar k) p''
                     | Throws m => PErr m
                     | OutOfModel w => PUnsup w
                     end
            end
        end
      else POk (AChar c) p'
  end.

Definition atom_item (a : class_atom) : class_item :=
  match a with
  | AChar c => CRange c c
  | ASet i => i
  end.

(** The members of a class up to its closing bracket. *)
Fixpoint parse_class_items (fuel : nat) (p : jsstring) : presult (list class_item) :=
  match fuel with
  | 0 => PUnsup "pattern too long"
  | S fuel' =>
      match p with
      | [] => PErr "Unterminated character class"
      | c :: p' =>
          if N.eqb c (ch "]") then POk [] p'
          else
            match parse_class_atom p with
            | PErr m => PErr m
            | PUnsup w => PUnsup w
            | POk a p1 =>
                let single :=
                  match parse_class_items fuel' p1 with
                  | POk items r => POk (atom_item a :: items) r
                  | e => e
                  end in
                match p1 with
                | d :: p2 =>
                    if (N.eqb d (ch "-")
                        && negb (match p2 with
                                 | e :: _ => N.eqb e (ch "]")
                                 | [] => true
                                 end))%bool
                    then
                      match parse_class_atom p2 with
                      | PErr m => PErr m
                      | PUnsup w => PUnsup w
                      | POk b p3 =>
                          match a, b with
                          | AChar lo, AChar hi =>
                              if N.leb lo hi then
                                match parse_class_items fuel' p3 with
                                | POk items r => POk (CRange lo hi :: items) r
                                | e => e
                                end
                              else PErr "Range out of order in character class"
                          | _, _ =>
                              match parse_class_items fuel' p3 with
                              | POk items r =>
                                  POk (atom_item a :: CRange (ch "-") (ch "-")
                                         :: atom_item b :: items) r
                              | e => e
                              end
                          end
                      end
                    else single
                | [] => single
                end
            end
      end
  end.

Definition parse_class (p : jsstring) : presult regex :=
  let '(neg, p1) :=
    match p with
    | c :: p' => if N.eqb c (ch "^") then (true, p') else (false, p)
    | [] => (false, p)
    end in
  match parse_class_items (S (length p1)) p1 with
  | POk items r => POk (RClass neg items) r
  | PErr m => PErr m
  | PUnsup w => PUnsup w
  end.

(** Disjunction, Alternative and Term of the grammar.  The group counter [n]
    numbers the capturing groups by their opening parenthesis. *)
Fixpoint parse_disjunction (fuel : nat) (p : jsstring) (n : nat)
  : presult (regex * nat) :=
  match fuel with
  | 0 => PUnsup "pattern too long"
  | S fuel' =>
      match parse_alternative fuel' p n with
      | POk (r1, n1) p1 =>
          match p1 with
          | c :: p2 =>
              if N.eqb c (ch "|") then
                match parse_disjunction fuel' p2 n1 with
                | POk (r2, n2) p3 => POk (RAlt r1 r2, n2) p3
                | e => e
                end
              else POk (r1, n1) p1
          | [] => POk (r1, n1) p1
          end
      | e => e
      end
  end

with parse_alternative (fuel : nat) (p : jsstring) (n : nat)
  : presult (regex * nat) :=
  match fuel with
  | 0 => PUnsup "pattern too long"
  | S fuel' =>
      match p with
      | [] => POk (REmpty, n) p
      | c :: _ =>
          if (N.eqb c (ch "|") || N.eqb c (ch ")"))%bool then POk (REmpty, n) p
          else
            match parse_term fuel' p n with
            | POk (t, n1) p1 =>
                match parse_alternative fuel' p1 n1 with
                | POk (r, n2) p2 => POk (RSeq t r, n2) p2
                | e => e
                end
            | e => e
            end
      end
  end

with parse_term (fuel : nat) (p : jsstring) (n : nat)
  : presult (regex * nat) :=
  match fuel with
  | 0 => PUnsup "pattern too long"
  | S fuel' =>
      let quant atom n' rest :=
        match quantified atom rest with
        | POk r rest' => POk (r, n') rest'
        | PErr m => PErr m
        | PUnsup w => PUnsup w
        end in
      match p with
      | [] => PErr "unexpected end of pattern"
      | c :: p' =>
          if N.eqb c (ch "^") then POk (RBol, n) p'
          else if N.eqb c (ch "$") then POk (REol, n) p'
          else if N.eqb c (ch "(") then
            match p' with
            | q :: p'' =>
                if N.eqb q (ch "?") then
                  match p'' with
                  | k :: p3 =>
                      if N.eqb k (ch ":") then
                        match parse_disjunction fuel' p3 n with
                        | POk (r, n1) (e :: p4) =>
                            if N.eqb e (ch ")") then quant r n1 p4
                            else PErr "Unterminated group"
                        | POk _ [] => PErr "Unterminated group"
                        | e => e
                        end
                      else if (N.eqb k (ch "=") || N.eqb k (ch "!")
                               || N.eqb k (ch "<"))%bool
                      then PUnsup "look-around or named group"
                      else PErr "Invalid group"
                  | [] => PErr "Invalid group"
                  end
                else
                  match parse_disjunction fuel' p' (S n) with
                  | POk (r, n1) (e :: p4) =>
                      if N.eqb e (ch ")") then quant (RGroup (S n) r) n1 p4
                      else PErr "Unterminated group"
                  | POk _ [] => PErr "Unterminated group"
                  | e => e
                  end
            | [] => PErr "Unterminated group"
            end
          else if (N.eqb c (ch "*") || N.eqb c (ch "+") || N.eqb c (ch "?"))%bool
          then PErr "Nothing to repeat"
          else if N.eqb c (ch "{") then
            match parse_braced p' with
            | Some _ => PErr "Nothing to repeat"
            | None => quant (RChar c) n p'
            end
          else if N.eqb c (ch ".") then quant RAny n p'
          else if N.eqb c (ch "[") then
            match parse_class p' with
            | POk r p1 => quant r n p1
            | PErr m => PErr m
            | PUnsup w => PUnsup w
            end
          else if N.eqb c (ch "\") then
            match p' with
            | [] => PErr "\ at end of pattern"
            | e :: p'' =>
                if N.eqb e (ch "b") then POk (RWordB false, n) p''
                else if N.eqb e (ch "B") then POk (RWordB true, n) p''
                else
                  match class_escape e with
                  | Some i => quant (RClass false [i]) n p''
                  | None =>
                      match character_escape e p'' with
                      | Ok k => quant (RChar k) n p''
                      | Throws m => PErr m
                      | OutOfModel w => PUnsup w
                      end
                  end
            end
          else quant (RChar c) n p'
      end
  end.

Definition parse_flag (f : flags) (c : char) : outcome flags :=
  if N.eqb c (ch "g") then
    if f_global f then Throws "Invalid flags"
    else Ok (mkFlags true (f_multiline f) (f_dotAll f))
  else if N.eqb c (ch "m") then
    if f_multiline f then Throws "Invalid flags"
    else Ok (mkFlags (f_global f) true (f_dotAll f))
  else if N.eqb c (ch "s") then
    if f_dotAll f then Throws "Invalid flags"
    else Ok (mkFlags (f_global f) (f_multiline f) true)
  else if (N.eqb c (ch "i") || N.eqb c (ch "u") || N.eqb c (ch "y")
           || N.eqb c (ch "d") || N.eqb c (ch "v"))%bool
  then OutOfModel "flag"
  else Throws "Invalid flags".

Fixpoint parse_flags (fl : jsstring) (f : flags) : outcome flags :=
  match fl with
  | [] => Ok f
  | c :: fl' =>
      match parse_flag f c with
      | Ok f' => parse_flags fl' f'
      | e => e
      end
  end.

(** [new RegExp(pattern, flags)]. *)
Definition RegExp_new (pattern fl : jsstring) : outcome RegExp :=
  match parse_flags fl (mkFlags false false false) with
  | Throws m => Throws m
  | OutOfModel w => OutOfModel w
  | Ok f =>
      match parse_disjunction (3 * length pattern + 3) pattern 0 with
      | POk (r, n) [] => Ok (mkRegExp r n f)
      | POk _ (_ :: _) => Throws "Unmatched ')'"
      | PErr m => Throws m
      | PUnsup w => OutOfModel w
      end
  end.

(* ================================================================== *)
(** ** Regular expressions: the backtracking matcher

    The matcher follows the continuation-passing semantics of the language
    definition: a matcher takes the state reached so far and a continuation
    that decides whether the rest of the pattern matches from there. *)

Record mstate : Type := mkState {
  ms_prev : option char;          (* the character before the position *)
  ms_rest : jsstring;             (* the input from the position on *)
  ms_caps : list (option jsstring) (* captures 1..n; [None] is undefined *)
}.

Definition class_item_matches (i : class_item) (c : char) : bool :=
  match i with
  | CRange lo hi => char_in lo hi c
  | CDigit => is_digit c
  | CNotDigit => negb (is_digit c)
  | CSpace => is_space c
  | CNotSpace => negb (is_space c)
  | CWord => is_word_char c
  | CNotWord => negb (is_word_char c)
  end.

Definition class_matches (neg : bool) (items : list class_item) (c : char) : bool :=
  xorb neg (existsb (fun i => class_item_matches i c) items).

Fixpoint set_nth {A : Type} (n : nat) (v : A) (l : list A) : list A :=
  match l, n with
  | [], _ => []
  | _ :: l', 0 => v :: l'
  | a :: l', S n' => a :: set_nth n' v l'
  end.

Definition set_capture (idx : nat) (v : option jsstring)
  (caps : list (option jsstring)) : list (option jsstring) :=
  set_nth (idx - 1) v caps.

(** The capturing groups inside a pattern. *)
Fixpoint group_indices (r : regex) : list nat :=
  match r with
  | RGroup idx r1 => idx :: group_indices r1
  | RRepeat _ _ _ r1 => group_indices r1
  | RSeq r1 r2 | RAlt r1 r2 => group_indices r1 ++ group_indices r2
  | _ => []
  end.

Definition clear_captures (r : regex) (x : mstate) : mstate :=
  mkState (ms_prev x) (ms_rest x)
          (fold_right (fun idx caps => set_capture idx None caps)
                      (ms_caps x) (group_indices r)).

(** Consume the character [c] at the head of the input. *)
Definition advance (c : char) (rest : jsstring) (x : mstate) : mstate :=
  mkState (Some c) rest (ms_caps x).

(** The text between the positions of [x] and of the later state [y]. *)
Definition consumed (x y : mstate) : jsstring :=
  firstn (length (ms_rest x) - length (ms_rest y)) (ms_rest x).

Definition is_word_opt (o : option char) : bool :=
  match o with Some c => is_word_char c | None => false end.

Definition at_line_start (f : flags) (x : mstate) : bool :=
  match ms_prev x with
  | None => true
  | Some c => (f_multiline f && is_line_terminator c)%bool
  end.

Definition at_line_end (f : flags) (x : mstate) : bool :=
  match ms_rest x with
  | [] => true
  | c :: _ => (f_multiline f && is_line_terminator c)%bool
  end.

Definition at_word_boundary (x : mstate) : bool :=
  xorb (is_word_opt (ms_prev x)) (is_word_opt (hd_error (ms_rest x))).

Definition pred_max (max : option nat) : option nat :=
  match max with
  | Some m => Some (pred m)
  | None => None
  end.

Definition is_zero_max (max : option nat) : bool :=
  match max with
  | Some 0 => true
  | _ => false
  end.

(** RepeatMatcher for an atom with matcher [m]: at least [min] and at most
    [max] iterations, each starting with the captures of the atom cleared.
    An iteration that is not required and consumes nothing is rejected, so
    that [min] plus the length of the input bounds the number of
    iterations; [fuel] only has to exceed that bound. *)
Fixpoint repeat_matcher
  (m : (mstate -> option mstate) -> mstate -> option mstate)
  (clear : mstate -> mstate) (greedy : bool) (k : mstate -> option mstate)
  (fuel min : nat) (max : option nat) (x : mstate) {struct fuel}
  : option mstate :=
  match fuel with
  | 0 => None
  | S fuel' =>
      if is_zero_max max then k x
      else
        let d := fun y =>
          if ((min =? 0) && (length (ms_rest y) =? length (ms_rest x)))%bool
          then None
          else repeat_matcher m clear greedy k fuel' (pred min) (pred_max max) y in
        let xr := clear x in
        if negb (min =? 0) then m d xr
        else if greedy then
          match m d xr with
          | Some z => Some z
          | None => k x
          end
        else
          match k x with
          | Some z => Some z
          | None => m d xr
          end
  end.

Fixpoint rmatch (f : flags) (r : regex) (k : mstate -> option mstate)
  (x : mstate) {struct r} : option mstate :=
  let single (ok : char -> bool) :=
    match ms_rest x with
    | c :: rest => if ok c then k (advance c rest x) else None
    | [] => None
    end in
  match r with
  | REmpty => k x
  | RChar c => single (N.eqb c)
  | RAny => single (fun c => (f_dotAll f || negb (is_line_terminator c))%bool)
  | RClass neg items => single (class_matches neg items)
  | RBol => if at_line_start f x then k x else None
  | REol => if at_line_end f x then k x else None
  | RWordB neg => if xorb neg (at_word_boundary x) then k x else None
  | RGroup idx r1 =>
      rmatch f r1
        (fun y => k (mkState (ms_prev y) (ms_rest y)
                             (set_capture idx (Some (consumed x y)) (ms_caps y))))
        x
  | RSeq r1 r2 => rmatch f r1 (fun y => rmatch f r2 k y) x
  | RAlt r1 r2 =>
      match rmatch f r1 k x with
      | Some z => Some z
      | None => rmatch f r2 k x
      end
  | RRepeat min max greedy r1 =>
      repeat_matcher (fun k' x' => rmatch f r1 k' x') (clear_captures r1)
                     greedy k (S (min + length (ms_rest x))) min max x
  end.

(** One attempt to match the expression at the current position: the input
    left after the match and the captures. *)
Definition exec_at (re : RegExp) (prev : option char) (rest : jsstring)
  : option (jsstring * list (option jsstring)) :=
  match rmatch (re_flags re) (re_body re) (fun y => Some y)
               (mkState prev rest (repeat None (re_ngroups re))) with
  | Some y => Some (ms_rest y, ms_caps y)
  | None => None
  end.

(* ================================================================== *)
(** ** String.prototype.replace with a regular expression *)

Definition digit_value (c : char) : nat := N.to_nat (N.sub c (ch "0")).

Definition capture_text (caps : list (option jsstring)) (idx : nat) : jsstring :=
  match nth_error caps (idx - 1) with
  | Some (Some s) => s
  | _ => []
  end.

Definition valid_index (caps : list (option jsstring)) (idx : nat) : bool :=
  (Nat.leb 1 idx && Nat.leb idx (length caps))%bool.

(** GetSubstitution: expansion of the [$]-patterns of a replacement text.
    [pre] and [post] are the parts of the subject before and after the
    match. *)
Fixpoint get_substitution (caps : list (option jsstring))
  (matched pre post : jsstring) (tpl : jsstring) {struct tpl} : jsstring :=
  match tpl with
  | [] => []
  | c :: t =>
      if N.eqb c (ch "$") then
        match t with
        | [] => [c]
        | d :: t' =>
            if N.eqb d (ch "$") then
              d :: get_substitution caps matched pre post t'
            else if N.eqb d (ch "`") then
              pre ++ get_substitution caps matched pre post t'
            else if N.eqb d (ch "&") then
              matched ++ get_substitution caps matched pre post t'
            else if N.eqb d (ch "'") then
              post ++ get_substitution caps matched pre post t'
            else if is_digit d then
              let one :=
                if valid_index caps (digit_value d)
                then capture_text caps (digit_value d)
                       ++ get_substitution caps matched pre post t'
                else c :: d :: get_substitution caps matched pre post t' in
              match t' with
              | e :: t'' =>
                  if is_digit e then
                    let idx := 10 * digit_value d + digit_value e in
                    if Nat.ltb (length caps) idx then one
                    else if valid_index caps idx
                    then capture_text caps idx
                           ++ get_substitution caps matched pre post t''
                    else c :: d :: e :: get_substitution caps matched pre post t''
                  else one
              | [] => one
              end
            else c :: get_substitution caps matched pre post t
        end
      else c :: get_substitution caps matched pre post t
  end.

(** The scan of [RegExp.prototype[Symbol.replace]]: [pre_rev] is the subject
    before the position (reversed), [rest] the subject from the position on,
    and [skip] the number of characters of the last match still to pass.
    After a match the search resumes at its end, or one character further
    when the match is empty.  Without the g flag only the first match is
    replaced. *)
Fixpoint replace_scan (re : RegExp) (tpl : jsstring) (pre_rev : jsstring)
  (rest : jsstring) (skip : nat) {struct rest} : jsstring :=
  match skip with
  | S skip' =>
      match rest with
      | [] => []
      | c :: rest' => replace_scan re tpl (c :: pre_rev) rest' skip'
      end
  | 0 =>
      match exec_at re (hd_error pre_rev) rest with
      | Some (after, caps) =>
          let n := length rest - length after in
          let out := get_substitution caps (firstn n rest) (rev pre_rev) after tpl in
          if f_global (re_flags re) then
            out ++ match rest with
                   | [] => []
                   | c :: rest' =>
                       match n with
                       | 0 => c :: replace_scan re tpl (c :: pre_rev) rest' 0
                       | S n' => replace_scan re tpl (c :: pre_rev) rest' n'
                       end
                   end
          else out ++ after
      | None =>
          match rest with
          | [] => []
          | c :: rest' => c :: replace_scan re tpl (c :: pre_rev) rest' 0
          end
      end
  end.

(** [s.replace(re, tpl)] for a regular expression [re] and a replacement
    text [tpl]. *)
Definition string_replace (re : RegExp) (tpl : jsstring) (s : jsstring) : jsstring :=
  replace_scan re tpl [] s 0.

Definition bind {A B : Type} (o : outcome A) (k : A -> outcome B) : outcome B :=
  match o with
  | Ok a => k a
  | Throws m => Throws m
  | OutOfModel w => OutOfModel w
  end.

Notation "x <- o ;; k" := (bind o (fun x => k))
  (at level 61, o at next level, right associativity).

(* ================================================================== *)
(** ** Values and objects *)

(** The values stored in [fieldValues]: strings, and booleans for the
    checkboxes of [createIssue]. *)
Inductive jsvalue : Type :=
| VString (s : jsstring)
| VBool (b : bool).

(** ToString, applied by [replace] to a replacement that is not a function. *)
Definition to_string (v : jsvalue) : jsstring :=
  match v with
  | VString s => s
  | VBool true => str "true"
  | VBool false => str "false"
  end.

(** An ordinary object, as the list of its own properties in the order
    [Object.entries] reports them: array indices in ascending order first,
    then the other keys in order of creation. *)
Definition jsobject := list (jsstring * jsvalue).

Fixpoint digits_value (s : jsstring) (acc : N) : option N :=
  match s with
  | [] => Some acc
  | c :: s' =>
      if is_digit c then digits_value s' (10 * acc + (c - ch "0"))%N
      else None
  end.

(** The array index a key denotes: a canonical decimal numeral at most
    2^32 - 2. *)
Definition array_index (k : jsstring) : option N :=
  match k with
  | [] => None
  | c :: k' =>
      if (N.eqb c (ch "0") && negb (eqb_str k' []))%bool then None
      else if Nat.ltb 10 (length k) then None
      else match digits_value k 0%N with
           | Some v => if N.leb v 4294967294%N then Some v else None
           | None => None
           end
  end.

Fixpoint obj_has (k : jsstring) (o : jsobject) : bool :=
  match o with
  | [] => false
  | (k', _) :: o' => (eqb_str k k' || obj_has k o')%bool
  end.

Fixpoint obj_update (k : jsstring) (v : jsvalue) (o : jsobject) : jsobject :=
  match o with
  | [] => []
  | (k', v') :: o' =>
      if eqb_str k k' then (k', v) :: o' else (k', v') :: obj_update k v o'
  end.

Fixpoint obj_insert_index (i : N) (k : jsstring) (v : jsvalue) (o : jsobject)
  : jsobject :=
  match o with
  | [] => [(k, v)]
  | (k', v') :: o' =>
      match array_index k' with
      | Some j =>
          if N.ltb i j then (k, v) :: o
          else (k', v') :: obj_insert_index i k v o'
      | None => (k, v) :: o
      end
  end.

(** [o[k] = v] on an object created by [{}], for a string or boolean [v].
    The key [__proto__] reaches the setter of [Object.prototype], which
    ignores a value that is neither an object nor null. *)
Definition obj_set (o : jsobject) (k : jsstring) (v : jsvalue) : jsobject :=
  if eqb_str k (str "__proto__") then o
  else if obj_has k o then obj_update k v o
  else match array_index k with
       | Some i => obj_insert_index i k v o
       | None => o ++ [(k, v)]
       end.

Definition Object_entries (o : jsobject) : list (jsstring * jsvalue) := o.

(* ================================================================== *)
(** ** The page *)

(** A form control: its [id], its [type] ("text", "textarea", "select-one",
    "checkbox"), its [value], its [checked] state and whether it carries the
    [required] attribute. *)
Record Element : Type := mkElement {
  el_id : jsstring;
  el_type : jsstring;
  el_value : jsstring;
  el_checked : bool;
  el_required : bool
}.

Record Page : Type := mkPage {
  issue_title : jsstring;       (* value of #issue-title *)
  issue_body : jsstring;        (* value of #issue-body *)
  elements : list Element;      (* the controls, in document order *)
  has_preview : bool;           (* whether #preview exists *)
  preview_html : jsstring       (* innerHTML of #preview *)
}.

(** [document.querySelectorAll('[id^="field-"]')]. *)
Definition template_fields (pg : Page) : list Element :=
  filter (fun e => starts_with (str "field-") (el_id e)) (elements pg).

(** [document.querySelectorAll('[id^="field-"][required]')]. *)
Definition required_fields (pg : Page) : list Element :=
  filter (fun e => (starts_with (str "field-") (el_id e) && el_required e)%bool)
         (elements pg).

(** [field.id.replace('field-', '')]. *)
Definition field_name (e : Element) : jsstring :=
  remove_first (str "field-") (el_id e).

Definition is_checkbox (e : Element) : bool :=
  eqb_str (el_type e) (str "checkbox").

Definition yes_token : jsstring := 10003%N :: str " Yes".
Definition no_token : jsstring := 10007%N :: str " No".

(** The value [updatePreview] stores for a control. *)
Definition preview_value (e : Element) : jsvalue :=
  if is_checkbox e
  then VString (if el_checked e then yes_token else no_token)
  else VString (el_value e).

(** The value [createIssue] stores for a control. *)
Definition submit_value (e : Element) : jsvalue :=
  if is_checkbox e then VBool (el_checked e) else VString (el_value e).

(** The loop that fills [fieldValues]. *)
Definition collect (value_of : Element -> jsvalue) (fields : list Element)
  : jsobject :=
  fold_left (fun o e => obj_set o (field_name e) (value_of e)) fields [].

(* ================================================================== *)
(** ** Placeholder substitution *)

(** [new RegExp(`\\{${key}\\}`, 'g')]. *)
Definition placeholder (key : jsstring) : outcome RegExp :=
  RegExp_new (str "\{" ++ key ++ str "\}") (str "g").

(** The loop over [Object.entries(fieldValues)] of both methods:
    [text = text.replace(placeholder, value)] for each entry in turn. *)
Fixpoint replace_placeholders (entries : list (jsstring * jsvalue))
  (text : jsstring) : outcome jsstring :=
  match entries with
  | [] => Ok text
  | (key, value) :: entries' =>
      re <- placeholder key ;;
      replace_placeholders entries' (string_replace re (to_string value) text)
  end.

(** [processedMarkdown] of [updatePreview]. *)
Definition processedMarkdown (markdown : jsstring) (fields : list Element)
  : outcome jsstring :=
  replace_placeholders (Object_entries (collect preview_value fields)) markdown.

(** [finalBody] of [createIssue]. *)
Definition finalBody (body : jsstring) (fields : list Element)
  : outcome jsstring :=
  replace_placeholders (Object_entries (collect submit_value fields)) body.

(* ================================================================== *)
(** ** The markdown preview *)

Definition dq : jsstring := [34%N].
Definition nl : jsstring := [10%N].

(** One call [.replace(/pattern/flags, replacement)] of the chain. *)
Record rule : Type := mkRule {
  rule_pattern : jsstring;
  rule_flags : jsstring;
  rule_replacement : jsstring
}.

Definition apply_rule (r : rule) (s : jsstring) : outcome jsstring :=
  re <- RegExp_new (rule_pattern r) (rule_flags r) ;;
  Ok (string_replace re (rule_replacement r) s).

Fixpoint apply_rules (rs : list rule) (s : jsstring) : outcome jsstring :=
  match rs with
  | [] => Ok s
  | r :: rs' => s' <- apply_rule r s ;; apply_rules rs' s'
  end.

(** The chain of [updatePreview], from the headers to the line breaks. *)
Definition markdown_rules : list rule :=
  [ mkRule (str "^# (.*$)") (str "gm") (str "<h1>$1</h1>");
    mkRule (str "^## (.*$)") (str "gm") (str "<h2>$1</h2>");
    mkRule (str "^### (.*$)") (str "gm") (str "<h3>$1</h3>");
    mkRule (str "^#### (.*$)") (str "gm") (str "<h4>$1</h4>");
    mkRule (str "^##### (.*$)") (str "gm") (str "<h5>$1</h5>");
    mkRule (str "^###### (.*$)") (str "gm") (str "<h6>$1</h6>");
    mkRule (str "\*\*(.*?)\*\*") (str "g") (str "<strong>$1</strong>");
    mkRule (str "\*(.*?)\*") (str "g") (str "<em>$1</em>");
    mkRule (str "`([^`]+)`") (str "g") (str "<code>$1</code>");
    mkRule (str "```(\w+)?\n([\s\S]*?)\n```") (str "g")
           (str "<pre><code class=" ++ dq ++ str "language-$1" ++ dq
              ++ str ">$2</code></pre>");
    mkRule (str "\[([^\]]+)\]\(([^)]+)\)") (str "g")
           (str "<a href=" ++ dq ++ str "$2" ++ dq ++ str " target=" ++ dq
              ++ str "_blank" ++ dq ++ str " rel=" ++ dq ++ str "noopener"
              ++ dq ++ str ">$1</a>");
    mkRule (str "!\[([^\]]*)\]\(([^)]+)\)") (str "g")
           (str "<img src=" ++ dq ++ str "$2" ++ dq ++ str " alt=" ++ dq
              ++ str "$1" ++ dq ++ str " style=" ++ dq
              ++ str "max-width: 100%; border-radius: 6px; margin: 10px 0;"
              ++ dq ++ str ">");
    mkRule (str "^- (.*)") (str "gm") (str "<li>$1</li>");
    mkRule (str "^(\d+)\. (.*)") (str "gm") (str "<li>$2</li>");
    mkRule (str "^> (.*)") (str "gm") (str "<blockquote>$1</blockquote>");
    mkRule (str "^---$") (str "gm") (str "<hr>");
    mkRule (str "\n\n") (str "g") (str "</p><p>");
    mkRule (str "\n") (str "g") (str "<br>") ].

Definition wrap_list_rule : rule :=
  mkRule (str "(<li>.*<\/li>)") (str "gs") (str "<ul>$1</ul>").

Definition empty_paragraph_rule : rule :=
  mkRule (str "<p>\s*<\/p>") (str "g") [].

(** The conversion of [updatePreview] from the substituted markdown to the
    HTML shown in the preview. *)
Definition render (processed : jsstring) : outcome jsstring :=
  html <- apply_rules markdown_rules processed ;;
  html <- apply_rule wrap_list_rule html ;;
  apply_rule empty_paragraph_rule (str "<p>" ++ html ++ str "</p>").

Definition preview_hint : jsstring :=
  str "<p style=" ++ dq
    ++ str "color: #8b949e; text-align: center; padding: 40px;" ++ dq
    ++ str ">Preview will appear here</p>".

Definition set_preview (pg : Page) (html : jsstring) : Page :=
  mkPage (issue_title pg) (issue_body pg) (elements pg) (has_preview pg) html.

(** [updatePreview()]: the page after the call, or the exception that
    leaves the handler. *)
Definition updatePreview (pg : Page) : outcome Page :=
  let markdown := issue_body pg in
  if negb (has_preview pg) then Ok pg
  else if negb (truthy (trim markdown)) then Ok (set_preview pg preview_hint)
  else
    processed <- processedMarkdown markdown (template_fields pg) ;;
    html <- render processed ;;
    Ok (set_preview pg html).

(* ================================================================== *)
(** ** Submitting the issue *)

Record Template : Type := mkTemplate {
  t_name : jsstring;
  t_title : jsstring;
  t_body : jsstring;
  t_description : jsstring;
  t_labels : list jsstring
}.

(** The application object together with what it reads and writes: the
    page and the draft kept in [localStorage] under [issue_draft]. *)
Record App : Type := mkApp {
  currentUser : option jsstring;
  currentRepository : option jsstring;
  currentToken : option jsstring;
  currentTemplate : option Template;
  page : Page;
  draft : option jsstring
}.

(** The JSON body of the request. *)
Record IssueData : Type := mkIssueData {
  d_title : jsstring;
  d_body : jsstring;
  d_token : jsstring;
  d_username : jsstring;
  d_repo_name : jsstring;
  d_labels : list jsstring
}.

(** The answer of the server, as far as [createIssue] reads it. *)
Record IssueResult : Type := mkIssueResult {
  r_success : bool;
  r_issue_number : option N;
  r_issue_url : option jsstring;
  r_message : option jsstring
}.

(** What a [fetch] comes to: a rejected promise, or a response whose body
    is JSON of the expected shape or not.  When it is not, the error the
    method reports carries a text that depends on the browser; the text
    below stands for it. *)
Inductive FetchResult : Type :=
| NetworkError (msg : jsstring)
| Response (status : nat) (json : option IssueResult).

Inductive Kind : Type := KSuccess | KError | KWarning | KInfo.

(** The argument of [showResult]: a text, or the HTML block announcing the
    created issue (number, URL, user, repository). *)
Inductive Message : Type :=
| MsgText (s : jsstring)
| MsgIssueCreated (number url user repo : jsstring).

(** The effects of [createIssue] on its surroundings, in order.  Writes to
    the console are left out. *)
Inductive Event : Type :=
| EvShowResult (m : Message) (k : Kind)
| EvShowLoading (m : jsstring)
| EvFocus (id : jsstring)
| EvFetch (url : jsstring) (d : IssueData)
| EvLogActivity (m : jsstring)
| EvRemoveDraft
| EvScheduleClearForm.

Definition truthy_opt (o : option jsstring) : bool :=
  match o with
  | Some s => truthy s
  | None => false
  end.

Definition or_default (o : option jsstring) (d : jsstring) : jsstring :=
  match o with
  | Some s => if truthy s then s else d
  | None => d
  end.

(** [result.data?.issue_number || 'N/A']: a missing number and the number
    0 are falsy. *)
Definition issue_number_text (o : option N) : jsstring :=
  match o with
  | Some (Npos p) => str (NilEmpty.string_of_uint (N.to_uint (Npos p)))
  | _ => str "N/A"
  end.

Definition text_of (o : option jsstring) : jsstring :=
  match o with Some s => s | None => [] end.

Definition cross : jsstring := [10060%N].

Definition error_creating (msg : jsstring) : Event :=
  EvShowResult (MsgText (cross ++ str " Error creating issue: " ++ msg)) KError.

Definition createIssue_endpoint : jsstring := str "/api/issues/create".
Definition createIssueCompat_endpoint : jsstring := str "/api/create-issue".

(** The part of [createIssue] after a response has arrived. *)
Definition handle_response (app : App) (title : jsstring) (res : FetchResult)
  : App * list Event :=
  match res with
  | NetworkError msg => (app, [error_creating msg])
  | Response status None =>
      (app, [error_creating (str "Server returned invalid JSON")])
  | Response _ (Some result) =>
      if r_success result then
        let number := issue_number_text (r_issue_number result) in
        let url := or_default (r_issue_url result) (str "#") in
        (mkApp (currentUser app) (currentRepository app) (currentToken app)
               (currentTemplate app) (page app) None,
         [ EvShowResult (MsgIssueCreated number url (text_of (currentUser app))
                                         (text_of (currentRepository app)))
                        KSuccess;
           EvLogActivity (str "Created issue: " ++ title ++ str " (#"
                            ++ number ++ str ")");
           EvRemoveDraft;
           EvScheduleClearForm ])
      else
        (app, [EvShowResult
                 (MsgText (cross ++ str " "
                             ++ or_default (r_message result)
                                           (str "Failed to create issue")))
                 KError])
  end.

(** [createIssue()], given what the two endpoints answer: the application
    afterwards and the effects performed. *)
Definition createIssue (main compat : IssueData -> FetchResult) (app : App)
  : outcome (App * list Event) :=
  if negb (truthy_opt (currentUser app) && truthy_opt (currentRepository app)
           && truthy_opt (currentToken app))%bool
  then Ok (app, [EvShowResult
                   (MsgText (str "Please connect to a repository first")) KError])
  else
    let title := trim (issue_title (page app)) in
    let body := trim (issue_body (page app)) in
    if negb (truthy title)
    then Ok (app, [EvShowResult (MsgText (str "Please enter issue title")) KError;
                    EvFocus (str "issue-title")])
    else if negb (truthy body)
    then Ok (app, [EvShowResult (MsgText (str "Please enter issue body")) KError;
                    EvFocus (str "issue-body")])
    else
      match find (fun e => negb (truthy (trim (el_value e))))
                 (required_fields (page app)) with
      | Some field =>
          Ok (app, [EvShowResult
                      (MsgText (str "Please fill required field: "
                                  ++ field_name field)) KError;
                    EvFocus (el_id field)])
      | None =>
          let loading := EvShowLoading (str "Creating issue...") in
          match finalBody body (template_fields (page app)) with
          | OutOfModel w => OutOfModel w
          | Throws m => Ok (app, [loading; error_creating (str m)])
          | Ok final =>
              let issueData :=
                mkIssueData title final (text_of (currentToken app))
                            (text_of (currentUser app))
                            (text_of (currentRepository app))
                            (match currentTemplate app with
                             | Some t => t_labels t
                             | None => []
                             end) in
              let first := EvFetch createIssue_endpoint issueData in
              match main issueData with
              | NetworkError _ =>
                  let second := EvFetch createIssueCompat_endpoint issueData in
                  let '(app', evs) := handle_response app title (compat issueData) in
                  Ok (app', loading :: first :: second :: evs)
              | res =>
                  let '(app', evs) := handle_response app title res in
                  Ok (app', loading :: first :: evs)
              end
          end
      end.

(* ================================================================== *)
(** ** More of the string runtime *)

(** [s.substring(a, b)] for two non-negative integers: both are clamped to
    the length and swapped when the first is the larger. *)
Definition substring (s : jsstring) (a b : nat) : jsstring :=
  let a' := Nat.min a (length s) in
  let b' := Nat.min b (length s) in
  firstn (Nat.max a' b' - Nat.min a' b') (skipn (Nat.min a' b') s).

(** [s.substr(a, n)] for two non-negative integers. *)
Definition substr (s : jsstring) (a n : nat) : jsstring :=
  firstn n (skipn a s).

(** [s.split(sep)] for a separator of one character: never empty. *)
Fixpoint split (sep : char) (s : jsstring) : list jsstring :=
  match s with
  | [] => [[]]
  | c :: s' =>
      if N.eqb c sep then [] :: split sep s'
      else match split sep s' with
           | line :: lines => (c :: line) :: lines
           | [] => [[c]]
           end
  end.

(** [parts.join(sep)]. *)
Fixpoint join (sep : jsstring) (parts : list jsstring) : jsstring :=
  match parts with
  | [] => []
  | [p] => p
  | p :: parts' => p ++ sep ++ join sep parts'
  end.

(** [parts.map((x, index) => f(index, x))], the indices starting at [i]. *)
Fixpoint mapi_from {A B : Type} (i : nat) (f : nat -> A -> B) (l : list A)
  : list B :=
  match l with
  | [] => []
  | x :: l' => f i x :: mapi_from (S i) f l'
  end.

(** The decimal text of a non-negative integer, as a template literal
    prints it. *)
Definition decimal (n : nat) : jsstring :=
  str (NilEmpty.string_of_uint (Nat.to_uint n)).

(** What a text area holds after [textarea.value = s], and gives back when
    its [value] is read: the text with its line breaks normalised, CR LF and
    a lone CR both becoming LF. *)
Fixpoint normalize_newlines (s : jsstring) : jsstring :=
  match s with
  | [] => []
  | c :: s' =>
      if N.eqb c 13%N
      then if starts_with nl s' then normalize_newlines s'
           else 10%N :: normalize_newlines s'
      else c :: normalize_newlines s'
  end.

(* ================================================================== *)
(** ** The formatting buttons *)

Definition set_body (pg : Page) (body : jsstring) : Page :=
  mkPage (issue_title pg) body (elements pg) (has_preview pg) (preview_html pg).

(** The [switch] of [applyStyle]: the text that takes the place of the
    selection and the cursor offset, or [None] at [default: return]. *)
Definition style_text (style selectedText : jsstring)
  : option (jsstring * nat) :=
  if eqb_str style (str "bold") then
    Some (str "**" ++ selectedText ++ str "**",
          if truthy selectedText then 0 else 2)
  else if eqb_str style (str "italic") then
    Some (str "*" ++ selectedText ++ str "*",
          if truthy selectedText then 0 else 1)
  else if eqb_str style (str "code") then
    Some (if includes nl selectedText
          then str "```" ++ nl ++ selectedText ++ nl ++ str "```"
          else str "`" ++ selectedText ++ str "`",
          if truthy selectedText then 0
          else if includes nl selectedText then 4 else 1)
  else if eqb_str style (str "bullet") then
    Some (join nl (map (fun line => if truthy (trim line)
                                    then str "- " ++ line else [])
                       (split 10%N selectedText)),
          0)
  else if eqb_str style (str "number") then
    Some (join nl (mapi_from 0
                     (fun index line =>
                        if truthy (trim line)
                        then decimal (index + 1) ++ str ". " ++ line else [])
                     (split 10%N selectedText)),
          0)
  else if eqb_str style (str "quote") then
    Some (join nl (map (fun line => str "> " ++ line)
                       (split 10%N selectedText)),
          0)
  else if eqb_str style (str "link") then
    Some (str "[" ++ (if truthy selectedText then selectedText
                      else str "link text")
            ++ str "](" ++ (if truthy selectedText then str "url"
                            else str "https://example.com")
            ++ str ")",
          if truthy selectedText then 3 else 1)
  else if eqb_str style (str "image") then
    Some (str "![" ++ (if truthy selectedText then selectedText
                       else str "alt text")
            ++ str "](" ++ (if truthy selectedText then str "image-url"
                            else str "https://example.com/image.jpg")
            ++ str ")",
          if truthy selectedText then 4 else 2)
  else None.

(** The text area after [applyStyle]: its new value and the place of the
    cursor.  [setSelectionRange] takes unsigned integers and clamps them to
    the length of the value, so a negative position would end up at the
    end. *)
Definition restyle (style value : jsstring) (start end_ : nat)
  : option (jsstring * nat) :=
  let selectedText := substring value start end_ in
  match style_text style selectedText with
  | None => None
  | Some (newText, cursorOffset) =>
      let value' :=
        normalize_newlines
          (substring value 0 start ++ newText ++ skipn end_ value) in
      let newCursorPos := start + length newText - cursorOffset in
      Some (value',
            if start + length newText <? cursorOffset then length value'
            else Nat.min newCursorPos (length value'))
  end.

(** [applyStyle(style)] on a page whose body has the selection from
    [start] to [end_]: the page and the selection afterwards. *)
Definition applyStyle (style : jsstring) (pg : Page) (start end_ : nat)
  : outcome (Page * (nat * nat)) :=
  match restyle style (issue_body pg) start end_ with
  | None => Ok (pg, (start, end_))
  | Some (value', caret) =>
      pg' <- updatePreview (set_body pg value') ;;
      Ok (pg', (caret, caret))
  end.

(** [refreshPreview()]. *)
Definition refreshPreview (pg : Page) : outcome (Page * list Event) :=
  pg' <- updatePreview pg ;;
  Ok (pg', [EvShowResult (MsgText (str "Preview refreshed")) KInfo]).

(* ================================================================== *)
(** ** The activity log *)

(** A child node of [#activity-log]: an item put there by [logActivity],
    showing a message and a time; another element; or a node that is no
    element (text, comment), which [children] does not count. *)
Inductive Node : Type :=
| ActivityItem (message timeString : jsstring)
| OtherElement
| OtherNode.

Definition is_element (n : Node) : bool :=
  match n with
  | OtherNode => false
  | _ => true
  end.

(** [activityLog.children]. *)
Definition children (nodes : list Node) : list Node := filter is_element nodes.

(** The loop [while (children.length > 10) removeChild(lastChild)], on the
    child nodes from the last to the first. *)
Fixpoint drop_while_over_ten (reversed : list Node) : list Node :=
  match reversed with
  | [] => []
  | _ :: reversed' =>
      if 10 <? length (children reversed)
      then drop_while_over_ten reversed' else reversed
  end.

(** [logActivity(message)] at the time shown as [timeString], on the child
    nodes of [#activity-log]; [None] when the page has no such element. *)
Definition logActivity (timeString message : jsstring)
  (log : option (list Node)) : option (list Node) :=
  match log with
  | None => None
  | Some nodes =>
      Some (rev (drop_while_over_ten
                   (rev (ActivityItem message timeString :: nodes))))
  end.

(* ================================================================== *)
(** ** The user id *)

(** [getUserId()], given the text of [Math.random().toString(36)] and the
    item [github_issues_user_id] of [localStorage]: the id returned and the
    item afterwards. *)
Definition getUserId (random : jsstring) (stored : option jsstring)
  : jsstring * option jsstring :=
  if truthy_opt stored then (text_of stored, stored)
  else
    let userId := str "user_" ++ substr random 2 9 in
    (userId, Some userId).

(* ================================================================== *)
(** ** JSON *)

(** A JSON value.  A number is kept as its text, and the members of an
    object in the order of the text. *)
Unset Elimination Schemes.
Inductive json : Type :=
| JNull
| JBool (b : bool)
| JNumber (text : jsstring)
| JString (s : jsstring)
| JArray (items : list json)
| JObject (members : list (jsstring * json)).
Set Elimination Schemes.

Definition hex_digit (n : N) : char :=
  if N.ltb n 10 then (48 + n)%N else (87 + n)%N.

(** The escape [\uXXXX] of a code unit, in lower-case digits. *)
Definition unicode_escape (c : char) : jsstring :=
  str "\u" ++ [hex_digit (N.modulo (N.div c 4096) 16);
               hex_digit (N.modulo (N.div c 256) 16);
               hex_digit (N.modulo (N.div c 16) 16);
               hex_digit (N.modulo c 16)].

Definition is_high_surrogate (c : char) : bool := char_in 55296%N 56319%N c.
Definition is_low_surrogate (c : char) : bool := char_in 56320%N 57343%N c.

(** The short escapes of QuoteJSONString. *)
Definition short_escape (c : char) : option char :=
  if N.eqb c 8%N then Some (ch "b")
  else if N.eqb c 9%N then Some (ch "t")
  else if N.eqb c 10%N then Some (ch "n")
  else if N.eqb c 12%N then Some (ch "f")
  else if N.eqb c 13%N then Some (ch "r")
  else if N.eqb c 34%N then Some 34%N
  else if N.eqb c (ch "\") then Some (ch "\")
  else None.

(** The characters of a string between the quotes of its JSON text: the
    control characters and the surrogates without a partner are escaped. *)
Fixpoint quote_chars (s : jsstring) : jsstring :=
  match s with
  | [] => []
  | c :: s' =>
      match short_escape c with
      | Some e => ch "\" :: e :: quote_chars s'
      | None =>
          if N.ltb c 32%N then unicode_escape c ++ quote_chars s'
          else if is_high_surrogate c then
            match s' with
            | d :: s'' =>
                if is_low_surrogate d then c :: d :: quote_chars s''
                else unicode_escape c ++ quote_chars s'
            | [] => unicode_escape c
            end
          else if is_low_surrogate c then unicode_escape c ++ quote_chars s'
          else c :: quote_chars s'
      end
  end.

(** QuoteJSONString. *)
Definition quote_json (s : jsstring) : jsstring := dq ++ quote_chars s ++ dq.

(** [JSON.stringify(value)] without indentation. *)
Fixpoint JSON_stringify (v : json) : jsstring :=
  match v with
  | JNull => str "null"
  | JBool true => str "true"
  | JBool false => str "false"
  | JNumber text => text
  | JString s => quote_json s
  | JArray items => str "[" ++ join (str ",") (map JSON_stringify items) ++ str "]"
  | JObject members =>
      str "{"
        ++ join (str ",")
             (map (fun member =>
                     match member with
                     | (key, value) =>
                         quote_json key ++ str ":" ++ JSON_stringify value
                     end) members)
        ++ str "}"
  end.

Definition is_json_space (c : char) : bool :=
  (N.eqb c 9%N || N.eqb c 10%N || N.eqb c 13%N || N.eqb c 32%N)%bool.

Fixpoint skip_space (s : jsstring) : jsstring :=
  match s with
  | c :: s' => if is_json_space c then skip_space s' else s
  | [] => []
  end.

Definition hex_value (c : char) : option N :=
  if is_digit c then Some (c - 48)%N
  else if char_in (ch "a") (ch "f") c then Some (c - 87)%N
  else if char_in (ch "A") (ch "F") c then Some (c - 55)%N
  else None.

Definition unescape (c : char) : option char :=
  if N.eqb c 34%N then Some 34%N
  else if N.eqb c (ch "\") then Some (ch "\")
  else if N.eqb c (ch "/") then Some (ch "/")
  else if N.eqb c (ch "b") then Some 8%N
  else if N.eqb c (ch "f") then Some 12%N
  else if N.eqb c (ch "n") then Some 10%N
  else if N.eqb c (ch "r") then Some 13%N
  else if N.eqb c (ch "t") then Some 9%N
  else None.

(** The rest of a JSON string after its opening quote: the string and what
    follows the closing quote, or [None] where the text is malformed. *)
Fixpoint parse_json_chars (s : jsstring) : option (jsstring * jsstring) :=
  match s with
  | [] => None
  | c :: s' =>
      if N.eqb c 34%N then Some ([], s')
      else if N.eqb c (ch "\") then
        match s' with
        | [] => None
        | e :: s'' =>
            if N.eqb e (ch "u") then
              match s'' with
              | h1 :: h2 :: h3 :: h4 :: rest =>
                  match hex_value h1, hex_value h2, hex_value h3, hex_value h4,
                        parse_json_chars rest with
                  | Some v1, Some v2, Some v3, Some v4, Some (text, rest') =>
                      Some ((v1 * 4096 + v2 * 256 + v3 * 16 + v4)%N :: text,
                            rest')
                  | _, _, _, _, _ => None
                  end
              | _ => None
              end
            else
              match unescape e, parse_json_chars s'' with
              | Some d, Some (text, rest) => Some (d :: text, rest)
              | _, _ => None
              end
        end
      else if N.ltb c 32%N then None
      else
        match parse_json_chars s' with
        | Some (text, rest) => Some (c :: text, rest)
        | None => None
        end
  end.

Fixpoint span_digits (s : jsstring) : jsstring * jsstring :=
  match s with
  | c :: s' =>
      if is_digit c
      then let '(digits, rest) := span_digits s' in (c :: digits, rest)
      else ([], s)
  | [] => ([], [])
  end.

(** One or more digits. *)
Definition parse_json_digits (s : jsstring) : option (jsstring * jsstring) :=
  match span_digits s with
  | ([], _) => None
  | found => Some found
  end.

(** A JSON number: its text and what follows it. *)
Definition parse_json_number (s : jsstring) : option (jsstring * jsstring) :=
  let '(sign, s1) :=
    match s with
    | c :: s' => if N.eqb c (ch "-") then ([c], s') else ([], s)
    | [] => ([], s)
    end in
  match match s1 with
        | c :: s' =>
            if N.eqb c (ch "0") then Some ([c], s') else parse_json_digits s1
        | [] => None
        end with
  | None => None
  | Some (int, s2) =>
      match match s2 with
            | c :: s' =>
                if N.eqb c (ch ".")
                then match parse_json_digits s' with
                     | Some (digits, rest) => Some (c :: digits, rest)
                     | None => None
                     end
                else Some ([], s2)
            | [] => Some ([], s2)
            end with
      | None => None
      | Some (frac, s3) =>
          match s3 with
          | c :: s' =>
              if (N.eqb c (ch "e") || N.eqb c (ch "E"))%bool then
                let '(esign, s4) :=
                  match s' with
                  | d :: s'' =>
                      if (N.eqb d (ch "+") || N.eqb d (ch "-"))%bool
                      then ([d], s'') else ([], s')
                  | [] => ([], s')
                  end in
                match parse_json_digits s4 with
                | Some (digits, rest) =>
                    Some (sign ++ int ++ frac ++ c :: esign ++ digits, rest)
                | None => None
                end
              else Some (sign ++ int ++ frac, s3)
          | [] => Some (sign ++ int ++ frac, s3)
          end
      end
  end.

Definition json_syntax_error {A : Type} : outcome A :=
  Throws "SyntaxError: the text is not JSON".

Definition json_too_deep {A : Type} : outcome A :=
  OutOfModel "JSON text nested deeper than the parser follows".

(** A JSON value at the head of [s], and the members of an object after
    its opening brace.  [fuel] bounds the nesting and the number of members
    followed. *)
Fixpoint parse_json_value (fuel : nat) (s : jsstring)
  : outcome (json * jsstring) :=
  match fuel with
  | 0 => json_too_deep
  | S fuel' =>
      match s with
      | [] => json_syntax_error
      | c :: s' =>
          if N.eqb c 34%N then
            match parse_json_chars s' with
            | Some (text, rest) => Ok (JString text, rest)
            | None => json_syntax_error
            end
          else if N.eqb c (ch "{") then
            match skip_space s' with
            | d :: rest =>
                if N.eqb d (ch "}") then Ok (JObject [], rest)
                else
                  found <- parse_json_members fuel' (d :: rest) ;;
                  Ok (JObject (fst found), snd found)
            | [] => json_syntax_error
            end
          else if N.eqb c (ch "[") then
            match skip_space s' with
            | d :: rest =>
                if N.eqb d (ch "]") then Ok (JArray [], rest)
                else
                  found <- parse_json_elements fuel' (d :: rest) ;;
                  Ok (JArray (fst found), snd found)
            | [] => json_syntax_error
            end
          else if starts_with (str "true") s then Ok (JBool true, skipn 4 s)
          else if starts_with (str "false") s then Ok (JBool false, skipn 5 s)
          else if starts_with (str "null") s then Ok (JNull, skipn 4 s)
          else
            match parse_json_number s with
            | Some (text, rest) => Ok (JNumber text, rest)
            | None => json_syntax_error
            end
      end
  end
with parse_json_members (fuel : nat) (s : jsstring)
  : outcome (list (jsstring * json) * jsstring) :=
  match fuel with
  | 0 => json_too_deep
  | S fuel' =>
      match s with
      | c :: s1 =>
          if N.eqb c 34%N then
            match parse_json_chars s1 with
            | Some (key, s2) =>
                match skip_space s2 with
                | colon :: s3 =>
                    if N.eqb colon (ch ":") then
                      found <- parse_json_value fuel' (skip_space s3) ;;
                      match skip_space (snd found) with
                      | d :: s4 =>
                          if N.eqb d (ch ",") then
                            more <- parse_json_members fuel' (skip_space s4) ;;
                            Ok ((key, fst found) :: fst more, snd more)
                          else if N.eqb d (ch "}") then
                            Ok ([(key, fst found)], s4)
                          else json_syntax_error
                      | [] => json_syntax_error
                      end
                    else json_syntax_error
                | [] => json_syntax_error
                end
            | None => json_syntax_error
            end
          else json_syntax_error
      | [] => json_syntax_error
      end
  end
with parse_json_elements (fuel : nat) (s : jsstring)
  : outcome (list json * jsstring) :=
  match fuel with
  | 0 => json_too_deep
  | S fuel' =>
      found <- parse_json_value fuel' s ;;
      match skip_space (snd found) with
      | d :: s1 =>
          if N.eqb d (ch ",") then
            more <- parse_json_elements fuel' (skip_space s1) ;;
            Ok (fst found :: fst more, snd more)
          else if N.eqb d (ch "]") then Ok ([fst found], s1)
          else json_syntax_error
      | [] => json_syntax_error
      end
  end.

(** [JSON.parse(text)]. *)
Definition JSON_parse (text : jsstring) : outcome json :=
  found <- parse_json_value (S (2 * length text)) (skip_space text) ;;
  match skip_space (snd found) with
  | [] => Ok (fst found)
  | _ :: _ => json_syntax_error
  end.

(** [value[key]] for a value [JSON.parse] returned and a key that no
    prototype defines: the last member of that name of an object,
    [undefined] ([None]) on any other value, and a [TypeError] on [null]. *)
Definition json_get (key : jsstring) (value : json) : outcome (option json) :=
  match value with
  | JNull => Throws "TypeError: cannot read a property of null"
  | JObject members =>
      Ok (option_map snd
            (find (fun member => eqb_str (fst member) key) (rev members)))
  | _ => Ok None
  end.

(** [x || ''] as the text a control is given, for what a property of a
    parsed value can be. *)
Definition or_empty (x : option json) : outcome jsstring :=
  match x with
  | None | Some JNull | Some (JBool false) => Ok []
  | Some (JBool true) => Ok (str "true")
  | Some (JString s) => Ok s
  | Some _ => OutOfModel "a number, an array or an object as a text"
  end.

(* ================================================================== *)
(** ** Drafts *)

Definition set_form (app : App) (title body : jsstring) : App :=
  mkApp (currentUser app) (currentRepository app) (currentToken app)
        (currentTemplate app)
        (mkPage title body (elements (page app)) (has_preview (page app))
                (preview_html (page app)))
        (draft app).

Definition set_page (app : App) (pg : Page) : App :=
  mkApp (currentUser app) (currentRepository app) (currentToken app)
        (currentTemplate app) pg (draft app).

(** A value in a template literal: [null] prints as its name. *)
Definition template_text (o : option jsstring) : jsstring :=
  match o with
  | Some s => s
  | None => str "null"
  end.

(** The object [saveAsDraft] stores: [template] is left out by
    [JSON.stringify] when there is no current template. *)
Definition draft_data (app : App) (timestamp : jsstring) : json :=
  JObject
    ([(str "title", JString (issue_title (page app)));
      (str "body", JString (issue_body (page app)))]
       ++ match currentTemplate app with
          | Some t => [(str "template", JString (t_name t))]
          | None => []
          end
       ++ [(str "timestamp", JString timestamp);
           (str "repository",
            if truthy_opt (currentRepository app)
            then JString (template_text (currentUser app) ++ str "/"
                            ++ template_text (currentRepository app))
            else JNull)]).

(** [saveAsDraft(silent)] at the time [timestamp]. *)
Definition saveAsDraft (timestamp : jsstring) (silent : bool) (app : App)
  : App * list Event :=
  let title := issue_title (page app) in
  let body := issue_body (page app) in
  if (negb (truthy title) && negb (truthy body))%bool then (app, [])
  else
    (mkApp (currentUser app) (currentRepository app) (currentToken app)
           (currentTemplate app) (page app)
           (Some (JSON_stringify (draft_data app timestamp))),
     if silent then []
     else [EvShowResult (MsgText (str "Draft saved locally")) KInfo;
           EvLogActivity (str "Draft saved")]).

Section TitleControl.

(** The page itself is not among the sources, so the type of the control
    [#issue-title] is not known: [title_control s] stands for what it
    holds after [value = s].  The body is a text area. *)
Variable title_control : jsstring -> jsstring.

(** The part of [loadDraft] inside [try], for the parsed draft; a
    [TypeError] or an exception of [updatePreview] ends it where it
    stands. *)
Definition load_parsed (issueData : json) (app : App) : outcome (App * list Event) :=
  match json_get (str "title") issueData with
  | OutOfModel w => OutOfModel w
  | Throws _ => Ok (app, [])
  | Ok title =>
      title <- or_empty title ;;
      let app1 := set_form app (title_control title) (issue_body (page app)) in
      body <- (found <- json_get (str "body") issueData ;; or_empty found) ;;
      let app2 := set_form app1 (issue_title (page app1))
                           (normalize_newlines body) in
      match updatePreview (page app2) with
      | OutOfModel w => OutOfModel w
      | Throws _ => Ok (app2, [])
      | Ok pg =>
          Ok (set_page app2 pg,
              if (truthy title || truthy body)%bool
              then [EvShowResult (MsgText (str "Draft loaded from local storage"))
                                 KInfo;
                    EvLogActivity (str "Loaded draft")]
              else [])
      end
  end.

(** [loadDraft()]; [issue_section] tells whether [#issue-creation-section]
    exists and, if so, whether it is hidden. *)
Definition loadDraft (issue_section : option bool) (app : App)
  : outcome (App * list Event) :=
  if truthy_opt (draft app) then
    match JSON_parse (text_of (draft app)) with
    | OutOfModel w => OutOfModel w
    | Throws _ => Ok (app, [])
    | Ok issueData =>
        match issue_section with
        | Some false => load_parsed issueData app
        | _ => Ok (app, [])
        end
    end
  else Ok (app, []).

End TitleControl.

(** The three sections of the page: for each, [None] when the page has no
    such element, and otherwise whether it carries the class [hidden]. *)
Record Sections : Type := mkSections {
  connection_section : option bool;
  template_section : option bool;
  issue_creation_section : option bool
}.

Definition type_error {A : Type} : outcome A :=
  Throws "TypeError: cannot read a property of null".

(** [clearForm()].  [in_container] is [None] when the page has no
    [#template-fields], and otherwise tells the controls inside it, which
    are removed.  A text control holds the empty string after
    [value = '']. *)
Definition clearForm (in_container : option (Element -> bool))
  (sections : Sections) (app : App) : outcome (App * Sections * list Event) :=
  let pg := page app in
  let controls :=
    match in_container with
    | Some inside => filter (fun e => negb (inside e)) (elements pg)
    | None => elements pg
    end in
  let preview := if has_preview pg then preview_hint else preview_html pg in
  match issue_creation_section sections, template_section sections with
  | Some _, Some _ =>
      Ok (mkApp (currentUser app) (currentRepository app) (currentToken app)
                None
                (mkPage [] [] controls (has_preview pg) preview)
                (draft app),
          mkSections (connection_section sections) (Some false) (Some true),
          [EvLogActivity (str "Form cleared")])
  | _, _ => type_error
  end.


(* ================================================================== *)
(** ** Connecting to a repository *)

(** The controls of the connection form. *)
Record ConnectForm : Type := mkConnectForm {
  username_input : jsstring;
  repo_name_input : jsstring;
  token_input : jsstring;
  save_to_redis : bool
}.

(** The JSON body of the verification request. *)
Record ConnectionData : Type := mkConnectionData {
  c_username : jsstring;
  c_repo_name : jsstring;
  c_token : jsstring;
  c_save_to_redis : bool;
  c_user_agent : jsstring;
  c_timestamp : jsstring
}.

Record RepoData : Type := mkRepoData {
  rd_full_name : option jsstring;
  rd_private : bool
}.

(** The answer of the server, as far as [verifyAndConnect] reads it. *)
Record VerifyResult : Type := mkVerifyResult {
  v_success : bool;
  v_message : option jsstring;
  v_repo_data : option RepoData
}.

Inductive VerifyFetch : Type :=
| VerifyNetworkError (msg : jsstring)
| VerifyResponse (status : nat) (json : option VerifyResult).

(** The effects of [verifyAndConnect], in order. *)
Inductive ConnectEvent : Type :=
| CeShowResult (message : jsstring) (k : Kind)
| CeShowLoading (message : jsstring)
| CeConfirm (question : jsstring)
| CeFetch (url : jsstring) (d : ConnectionData)
| CeLogActivity (message : jsstring)
| CeLoadRepositoriesLater
| CeLoadDraftLater.

Definition verify_endpoint : jsstring := str "/api/verify".

Definition check_mark : jsstring := [9989%N].

Definition connection_error (msg : jsstring) : ConnectEvent :=
  CeShowResult (cross ++ str " Connection error: " ++ msg) KError.

(** The message of the [TypeError] raised on a missing section; its text
    is the browser's, the text below stands for it. *)
Definition null_property : jsstring := str "Cannot read properties of null".

Definition undefined_or (o : option jsstring) : jsstring :=
  match o with
  | Some s => s
  | None => str "undefined"
  end.

(** The branch [result.success] of [verifyAndConnect]. *)
Definition connected (username repoName token : jsstring) (saveToRedis : bool)
  (result : VerifyResult) (sections : Sections) (app : App)
  : App * Sections * list ConnectEvent :=
  let app' := mkApp (Some username) (Some repoName) (Some token)
                    (currentTemplate app) (page app) (draft app) in
  let success :=
    CeShowResult (check_mark ++ str " Successfully connected to repository!")
                 KSuccess in
  match connection_section sections with
  | None => (app', sections, [success; connection_error null_property])
  | Some _ =>
      let hidden := mkSections (Some true) (template_section sections)
                               (issue_creation_section sections) in
      match template_section sections with
      | None => (app', hidden, [success; connection_error null_property])
      | Some _ =>
          (app',
           mkSections (Some true) (Some false) (issue_creation_section sections),
           [success;
            CeLogActivity (str "Connected to " ++ username ++ str "/" ++ repoName)]
             ++ (if saveToRedis then [CeLoadRepositoriesLater] else [])
             ++ match v_repo_data result with
                | Some repo =>
                    [CeLogActivity
                       (str "Repository: " ++ undefined_or (rd_full_name repo)
                          ++ str " ("
                          ++ (if rd_private repo then str "Private"
                              else str "Public")
                          ++ str ")")]
                | None => []
                end
             ++ [CeLoadDraftLater])
      end
  end.

(** [verifyAndConnect()], given the answer to the [confirm] dialog, what
    the server answers, and the browser's user agent and clock. *)
Definition verifyAndConnect (confirmed : bool)
  (server : ConnectionData -> VerifyFetch) (user_agent timestamp : jsstring)
  (form : ConnectForm) (sections : Sections) (app : App)
  : App * Sections * list ConnectEvent :=
  let username := trim (username_input form) in
  let repoName := trim (repo_name_input form) in
  let token := trim (token_input form) in
  let saveToRedis := save_to_redis form in
  if (negb (truthy username) || negb (truthy repoName) || negb (truthy token))%bool
  then (app, sections,
        [CeShowResult (str "Please fill all required fields") KError])
  else
    let asked :=
      (negb (starts_with (str "ghp_") token)
       && negb (starts_with (str "github_pat_") token))%bool in
    let question :=
      if asked
      then [CeConfirm (str "This doesn't look like a valid GitHub token. Continue anyway?")]
      else [] in
    if (asked && negb confirmed)%bool then (app, sections, question)
    else
      let connectionData :=
        mkConnectionData username repoName token saveToRedis
                         user_agent timestamp in
      let before :=
        question ++ [CeShowLoading (str "Verifying credentials...");
                     CeFetch verify_endpoint connectionData] in
      match server connectionData with
      | VerifyNetworkError msg =>
          (app, sections, before ++ [connection_error msg])
      | VerifyResponse status None =>
          (app, sections,
           before ++ [connection_error
                        (str "Server returned invalid JSON (" ++ decimal status
                           ++ str ")")])
      | VerifyResponse _ (Some result) =>
          if v_success result then
            let '(app', sections', evs) :=
              connected username repoName token saveToRedis result sections app in
            (app', sections', before ++ evs)
          else
            (app, sections,
             before ++ [CeShowResult
                          (cross ++ str " "
                             ++ or_default (v_message result)
                                           (str "Connection failed"))
                          KError])
      end.

(* ================================================================== *)
(** ** URI components *)

(** The characters [encodeURIComponent] leaves as they are. *)
Definition is_uri_unreserved (c : char) : bool :=
  (char_in (ch "a") (ch "z") c || char_in (ch "A") (ch "Z") c || is_digit c
   || existsb (N.eqb c) (str "-_.!~*'()"))%bool.

Definition upper_hex_digit (n : N) : char :=
  if N.ltb n 10 then (48 + n)%N else (55 + n)%N.

(** [%XX] for an octet. *)
Definition percent (octet : N) : jsstring :=
  [ch "%"; upper_hex_digit (N.modulo (N.div octet 16) 16);
   upper_hex_digit (N.modulo octet 16)].

(** The octets of a code point in UTF-8. *)
Definition utf8 (cp : N) : list N :=
  if N.ltb cp 128 then [cp]
  else if N.ltb cp 2048 then [(192 + cp / 64)%N; (128 + cp mod 64)%N]
  else if N.ltb cp 65536 then
    [(224 + cp / 4096)%N; (128 + (cp / 64) mod 64)%N; (128 + cp mod 64)%N]
  else [(240 + cp / 262144)%N; (128 + (cp / 4096) mod 64)%N;
        (128 + (cp / 64) mod 64)%N; (128 + cp mod 64)%N].

(** [encodeURIComponent(s)]; [None] is the [URIError] thrown on a surrogate
    without its partner. *)
Fixpoint encodeURIComponent (s : jsstring) : option jsstring :=
  match s with
  | [] => Some []
  | c :: s' =>
      if is_uri_unreserved c then option_map (cons c) (encodeURIComponent s')
      else if is_low_surrogate c then None
      else if is_high_surrogate c then
        match s' with
        | d :: s'' =>
            if is_low_surrogate d then
              option_map
                (app (flat_map percent
                        (utf8 (65536 + (c - 55296) * 1024 + (d - 56320))%N)))
                (encodeURIComponent s'')
            else None
        | [] => None
        end
      else option_map (app (flat_map percent (utf8 c))) (encodeURIComponent s')
  end.

(* ================================================================== *)
(** ** The legacy script *)

Module Legacy.

(** The chain of the stand-alone [updatePreview]. *)
Definition preview_rules : list rule :=
  [ mkRule (str "\*\*(.*?)\*\*") (str "g") (str "<strong>$1</strong>");
    mkRule (str "\*(.*?)\*") (str "g") (str "<em>$1</em>");
    mkRule (str "`(.*?)`") (str "g") (str "<code>$1</code>");
    mkRule (str "> (.*)") (str "g") (str "<blockquote>$1</blockquote>");
    mkRule (str "- (.*)") (str "g") (str "<li>$1</li>");
    mkRule (str "(\d+)\. (.*)") (str "g") (str "<li>$2</li>");
    mkRule (str "(<li>.*<\/li>)") (str "gs") (str "<ul>$1</ul>");
    mkRule (str "\n") (str "g") (str "<br>") ].

(** [updatePreview()]: the new [innerHTML] of the preview for the text of
    the body. *)
Definition updatePreview (markdown : jsstring) : outcome jsstring :=
  apply_rules preview_rules markdown.

(** The [switch] of the stand-alone [applyStyle]: [newText], which stays
    empty for a style the switch does not name. *)
Definition style_text (style selectedText : jsstring) : jsstring :=
  if eqb_str style (str "bold") then str "**" ++ selectedText ++ str "**"
  else if eqb_str style (str "italic") then str "*" ++ selectedText ++ str "*"
  else if eqb_str style (str "code") then str "`" ++ selectedText ++ str "`"
  else if eqb_str style (str "bullet") then
    join nl (map (fun line => str "- " ++ line) (split 10%N selectedText))
  else if eqb_str style (str "number") then
    join nl (mapi_from 0 (fun index line =>
                            decimal (index + 1) ++ str ". " ++ line)
                       (split 10%N selectedText))
  else if eqb_str style (str "quote") then
    join nl (map (fun line => str "> " ++ line) (split 10%N selectedText))
  else [].

(** The value of the text area after [applyStyle(style)]. *)
Definition restyle (style value : jsstring) (start end_ : nat) : jsstring :=
  normalize_newlines
    (substring value 0 start
       ++ style_text style (substring value start end_) ++ skipn end_ value).

(** [applyStyle(style)]: the new value of the text area and the new
    [innerHTML] of the preview. *)
Definition applyStyle (style value : jsstring) (start end_ : nat)
  : outcome (jsstring * jsstring) :=
  let value' := restyle style value start end_ in
  html <- updatePreview value' ;;
  Ok (value', html).

(** The controls the stand-alone functions read and write. *)
Record Form : Type := mkForm {
  username : jsstring;
  repo_name : jsstring;
  token : jsstring;
  title : jsstring;
  body : jsstring;
  preview : jsstring
}.

(** The JSON body of the request of [createIssue]. *)
Record IssueData : Type := mkIssueData {
  d_title : jsstring;
  d_body : jsstring;
  d_token : jsstring;
  d_username : jsstring;
  d_repo_name : jsstring
}.

(** The effects of the stand-alone functions, in order. *)
Inductive Event : Type :=
| EvShowResult (message type : jsstring)
| EvGet (url : jsstring)
| EvPost (url : jsstring) (d : IssueData)
| EvShowIssueSection.

Record VerifyResult : Type := mkVerifyResult {
  v_valid : bool;
  v_repo_exists : bool;
  v_message : option jsstring
}.

(** What a [fetch] comes to: a rejected promise, or a response with its
    status and its body, when that is JSON of the expected shape. *)
Inductive Fetch (A : Type) : Type :=
| NetworkError (msg : jsstring)
| Response (status : nat) (json : option A).
Arguments NetworkError {A} msg.

(** [response.ok]. *)
Definition ok (status : nat) : bool := (200 <=? status) && (status <=? 299).

Definition failure (msg : jsstring) : Event :=
  EvShowResult (cross ++ str " Error: " ++ msg) (str "error").

(** The messages of the [URIError] of [encodeURIComponent] and of the
    error of [response.json()]; their texts are the browser's, the texts
    below stand for them. *)
Definition uri_malformed : jsstring := str "URI malformed".
Definition invalid_json : jsstring := str "Unexpected token in JSON".

(** [verifyCredentials()], given what the server answers to the URL. *)
Definition verifyCredentials (server : jsstring -> Fetch VerifyResult)
  (form : Form) : list Event :=
  if (negb (truthy (username form)) || negb (truthy (repo_name form))
      || negb (truthy (token form)))%bool
  then [EvShowResult (str "Please fill all authentication fields") (str "error")]
  else
    match encodeURIComponent (token form),
          encodeURIComponent (username form),
          encodeURIComponent (repo_name form) with
    | Some token', Some username', Some repoName' =>
        let apiUrl := str "/api/verify-token?token=" ++ token'
                        ++ str "&username=" ++ username'
                        ++ str "&repo_name=" ++ repoName' in
        EvGet apiUrl
          :: match server apiUrl with
             | NetworkError msg => [failure msg]
             | Response status json =>
                 if negb (ok status)
                 then [failure (str "HTTP error! status: " ++ decimal status)]
                 else
                   match json with
                   | None => [failure invalid_json]
                   | Some data =>
                       if (v_valid data && v_repo_exists data)%bool
                       then [EvShowIssueSection;
                             EvShowResult
                               (check_mark
                                  ++ str " Credentials verified successfully!")
                               (str "success")]
                       else [EvShowResult
                               (cross ++ str " Authentication failed: "
                                  ++ undefined_or (v_message data))
                               (str "error")]
                   end
             end
    | _, _, _ => [failure uri_malformed]
    end.

Record CreateResult : Type := mkCreateResult {
  r_success : bool;
  r_issue_url : option jsstring;
  r_message : option jsstring
}.

Definition create_endpoint : jsstring := str "/api/create-issue".

(** [createIssue()], given what the server answers: the form afterwards
    and the effects. *)
Definition createIssue (server : IssueData -> Fetch CreateResult) (form : Form)
  : Form * list Event :=
  if (negb (truthy (title form)) || negb (truthy (body form)))%bool
  then (form, [EvShowResult (str "Please fill issue title and body")
                            (str "error")])
  else
    let data := mkIssueData (title form) (body form) (token form)
                            (username form) (repo_name form) in
    let failed msg :=
      (form, [EvPost create_endpoint data;
              EvShowResult (str "Error creating issue: " ++ msg) (str "error")]) in
    match server data with
    | NetworkError msg => failed msg
    | Response _ None => failed invalid_json
    | Response _ (Some result) =>
        if r_success result then
          (mkForm (username form) (repo_name form) (token form) [] [] [],
           [EvPost create_endpoint data;
            EvShowResult
              (str "Issue created successfully! <a href=" ++ dq
                 ++ undefined_or (r_issue_url result) ++ dq ++ str " target="
                 ++ dq ++ str "_blank" ++ dq ++ str ">View Issue</a>")
              (str "success")])
        else failed (undefined_or (r_message result))
    end.

End Legacy.

(* ================================================================== *)
(** ** Vocabulary of the properties *)

(** The characters with a meaning of their own in a pattern. *)
Definition is_syntax_char (c : char) : bool :=
  (N.eqb c (ch "^") || N.eqb c (ch "$") || N.eqb c (ch "\") || N.eqb c (ch ".")
   || N.eqb c (ch "*") || N.eqb c (ch "+") || N.eqb c (ch "?")
   || N.eqb c (ch "(") || N.eqb c (ch ")") || N.eqb c (ch "[")
   || N.eqb c (ch "]") || N.eqb c (ch "{") || N.eqb c (ch "}")
   || N.eqb c (ch "|"))%bool.

(** A key is plain when none of its characters is a syntax character, as
    for the names [custom_field], [steps-to-reproduce] or [OS version]. *)
Definition plain_key (k : jsstring) : bool :=
  forallb (fun c => negb (is_syntax_char c)) k.

Definition plain_keys (entries : list (jsstring * jsvalue)) : bool :=
  forallb (fun kv => plain_key (fst kv)) entries.

Definition is_brace (c : char) : bool :=
  (N.eqb c (ch "{") || N.eqb c (ch "}"))%bool.

Definition brace_free (s : jsstring) : bool :=
  forallb (fun c => negb (is_brace c)) s.

(** A value is inert when its text has no brace and no dollar sign: it can
    neither complete a placeholder nor be expanded as a [$]-pattern. *)
Definition inert_text (s : jsstring) : bool :=
  forallb (fun c => negb (is_brace c || N.eqb c (ch "$"))) s.

Definition inert_values (entries : list (jsstring * jsvalue)) : bool :=
  forallb (fun kv => inert_text (to_string (snd kv))) entries.

(** The placeholder token [{name}]. *)
Definition token (name : jsstring) : jsstring :=
  ch "{" :: name ++ [ch "}"].

(** The braces of a text are flat when they pair up as [{name}] around
    names without braces: no nesting and no stray brace. *)
Fixpoint flat_braces_from (inside : bool) (s : jsstring) : bool :=
  match s with
  | [] => negb inside
  | c :: s' =>
      if N.eqb c (ch "{") then (negb inside && flat_braces_from true s')%bool
      else if N.eqb c (ch "}") then (inside && flat_braces_from false s')%bool
      else flat_braces_from inside s'
  end.

Definition flat_braces (s : jsstring) : bool := flat_braces_from false s.

Fixpoint distinct_keys (entries : list (jsstring * jsvalue)) : bool :=
  match entries with
  | [] => true
  | (k, _) :: entries' =>
      (negb (existsb (fun kv => eqb_str k (fst kv)) entries')
       && distinct_keys entries')%bool
  end.

(** The first entry whose token stands at the head of [s]. *)
Fixpoint lookup_token (m : list (jsstring * jsvalue)) (s : jsstring)
  : option (jsstring * jsvalue) :=
  match m with
  | [] => None
  | (k, v) :: m' =>
      if starts_with (token k) s then Some (k, v) else lookup_token m' s
  end.

(** Modelled on the words of the specification (section 4.1): one pass over
    the body from left to right, in which a token [{key}] of the map is
    replaced by the text of its value and the inserted text is not looked
    at again.  [skip] counts the characters of the token being replaced
    that remain to be passed. *)
Fixpoint single_pass (m : list (jsstring * jsvalue)) (s : jsstring)
  (skip : nat) {struct s} : jsstring :=
  match s with
  | [] => []
  | c :: s' =>
      match skip with
      | S n => single_pass m s' n
      | 0 =>
          match lookup_token m s with
          | Some (k, v) => to_string v ++ single_pass m s' (length k + 1)
          | None => c :: single_pass m s' 0
          end
      end
  end.

(** The pattern that matches the text [w] and nothing else. *)
Fixpoint literal (w : jsstring) : regex :=
  match w with
  | [] => REmpty
  | c :: w' => RSeq (RChar c) (literal w')
  end.

(** A body seen as a sequence of ordinary characters and tokens. *)
Inductive segment : Type :=
| Lit (c : char)
| Tok (name : jsstring).

Definition segment_text (g : segment) : jsstring :=
  match g with
  | Lit c => [c]
  | Tok name => token name
  end.

Definition flatten (gs : list segment) : jsstring :=
  flat_map segment_text gs.

Definition segment_ok (g : segment) : bool :=
  match g with
  | Lit c => negb (is_brace c)
  | Tok name => brace_free name
  end.

Fixpoint assoc (name : jsstring) (m : list (jsstring * jsvalue)) : option jsvalue :=
  match m with
  | [] => None
  | (k, v) :: m' => if eqb_str k name then Some v else assoc name m'
  end.

(** What one segment becomes when the tokens of [m] are replaced. *)
Definition substitute_segment (m : list (jsstring * jsvalue)) (g : segment)
  : list segment :=
  match g with
  | Lit c => [Lit c]
  | Tok name =>
      match assoc name m with
      | Some v => map Lit (to_string v)
      | None => [Tok name]
      end
  end.

Definition is_request (ev : Event) : bool :=
  match ev with
  | EvFetch _ _ => true
  | _ => false
  end.

Definition is_error_report (ev : Event) : bool :=
  match ev with
  | EvShowResult _ KError => true
  | _ => false
  end.

(** The events of a rejected submission: one error message, then at most
    the focus moved to the offending control. *)
Definition rejection (evs : list Event) : bool :=
  match evs with
  | [EvShowResult (MsgText _) KError] => true
  | [EvShowResult (MsgText _) KError; EvFocus _] => true
  | _ => false
  end.

Definition text_field (name value : jsstring) : Element :=
  mkElement (str "field-" ++ name) (str "text") value false false.

Definition checkbox_field (name : jsstring) (checked : bool) : Element :=
  mkElement (str "field-" ++ name) (str "checkbox") (str "on") checked false.


Definition plain_field_names (fields : list Element) : bool :=
  forallb (fun e => plain_key (field_name e)) fields.

Definition no_checkbox (fields : list Element) : bool :=
  forallb (fun e => negb (is_checkbox e)) fields.

(** Whether some required control is blank. *)
Definition blank_required_field (pg : Page) : bool :=
  existsb (fun e => negb (truthy (trim (el_value e)))) (required_fields pg).

(** A session connected to a repository, with the given form. *)
Definition connected_app (title body : jsstring) (controls : list Element) : App :=
  mkApp (Some (str "octocat")) (Some (str "hello-world")) (Some (str "ghp_token"))
        None (mkPage title body controls true []) (Some (str "draft")).

(** A server that creates the issue. *)
Definition accepting : IssueData -> FetchResult :=
  fun _ => Response 201 (Some (mkIssueResult true (Some 7%N) None None)).

(** The bodies of the requests among the events. *)
Fixpoint sent_bodies (evs : list Event) : list jsstring :=
  match evs with
  | [] => []
  | EvFetch _ d :: evs' => d_body d :: sent_bodies evs'
  | _ :: evs' => sent_bodies evs'
  end.

Definition events_of (o : outcome (App * list Event)) : list Event :=
  match o with
  | Ok (_, evs) => evs
  | _ => []
  end.

(** The expression a plain key compiles to. *)
Definition placeholder_regexp (k : jsstring) : RegExp :=
  mkRegExp (literal (token k)) 0 (mkFlags true false false).

(** Every match of [r] consumes a character satisfying [p]. *)
Fixpoint must_consume (p : char -> bool) (r : regex) : bool :=
  match r with
  | RChar c => p c
  | RGroup _ r1 => must_consume p r1
  | RRepeat min max _ r1 =>
      (negb (min =? 0) && negb (is_zero_max max) && must_consume p r1)%bool
  | RSeq r1 r2 => (must_consume p r1 || must_consume p r2)%bool
  | RAlt r1 r2 => (must_consume p r1 && must_consume p r2)%bool
  | _ => false
  end.

(** The test the first character of every match of [r] passes, when the
    shape of [r] tells. *)
Fixpoint first_test (r : regex) : option (char -> bool) :=
  match r with
  | RChar c => Some (N.eqb c)
  | RClass neg items => Some (class_matches neg items)
  | RGroup _ r1 => first_test r1
  | RRepeat min max _ r1 =>
      if ((min =? 0) || is_zero_max max)%bool then None else first_test r1
  | RSeq r1 _ => first_test r1
  | _ => None
  end.

Definition fails_at_head (q : char -> bool) (s : jsstring) : bool :=
  match s with
  | c :: _ => negb (q c)
  | [] => true
  end.

Definition count_char (c : char) (s : jsstring) : nat :=
  length (filter (N.eqb c) s).

Definition lacks (p : char -> bool) (s : jsstring) : bool :=
  forallb (fun c => negb (p c)) s.

(** The expression of the list-wrapping rule, [/(<li>.*<\/li>)/gs]. *)
Definition wrap_list_regexp : RegExp :=
  mkRegExp
    (RSeq (RGroup 1
             (fold_right (fun c acc => RSeq (RChar c) acc)
                         (RSeq (RRepeat 0 None true RAny) (literal (str "</li>")))
                         (str "<li>")))
          REmpty)
    1 (mkFlags true false true).

(** The line the bullet style makes of a line of the selection. *)
Definition bullet_line (line : jsstring) : jsstring :=
  if truthy (trim line) then str "- " ++ line else [].

(** The line the number style makes of the line at [index]. *)
Definition number_line (index : nat) (line : jsstring) : jsstring :=
  if truthy (trim line) then decimal (index + 1) ++ str ". " ++ line else [].

(** No line of [s] is blank. *)
Definition non_blank_lines (s : jsstring) : bool :=
  forallb (fun line => truthy (trim line)) (split 10%N s).

(** The styles and selections on which the two scripts build the same
    text. *)
Definition same_in_both_scripts (style selectedText : jsstring) : bool :=
  (eqb_str style (str "bold") || eqb_str style (str "italic")
   || eqb_str style (str "quote")
   || (eqb_str style (str "code") && negb (includes nl selectedText))
   || ((eqb_str style (str "bullet") || eqb_str style (str "number"))
       && non_blank_lines selectedText))%bool.

(** The styles the legacy [switch] names. *)
Definition legacy_styles : list jsstring :=
  [str "bold"; str "italic"; str "code"; str "bullet"; str "number";
   str "quote"].

(** The item of the log for an activity, given as its time and message. *)
Definition item_of (entry : jsstring * jsstring) : Node :=
  ActivityItem (snd entry) (fst entry).

(** Whether an event reports success. *)
Definition is_success_report (ev : Event) : bool :=
  match ev with
  | EvShowResult _ KSuccess => true
  | _ => false
  end.

(** The application once the draft is removed from [localStorage]. *)
Definition without_draft (app : App) : App :=
  mkApp (currentUser app) (currentRepository app) (currentToken app)
        (currentTemplate app) (page app) None.

(** An endpoint that cannot be reached. *)
Definition unreachable : IssueData -> FetchResult :=
  fun _ => NetworkError (str "Failed to fetch").

(** The rest of a string read after its first character [c]. *)
Definition continue_with (c : char) (r : option (jsstring * jsstring))
  : option (jsstring * jsstring) :=
  match r with
  | Some (text, rest) => Some (c :: text, rest)
  | None => None
  end.

(** What a step of the parser may come to on the text [s]: an exception,
    or a value and a rest shorter than [s]. *)
Definition consumes {A : Type} (o : outcome (A * jsstring)) (s : jsstring) : Prop :=
  match o with
  | Ok (_, rest) => length rest < length s
  | Throws _ => True
  | OutOfModel _ => False
  end.

(** Strings, booleans and [null]. *)
Definition flat_value (v : json) : bool :=
  match v with
  | JNull | JBool _ | JString _ => true
  | _ => false
  end.

Definition flat_members (members : list (jsstring * json)) : bool :=
  forallb (fun member => flat_value (snd member)) members.

(** The JSON text of a member. *)
Definition member_text (member : jsstring * json) : jsstring :=
  quote_json (fst member) ++ str ":" ++ JSON_stringify (snd member).

Definition is_verify_request (ev : ConnectEvent) : bool :=
  match ev with
  | CeFetch _ _ => true
  | _ => false
  end.

Definition is_connect_success (ev : ConnectEvent) : bool :=
  match ev with
  | CeShowResult _ KSuccess => true
  | _ => false
  end.

(** The three fields of the connection form are filled. *)
Definition form_filled (form : ConnectForm) : bool :=
  (truthy (trim (username_input form)) && truthy (trim (repo_name_input form))
   && truthy (trim (token_input form)))%bool.

(** The token starts as the tokens of GitHub do. *)
Definition token_looks_valid (form : ConnectForm) : bool :=
  (starts_with (str "ghp_") (trim (token_input form))
   || starts_with (str "github_pat_") (trim (token_input form)))%bool.

(** What a single-line text input holds after [value = s]: the line
    breaks are removed. *)
Definition single_line (s : jsstring) : jsstring :=
  filter (fun c => negb (N.eqb c 10%N || N.eqb c 13%N)) s.

(** A session that is not connected yet, with the given form. *)
Definition fresh_app (title body : jsstring) (controls : list Element) : App :=
  mkApp None None None None (mkPage title body controls true []) None.

(** The page as it is while the form is edited. *)
Definition editing : Sections := mkSections (Some true) (Some true) (Some false).

(** A server that accepts the credentials. *)
Definition granting : ConnectionData -> VerifyFetch :=
  fun _ => VerifyResponse 200 (Some (mkVerifyResult true None None)).

Definition octocat_form : ConnectForm :=
  mkConnectForm (str " octocat ") (str "hello-world") (str "ghp_token ") false.

(** The characters of an encoded component: the unreserved ones and the
    percent sign. *)
Definition uri_safe (c : char) : bool :=
  (is_uri_unreserved c || N.eqb c (ch "%"))%bool.

(** The delimiters of a query string. *)
Definition is_query_delimiter (c : char) : bool :=
  (N.eqb c (ch "&") || N.eqb c (ch "=") || N.eqb c (ch "?") || N.eqb c (ch "#"))%bool.

(** The form of the legacy page holding what was typed into the
    application: the inputs of the connection form as they are, and the
    title and body of the page. *)
Definition legacy_form (form : ConnectForm) (pg : Page) (preview : jsstring)
  : Legacy.Form :=
  Legacy.mkForm (username_input form) (repo_name_input form) (token_input form)
                (issue_title pg) (issue_body pg) preview.

(** The expression of the bold rule, [/\*\*(.*?)\*\*/g]. *)
Definition bold_regexp : RegExp :=
  mkRegExp
    (RSeq (RChar (ch "*"))
       (RSeq (RChar (ch "*"))
          (RSeq (RGroup 1 (RSeq (RRepeat 0 None false RAny) REmpty))
                (literal (str "**")))))
    1 (mkFlags true false false).

(** The bold rule of the chain. *)
Definition bold_rule : rule :=
  mkRule (str "\*\*(.*?)\*\*") (str "g") (str "<strong>$1</strong>").

(** Text without markup: no line terminator, backtick, opening bracket,
    [<] or star, and not starting with [#], [-], [>] or a digit. *)
Definition unmarked (s : jsstring) : bool :=
  (lacks (fun c => (is_line_terminator c || N.eqb c (ch "`")
                    || N.eqb c (ch "[") || N.eqb c (ch "<")
                    || N.eqb c (ch "*"))%bool) s
   && fails_at_head (fun c => (N.eqb c (ch "#") || N.eqb c (ch "-")
                               || N.eqb c (ch ">") || is_digit c)%bool) s)%bool.

(** Whether an event of the legacy script reports success. *)
Definition is_legacy_success (ev : Legacy.Event) : bool :=
  match ev with
  | Legacy.EvShowResult _ type => eqb_str type (str "success")
  | _ => false
  end.

(** ** Vocabulary: tokens left alone, open markers, the embedded patterns *)

(** A replacement text copies the text around the match when it holds
    [$`] or [$']. *)
Fixpoint copies_context (tpl : jsstring) : bool :=
  match tpl with
  | [] => false
  | c :: t =>
      ((N.eqb c (ch "$")
        && match t with
           | d :: _ => (N.eqb d (ch "`") || N.eqb d (ch "'"))%bool
           | [] => false
           end)
       || copies_context t)%bool
  end.

Definition local_values (entries : list (jsstring * jsvalue)) : bool :=
  forallb (fun kv => negb (copies_context (to_string (snd kv)))) entries.

Definition local_field_values (fields : list Element) : bool :=
  forallb (fun e => negb (copies_context (el_value e))) fields.

(** A text cut at some of its tokens: [first], then each token followed by
    the text up to the next one. *)
Fixpoint weave (first : jsstring) (rest : list (jsstring * jsstring))
  : jsstring :=
  match rest with
  | [] => first
  | (name, piece) :: rest' => first ++ token name ++ weave piece rest'
  end.

(** The names of the tokens at the cuts have no brace and are no keys. *)
Definition unknown_names (entries : list (jsstring * jsvalue))
  (rest : list (jsstring * jsstring)) : bool :=
  forallb (fun np => (brace_free (fst np)
                      && match assoc (fst np) entries with
                         | None => true
                         | Some _ => false
                         end)%bool) rest.

(** A page whose body starts with a space, with a field whose value copies
    the text before the match. *)
Definition padded_page : Page :=
  mkPage (str "T") (str " {a}") [text_field (str "a") (str "[$`]")] true [].





















(** Whether the pattern [createIssue] and [updatePreview] build for the
    key lies in the fragment of the pattern language embedded here. *)
Definition pattern_in_model (key : jsstring) : bool :=
  match placeholder key with
  | OutOfModel _ => false
  | _ => true
  end.

Definition field_names_in_model (fields : list Element) : bool :=
  forallb (fun e => pattern_in_model (field_name e)) fields.

(** The data of a request of the application as the legacy script names
    them (it knows no labels). *)
Definition legacy_data (d : IssueData) : Legacy.IssueData :=
  Legacy.mkIssueData (d_title d) (d_body d) (d_token d) (d_username d)
                     (d_repo_name d).

(** A page with a field whose name holds a dot, and one with a field whose
    name is no pattern. *)
Definition dotted_app : App :=
  connected_app (str "Title") (str "On {os.version}")
                [text_field (str "os.version") (str "14.2")].

Definition unbalanced_app : App :=
  connected_app (str "Title") (str "On {os}") [text_field (str "(") (str "x")].

(* ================================================================== *)
(** * Properties *)

Unset Implicit Arguments.

(** ** Strings *)

Lemma eqb_str_eq (a b : jsstring) : eqb_str a b = true <-> a = b.
Proof.
  revert b; induction a as [|x a IH]; intros [|y b]; simpl; split;
    try discriminate; try reflexivity.
  - intros H. apply andb_true_iff in H as [H1 H2].
    apply N.eqb_eq in H1. apply IH in H2. congruence.
  - intros H. injection H as -> ->. rewrite N.eqb_refl. simpl.
    now apply IH.
Qed.

Lemma eqb_str_refl (a : jsstring) : eqb_str a a = true.
Proof. now apply eqb_str_eq. Qed.

(** ** The pattern of a plain key *)

Lemma syntax_char_tests (c : char) :
  is_syntax_char c = false ->
  N.eqb c (ch "^") = false /\ N.eqb c (ch "$") = false
  /\ N.eqb c (ch "\") = false /\ N.eqb c (ch ".") = false
  /\ N.eqb c (ch "*") = false /\ N.eqb c (ch "+") = false
  /\ N.eqb c (ch "?") = false /\ N.eqb c (ch "(") = false
  /\ N.eqb c (ch ")") = false /\ N.eqb c (ch "[") = false
  /\ N.eqb c (ch "]") = false /\ N.eqb c (ch "{") = false
  /\ N.eqb c (ch "}") = false /\ N.eqb c (ch "|") = false.
Proof.
  unfold is_syntax_char. intros H.
  repeat (apply orb_false_iff in H; destruct H as [H ?]).
  repeat split; assumption.
Qed.

Lemma no_quantifier_before_plain (c : char) (p : jsstring) :
  is_syntax_char c = false -> parse_quantifier_prefix (c :: p) = None.
Proof.
  intros H. apply syntax_char_tests in H.
  destruct H as (_ & _ & _ & _ & Hs & Hp & Hq & _ & _ & _ & _ & Hb & _).
  unfold parse_quantifier_prefix. now rewrite Hs, Hp, Hq, Hb.
Qed.

Lemma parse_term_plain (fuel : nat) (c : char) (p : jsstring) (n : nat) :
  is_syntax_char c = false ->
  parse_quantifier_prefix p = None ->
  parse_term (S fuel) (c :: p) n = POk (RChar c, n) p.
Proof.
  intros H Hq. apply syntax_char_tests in H.
  destruct H as (H1 & H2 & H3 & H4 & H5 & H6 & H7 & H8 & H9 & H10 & H11 & H12 & H13 & H14).
  simpl in *. rewrite H1, H2, H8, H5, H6, H7, H12, H4, H10, H3. simpl.
  unfold quantified. now rewrite Hq.
Qed.

Lemma parse_alternative_plain (k : jsstring) :
  plain_key k = true ->
  forall fuel n, length k + 2 <= fuel ->
  parse_alternative fuel (k ++ str "\}") n = POk (literal (k ++ [ch "}"]), n) [].
Proof.
  induction k as [|c k IH]; intros Hk fuel n Hf.
  - destruct fuel as [|[|fuel]]; simpl in Hf; try lia. reflexivity.
  - simpl in Hk. apply andb_true_iff in Hk as [Hc Hk].
    apply negb_true_iff in Hc.
    destruct fuel as [|fuel]; simpl in Hf; [lia|].
    assert (Hq : parse_quantifier_prefix (k ++ str "\}") = None).
    { destruct k as [|d k]; [reflexivity|].
      simpl in Hk. apply andb_true_iff in Hk as [Hd _].
      apply negb_true_iff in Hd. now apply no_quantifier_before_plain. }
    destruct fuel as [|fuel]; [lia|].
    change (parse_alternative (S (S fuel)) ((c :: k) ++ str "\}") n)
      with (if (N.eqb c (ch "|") || N.eqb c (ch ")"))%bool
            then POk (REmpty, n) ((c :: k) ++ str "\}")
            else match parse_term (S fuel) (c :: k ++ str "\}") n with
                 | POk (t, n1) p1 =>
                     match parse_alternative (S fuel) p1 n1 with
                     | POk (r, n2) p2 => POk (RSeq t r, n2) p2
                     | e => e
                     end
                 | e => e
                 end).
    pose proof (syntax_char_tests c Hc) as T.
    destruct T as (_ & _ & _ & _ & _ & _ & _ & _ & H9 & _ & _ & _ & _ & H14).
    rewrite H14, H9. simpl orb. cbv iota.
    rewrite (parse_term_plain fuel c (k ++ str "\}") n Hc Hq).
    rewrite (IH Hk (S fuel) n) by lia. reflexivity.
Qed.

Lemma placeholder_plain (k : jsstring) :
  plain_key k = true ->
  placeholder k = Ok (placeholder_regexp k).
Proof.
  intros Hk. unfold placeholder, placeholder_regexp, RegExp_new.
  change (parse_flags (str "g") (mkFlags false false false))
    with (Ok (mkFlags true false false)).
  cbv iota beta.
  set (fuel := 3 * length (str "\{" ++ k ++ str "\}") + 3).
  assert (Hf : length k + 4 <= fuel).
  { unfold fuel. rewrite !length_app. simpl. lia. }
  destruct fuel as [|[|[|fuel]]]; try lia.
  change (parse_disjunction (S (S (S fuel))) (str "\{" ++ k ++ str "\}") 0)
    with (match parse_alternative (S (S fuel)) (str "\{" ++ k ++ str "\}") 0 with
          | POk (r1, n1) p1 =>
              match p1 with
              | c :: p2 =>
                  if N.eqb c (ch "|") then
                    match parse_disjunction (S (S fuel)) p2 n1 with
                    | POk (r2, n2) p3 => POk (RAlt r1 r2, n2) p3
                    | e => e
                    end
                  else POk (r1, n1) p1
              | [] => POk (r1, n1) p1
              end
          | e => e
          end).
  assert (Hq : parse_quantifier_prefix (k ++ str "\}") = None).
  { destruct k as [|d k]; [reflexivity|].
    simpl in Hk. apply andb_true_iff in Hk as [Hd _].
    apply negb_true_iff in Hd. now apply no_quantifier_before_plain. }
  assert (Ht : parse_term (S fuel) (str "\{" ++ k ++ str "\}") 0
               = POk (RChar (ch "{"), 0) (k ++ str "\}")).
  { simpl. unfold quantified. now rewrite Hq. }
  change (parse_alternative (S (S fuel)) (str "\{" ++ k ++ str "\}") 0)
    with (match parse_term (S fuel) (str "\{" ++ k ++ str "\}") 0 with
          | POk (t, n1) p1 =>
              match parse_alternative (S fuel) p1 n1 with
              | POk (r, n2) p2 => POk (RSeq t r, n2) p2
              | e => e
              end
          | e => e
          end).
  rewrite Ht. rewrite (parse_alternative_plain k Hk) by lia. reflexivity.
Qed.

(** ** Matching a literal pattern *)

Lemma rmatch_literal (f : flags) (w : jsstring) (k : mstate -> option mstate) :
  forall x,
  rmatch f (literal w) k x
  = if starts_with w (ms_rest x)
    then k (mkState (fold_left (fun _ c => Some c) w (ms_prev x))
                    (skipn (length w) (ms_rest x)) (ms_caps x))
    else None.
Proof.
  induction w as [|c w IH]; intros [prev rest caps].
  - reflexivity.
  - simpl. destruct rest as [|d rest]; [reflexivity|].
    destruct (N.eqb c d) eqn:E; [|reflexivity].
    apply N.eqb_eq in E. subst d. simpl. rewrite IH. reflexivity.
Qed.

Lemma exec_at_literal (w : jsstring) (fl : flags) (prev : option char)
  (rest : jsstring) :
  exec_at (mkRegExp (literal w) 0 fl) prev rest
  = if starts_with w rest then Some (skipn (length w) rest, []) else None.
Proof.
  unfold exec_at. simpl. rewrite rmatch_literal. simpl.
  now destruct (starts_with w rest).
Qed.

(** A text without [$] is its own expansion. *)
Lemma get_substitution_inert caps matched pre post (tpl : jsstring) :
  forallb (fun c => negb (N.eqb c (ch "$"))) tpl = true ->
  get_substitution caps matched pre post tpl = tpl.
Proof.
  induction tpl as [|c t IH]; [reflexivity|].
  simpl. intros H. apply andb_true_iff in H as [Hc Ht].
  apply negb_true_iff in Hc. simpl in Hc. rewrite Hc. f_equal. now apply IH.
Qed.

Lemma inert_text_parts (s : jsstring) :
  inert_text s = true ->
  brace_free s = true /\ forallb (fun c => negb (N.eqb c (ch "$"))) s = true.
Proof.
  unfold inert_text, brace_free. rewrite !forallb_forall. intros H.
  split; intros c Hc; specialize (H c Hc);
    apply negb_true_iff, orb_false_iff in H as [Hb Hd];
    apply negb_true_iff; assumption.
Qed.

Lemma starts_with_length (p s : jsstring) :
  starts_with p s = true -> length p <= length s.
Proof.
  revert s; induction p as [|x p IH]; intros [|y s]; simpl; try discriminate;
    try lia.
  intros H. apply andb_true_iff in H as [_ H]. apply IH in H. lia.
Qed.

(** The scan of a placeholder pattern is the scan of [single_pass] with the
    one entry, provided the value has no [$]. *)
Lemma replace_scan_single_pass (k v : jsstring) (val : jsvalue) :
  to_string val = v ->
  forallb (fun c => negb (N.eqb c (ch "$"))) v = true ->
  forall s pre_rev skip,
  replace_scan (placeholder_regexp k) v pre_rev s skip
  = single_pass [(k, val)] s skip.
Proof.
  unfold placeholder_regexp.
  intros Hv Hd. induction s as [|c s IH]; intros pre_rev skip.
  - destruct skip; [|reflexivity].
    cbn [replace_scan]. rewrite exec_at_literal. reflexivity.
  - destruct skip as [|skip].
    + cbn [replace_scan single_pass lookup_token]. rewrite exec_at_literal.
      destruct (starts_with (token k) (c :: s)) eqn:E.
      * cbn [re_flags f_global]. rewrite get_substitution_inert by assumption.
        rewrite Hv. f_equal.
        pose proof (starts_with_length _ _ E) as Hl.
        rewrite length_skipn.
        replace (length (c :: s) - (length (c :: s) - length (token k)))
          with (S (length k + 1)).
        2:{ assert (Ht : length (token k) = S (length k + 1))
              by (unfold token; simpl; rewrite length_app; simpl; lia).
            rewrite Ht in *. lia. }
        apply IH.
      * f_equal. apply IH.
    + simpl. apply IH.
Qed.

(** ** The fuel of the repetition is always sufficient *)

Section Fuel.

Variable m : (mstate -> option mstate) -> mstate -> option mstate.
Variable clear : mstate -> mstate.
Variable greedy : bool.

(** The matcher [m] calls its continuation only at positions at or after
    its own. *)
Hypothesis m_local : forall k k' x,
  (forall y, length (ms_rest y) <= length (ms_rest x) -> k y = k' y) ->
  m k x = m k' x.
Hypothesis clear_rest : forall x, ms_rest (clear x) = ms_rest x.

Lemma repeat_matcher_local (fuel : nat) :
  forall k k' min max x,
  (forall y, length (ms_rest y) <= length (ms_rest x) -> k y = k' y) ->
  repeat_matcher m clear greedy k fuel min max x
  = repeat_matcher m clear greedy k' fuel min max x.
Proof.
  induction fuel as [|fuel IH]; intros k k' min max x H; [reflexivity|].
  cbn [repeat_matcher]. rewrite (H x (le_n _)).
  assert (E : m (fun y =>
                   if ((min =? 0) && (length (ms_rest y) =? length (ms_rest x)))%bool
                   then None
                   else repeat_matcher m clear greedy k fuel (pred min) (pred_max max) y)
                (clear x)
              = m (fun y =>
                   if ((min =? 0) && (length (ms_rest y) =? length (ms_rest x)))%bool
                   then None
                   else repeat_matcher m clear greedy k' fuel (pred min) (pred_max max) y)
                (clear x)).
  { apply m_local. intros y Hy. rewrite clear_rest in Hy.
    destruct ((min =? 0) && _)%bool; [reflexivity|].
    apply IH. intros z Hz. apply H. lia. }
  now rewrite E.
Qed.

Lemma repeat_matcher_fuel (k : mstate -> option mstate) (fuel : nat) :
  forall fuel' min max x,
  min + length (ms_rest x) < fuel ->
  min + length (ms_rest x) < fuel' ->
  repeat_matcher m clear greedy k fuel min max x
  = repeat_matcher m clear greedy k fuel' min max x.
Proof.
  induction fuel as [|fuel IH]; intros fuel' min max x H H'; [lia|].
  destruct fuel' as [|fuel']; [lia|].
  cbn [repeat_matcher].
  assert (E : m (fun y =>
                   if ((min =? 0) && (length (ms_rest y) =? length (ms_rest x)))%bool
                   then None
                   else repeat_matcher m clear greedy k fuel (pred min) (pred_max max) y)
                (clear x)
              = m (fun y =>
                   if ((min =? 0) && (length (ms_rest y) =? length (ms_rest x)))%bool
                   then None
                   else repeat_matcher m clear greedy k fuel' (pred min) (pred_max max) y)
                (clear x)).
  { apply m_local. intros y Hy. rewrite clear_rest in Hy.
    destruct (min =? 0) eqn:Em;
      [destruct (length (ms_rest y) =? length (ms_rest x)) eqn:El|];
      cbn [andb]; try reflexivity.
    - apply Nat.eqb_eq in Em. apply Nat.eqb_neq in El. apply IH; lia.
    - apply Nat.eqb_neq in Em. apply IH; lia. }
  now rewrite E.
Qed.

End Fuel.

Lemma rmatch_local (f : flags) (r : regex) :
  forall k k' x,
  (forall y, length (ms_rest y) <= length (ms_rest x) -> k y = k' y) ->
  rmatch f r k x = rmatch f r k' x.
Proof.
  induction r as [|c| |neg items| | |neg|idx r IH|min max greedy r IH
                  |r1 IH1 r2 IH2|r1 IH1 r2 IH2]; intros k k' x H;
    cbn [rmatch];
    try (rewrite (H x (le_n _)); reflexivity);
    try (destruct (ms_rest x) as [|d rest] eqn:E; [reflexivity|];
         match goal with |- (if ?b then _ else _) = _ => destruct b end;
         [|reflexivity]; apply H; cbn; lia).
  - apply IH. intros y Hy. apply H. exact Hy.
  - apply repeat_matcher_local; [exact IH|reflexivity|exact H].
  - apply IH1. intros y Hy. apply IH2. intros z Hz. apply H. lia.
  - rewrite (IH1 k k' x H), (IH2 k k' x H). reflexivity.
Qed.

(** More fuel than the matcher takes changes nothing: no repetition ever
    stops for lack of fuel. *)
Lemma repeat_fuel_suffices (f : flags) (min : nat) (max : option nat)
  (greedy : bool) (r : regex) (k : mstate -> option mstate) (x : mstate)
  (extra : nat) :
  repeat_matcher (rmatch f r) (clear_captures r) greedy k
                 (S (min + length (ms_rest x)) + extra) min max x
  = rmatch f (RRepeat min max greedy r) k x.
Proof.
  cbn [rmatch]. apply repeat_matcher_fuel; try lia.
  - apply rmatch_local.
  - reflexivity.
Qed.

(** ** One pass over a body made of characters and tokens *)

Lemma plain_key_brace_free (k : jsstring) :
  plain_key k = true -> brace_free k = true.
Proof.
  unfold plain_key, brace_free. rewrite !forallb_forall. intros H c Hc.
  specialize (H c Hc). apply negb_true_iff in H. apply syntax_char_tests in H.
  destruct H as (_ & _ & _ & _ & _ & _ & _ & _ & _ & _ & _ & H12 & H13 & _).
  unfold is_brace. now rewrite H12, H13.
Qed.

Lemma lookup_token_other (m : list (jsstring * jsvalue)) (c : char)
  (s : jsstring) :
  N.eqb (ch "{") c = false -> lookup_token m (c :: s) = None.
Proof.
  intros Hc. induction m as [|[k v] m IH]; [reflexivity|].
  cbn [lookup_token]. unfold token. cbn [starts_with]. now rewrite Hc.
Qed.

Lemma single_pass_passes (m : list (jsstring * jsvalue)) (x r : jsstring) :
  forallb (fun c => negb (N.eqb (ch "{") c)) x = true ->
  single_pass m (x ++ r) 0 = x ++ single_pass m r 0.
Proof.
  induction x as [|c x IH]; [reflexivity|].
  cbn [forallb]. intros H. apply andb_true_iff in H as [Hc Hx].
  apply negb_true_iff in Hc.
  cbn [app single_pass]. rewrite lookup_token_other by assumption.
  f_equal. now apply IH.
Qed.

Lemma single_pass_skips (m : list (jsstring * jsvalue)) (x r : jsstring) :
  single_pass m (x ++ r) (length x) = single_pass m r 0.
Proof. induction x as [|c x IH]; [reflexivity|]. simpl. apply IH. Qed.

Lemma not_brace_tests (c : char) :
  negb (is_brace c) = true ->
  N.eqb (ch "{") c = false /\ N.eqb (ch "}") c = false
  /\ N.eqb c (ch "{") = false /\ N.eqb c (ch "}") = false.
Proof.
  intros H. apply negb_true_iff, orb_false_iff in H as [H1 H2].
  rewrite (N.eqb_sym (ch "{")), (N.eqb_sym (ch "}")). auto.
Qed.

Lemma starts_with_closing (k n r : jsstring) :
  brace_free k = true -> brace_free n = true ->
  starts_with (k ++ [ch "}"]) (n ++ ch "}" :: r) = eqb_str k n.
Proof.
  revert n; induction k as [|c k IH]; intros [|d n] Hk Hn.
  - reflexivity.
  - cbn [brace_free forallb] in Hn. apply andb_true_iff in Hn as [Hd _].
    apply not_brace_tests in Hd as (_ & Hd & _ & _).
    cbn [app starts_with eqb_str]. now rewrite Hd.
  - cbn [brace_free forallb] in Hk. apply andb_true_iff in Hk as [Hc _].
    apply not_brace_tests in Hc as (_ & _ & _ & Hc).
    cbn [app starts_with eqb_str]. now rewrite Hc.
  - cbn [brace_free forallb] in Hk, Hn.
    apply andb_true_iff in Hk as [_ Hk]. apply andb_true_iff in Hn as [_ Hn].
    cbn [app starts_with eqb_str]. f_equal. now apply IH.
Qed.

Lemma starts_with_token (k n r : jsstring) :
  brace_free k = true -> brace_free n = true ->
  starts_with (token k) (token n ++ r) = eqb_str k n.
Proof.
  intros Hk Hn. unfold token. cbn [app starts_with]. rewrite N.eqb_refl.
  rewrite <- app_assoc. cbn [app andb]. now apply starts_with_closing.
Qed.

Lemma plain_keys_cons k v (m : list (jsstring * jsvalue)) :
  plain_keys ((k, v) :: m) = true -> plain_key k = true /\ plain_keys m = true.
Proof. unfold plain_keys. cbn [forallb fst]. apply andb_true_iff. Qed.

Lemma lookup_token_at_token (m : list (jsstring * jsvalue)) (n r : jsstring) :
  plain_keys m = true -> brace_free n = true ->
  lookup_token m (token n ++ r)
  = match assoc n m with Some v => Some (n, v) | None => None end.
Proof.
  intros Hm Hn. induction m as [|[k v] m IH]; [reflexivity|].
  apply plain_keys_cons in Hm as [Hk Hm].
  cbn [lookup_token assoc].
  rewrite starts_with_token by auto using plain_key_brace_free.
  destruct (eqb_str k n) eqn:E; [|now apply IH].
  apply eqb_str_eq in E. now subst.
Qed.

Lemma flatten_app (a b : list segment) : flatten (a ++ b) = flatten a ++ flatten b.
Proof. apply flat_map_app. Qed.

Lemma flatten_lits (v : jsstring) : flatten (map Lit v) = v.
Proof. induction v as [|c v IH]; [reflexivity|]. simpl. now f_equal. Qed.

Lemma token_length (n : jsstring) : length (token n) = S (length n + 1).
Proof. unfold token. simpl. now rewrite length_app. Qed.

Lemma single_pass_flatten (m : list (jsstring * jsvalue)) (gs : list segment) :
  plain_keys m = true -> forallb segment_ok gs = true ->
  single_pass m (flatten gs) 0 = flatten (flat_map (substitute_segment m) gs).
Proof.
  intros Hm. induction gs as [|g gs IH]; [reflexivity|].
  cbn [forallb]. intros H. apply andb_true_iff in H as [Hg Hgs].
  specialize (IH Hgs). cbn [flat_map]. rewrite flatten_app.
  change (flatten (g :: gs)) with (segment_text g ++ flatten gs).
  destruct g as [c|n]; cbn [segment_ok] in Hg.
  - apply not_brace_tests in Hg as (Hc & _).
    cbn [segment_text app substitute_segment flatten flat_map single_pass].
    rewrite lookup_token_other by assumption. now rewrite IH.
  - cbn [segment_text substitute_segment].
    assert (E : single_pass m (token n ++ flatten gs) 0
                = match assoc n m with
                  | Some v => to_string v ++ single_pass m (flatten gs) 0
                  | None => token n ++ single_pass m (flatten gs) 0
                  end).
    { pose proof (lookup_token_at_token m n (flatten gs) Hm Hg) as L.
      unfold token in *. cbn [app] in *. cbn [single_pass]. rewrite L.
      destruct (assoc n m) as [v|].
      - f_equal. rewrite <- app_assoc.
        replace (length n + 1) with (length (n ++ [ch "}"]))
          by (rewrite length_app; reflexivity).
        rewrite app_assoc. apply single_pass_skips.
      - f_equal. rewrite <- app_assoc. rewrite app_assoc.
        apply single_pass_passes.
        rewrite forallb_app. apply andb_true_iff. split; [|reflexivity].
        unfold brace_free in Hg. rewrite forallb_forall in *.
        intros c Hc. specialize (Hg c Hc).
        apply not_brace_tests in Hg as (Hg & _). now rewrite Hg. }
    rewrite E, IH. destruct (assoc n m) as [v|].
    + now rewrite flatten_lits.
    + cbn [flatten flat_map segment_text]. now rewrite app_nil_r.
Qed.

(** ** The loop of replacements on a body with flat braces *)

Lemma inert_values_cons k v (m : list (jsstring * jsvalue)) :
  inert_values ((k, v) :: m) = true ->
  inert_text (to_string v) = true /\ inert_values m = true.
Proof. unfold inert_values. cbn [forallb snd]. apply andb_true_iff. Qed.

Lemma substitute_segment_nil (gs : list segment) :
  flat_map (substitute_segment []) gs = gs.
Proof.
  induction gs as [|g gs IH]; [reflexivity|].
  cbn [flat_map]. rewrite IH. now destruct g.
Qed.

Lemma substitute_lits (m : list (jsstring * jsvalue)) (v : jsstring) :
  flat_map (substitute_segment m) (map Lit v) = map Lit v.
Proof. induction v as [|c v IH]; [reflexivity|]. simpl. now f_equal. Qed.

Lemma substitute_segment_cons k v (m : list (jsstring * jsvalue)) (gs : list segment) :
  flat_map (substitute_segment m) (flat_map (substitute_segment [(k, v)]) gs)
  = flat_map (substitute_segment ((k, v) :: m)) gs.
Proof.
  induction gs as [|g gs IH]; [reflexivity|].
  cbn [flat_map]. rewrite flat_map_app, IH. f_equal.
  destruct g as [c|n]; [reflexivity|].
  cbn [substitute_segment assoc]. destruct (eqb_str k n).
  - apply substitute_lits.
  - cbn [flat_map]. apply app_nil_r.
Qed.

Lemma substitute_segment_ok k v (gs : list segment) :
  brace_free (to_string v) = true ->
  forallb segment_ok gs = true ->
  forallb segment_ok (flat_map (substitute_segment [(k, v)]) gs) = true.
Proof.
  intros Hv. induction gs as [|g gs IH]; [reflexivity|].
  cbn [forallb flat_map]. intros H. apply andb_true_iff in H as [Hg Hgs].
  rewrite forallb_app. apply andb_true_iff. split; [|now apply IH].
  destruct g as [c|n]; cbn [substitute_segment assoc].
  - cbn [forallb]. now rewrite Hg.
  - destruct (eqb_str k n).
    + unfold brace_free in Hv. rewrite forallb_forall in *.
      intros g Hg'. apply in_map_iff in Hg' as (c & <- & Hc).
      now apply Hv.
    + cbn [forallb]. now rewrite Hg.
Qed.

Lemma replace_placeholders_flatten (m : list (jsstring * jsvalue)) :
  plain_keys m = true -> inert_values m = true ->
  forall gs, forallb segment_ok gs = true ->
  replace_placeholders m (flatten gs)
  = Ok (flatten (flat_map (substitute_segment m) gs)).
Proof.
  induction m as [|[k v] m IH]; intros Hk Hv gs Hgs.
  - now rewrite substitute_segment_nil.
  - pose proof Hk as Hkm. apply plain_keys_cons in Hk as [Hk Hm].
    apply inert_values_cons in Hv as [Hv Hvm].
    apply inert_text_parts in Hv as [Hb Hd].
    cbn [replace_placeholders]. rewrite placeholder_plain by assumption.
    cbn [bind]. unfold string_replace.
    rewrite (replace_scan_single_pass k (to_string v) v eq_refl Hd).
    rewrite single_pass_flatten;
      [|unfold plain_keys; cbn [forallb fst]; now rewrite Hk|assumption].
    rewrite IH; auto using substitute_segment_ok.
    now rewrite substitute_segment_cons.
Qed.

Lemma flat_braces_segments (s : jsstring) :
  (flat_braces_from false s = true ->
   exists gs, forallb segment_ok gs = true /\ s = flatten gs)
  /\ (flat_braces_from true s = true ->
      exists n gs, brace_free n = true /\ forallb segment_ok gs = true
                   /\ s = n ++ ch "}" :: flatten gs).
Proof.
  induction s as [|c s [IH1 IH2]].
  - split; [|discriminate]. intros _. now exists [].
  - cbn [flat_braces_from].
    destruct (N.eqb c (ch "{")) eqn:E1; [|destruct (N.eqb c (ch "}")) eqn:E2].
    + apply N.eqb_eq in E1. subst c. split; [|discriminate].
      cbn [negb andb]. intros H. destruct (IH2 H) as (n & gs & Hn & Hgs & ->).
      exists (Tok n :: gs). split.
      * cbn [forallb segment_ok]. now rewrite Hn.
      * cbn [flatten flat_map segment_text]. unfold token.
        cbn [app]. now rewrite <- app_assoc.
    + apply N.eqb_eq in E2. subst c. split; [discriminate|].
      cbn [andb]. intros H. destruct (IH1 H) as (gs & Hgs & ->).
      now exists [], gs.
    + split; intros H.
      * destruct (IH1 H) as (gs & Hgs & ->). exists (Lit c :: gs). split.
        -- cbn [forallb segment_ok]. unfold is_brace. now rewrite E1, E2.
        -- reflexivity.
      * destruct (IH2 H) as (n & gs & Hn & Hgs & ->). exists (c :: n), gs.
        repeat split; try assumption.
        cbn [brace_free forallb]. unfold is_brace. now rewrite E1, E2.
Qed.

(** ** Independence of the order of the entries *)

Lemma distinct_keys_NoDup (m : list (jsstring * jsvalue)) :
  distinct_keys m = true -> NoDup (map fst m).
Proof.
  induction m as [|[k v] m IH]; [constructor|].
  cbn [distinct_keys map fst]. intros H. apply andb_true_iff in H as [Hk Hm].
  constructor; [|now apply IH].
  intros Hin. apply negb_true_iff in Hk.
  apply in_map_iff in Hin as ([k' v'] & Hf & Hin). cbn in Hf. subst k'.
  assert (existsb (fun kv => eqb_str k (fst kv)) m = true); [|congruence].
  apply existsb_exists. exists (k, v'). split; [assumption|apply eqb_str_refl].
Qed.

Lemma assoc_Permutation (n : jsstring) (m m' : list (jsstring * jsvalue)) :
  Permutation m m' -> NoDup (map fst m) -> assoc n m = assoc n m'.
Proof.
  induction 1 as [|[k v] m m' HP IH|[k1 v1] [k2 v2] m|m m' m'' HP1 IH1 HP2 IH2];
    intros Hnd.
  - reflexivity.
  - cbn [assoc]. inversion Hnd; subst. now rewrite IH.
  - cbn [assoc]. destruct (eqb_str k1 n) eqn:E1, (eqb_str k2 n) eqn:E2;
      try reflexivity.
    apply eqb_str_eq in E1, E2. subst. inversion Hnd; subst.
    exfalso. apply H1. now left.
  - rewrite IH1 by assumption. apply IH2.
    eapply Permutation_NoDup; [|exact Hnd]. now apply Permutation_map.
Qed.

Lemma forallb_Permutation {A} (f : A -> bool) (l l' : list A) :
  Permutation l l' -> forallb f l = true -> forallb f l' = true.
Proof.
  intros HP. rewrite !forallb_forall. intros H x Hx. apply H.
  eapply Permutation_in; [|exact Hx]. now apply Permutation_sym.
Qed.

(** ** Tokens of other names survive a replacement *)

Section ForeignToken.

Variables (k tpl : jsstring).

Lemma replace_scan_passes (x r : jsstring) :
  forallb (fun c => negb (N.eqb (ch "{") c)) x = true ->
  forall pre_rev,
  replace_scan (placeholder_regexp k) tpl pre_rev (x ++ r) 0
  = x ++ replace_scan (placeholder_regexp k) tpl (rev x ++ pre_rev) r 0.
Proof.
  induction x as [|c x IH]; [reflexivity|].
  cbn [forallb]. intros H pre_rev. apply andb_true_iff in H as [Hc Hx].
  apply negb_true_iff in Hc.
  cbn [app replace_scan]. unfold placeholder_regexp at 1. rewrite exec_at_literal.
  unfold token. cbn [starts_with]. rewrite Hc. cbn [andb].
  f_equal. rewrite (IH Hx). cbn [rev]. now rewrite <- app_assoc.
Qed.

Lemma starts_with_before_brace (u l r : jsstring) :
  forallb (fun c => negb (N.eqb c (ch "{"))) u = true ->
  starts_with u (l ++ ch "{" :: r) = true -> length u <= length l.
Proof.
  revert l; induction u as [|c u IH]; intros l Hu H; [simpl; lia|].
  cbn [forallb] in Hu. apply andb_true_iff in Hu as [Hc Hu].
  apply negb_true_iff in Hc.
  destruct l as [|d l]; cbn [app starts_with] in H.
  - rewrite Hc in H. discriminate.
  - apply andb_true_iff in H as [_ H]. specialize (IH l Hu H). simpl. lia.
Qed.

End ForeignToken.

(** ** Keys made of plain characters never raise *)

Lemma replace_placeholders_total (m : list (jsstring * jsvalue)) :
  plain_keys m = true ->
  forall text, exists out, replace_placeholders m text = Ok out.
Proof.
  induction m as [|[k v] m IH]; intros Hm text.
  - now exists text.
  - apply plain_keys_cons in Hm as [Hk Hm].
    cbn [replace_placeholders]. rewrite placeholder_plain by assumption.
    cbn [bind]. apply (IH Hm).
Qed.

Lemma plain_keys_app (a b : list (jsstring * jsvalue)) :
  plain_keys (a ++ b) = (plain_keys a && plain_keys b)%bool.
Proof. apply forallb_app. Qed.

Lemma plain_keys_update k v (o : jsobject) :
  plain_keys o = true -> plain_keys (obj_update k v o) = true.
Proof.
  induction o as [|[k' v'] o IH]; [reflexivity|].
  intros H. apply plain_keys_cons in H as [Hk Ho].
  cbn [obj_update]. destruct (eqb_str k k'); unfold plain_keys in *;
    cbn [forallb fst]; rewrite Hk; [exact Ho|now apply IH].
Qed.

Lemma plain_keys_insert i k v (o : jsobject) :
  plain_key k = true -> plain_keys o = true ->
  plain_keys (obj_insert_index i k v o) = true.
Proof.
  intros Hk. induction o as [|[k' v'] o IH]; intros Ho.
  - unfold plain_keys. cbn [obj_insert_index forallb fst]. now rewrite Hk.
  - pose proof Ho as Ho'. apply plain_keys_cons in Ho' as [Hk' Ho1].
    cbn [obj_insert_index].
    destruct (array_index k') as [j|]; [destruct (N.ltb i j)|];
      unfold plain_keys in *; cbn [forallb fst];
      try (rewrite Hk; exact Ho).
    rewrite Hk'. now apply IH.
Qed.

Lemma plain_keys_set (o : jsobject) k v :
  plain_key k = true -> plain_keys o = true -> plain_keys (obj_set o k v) = true.
Proof.
  intros Hk Ho. unfold obj_set.
  destruct (eqb_str k (str "__proto__")); [assumption|].
  destruct (obj_has k o); [now apply plain_keys_update|].
  destruct (array_index k); [now apply plain_keys_insert|].
  rewrite plain_keys_app, Ho. unfold plain_keys. cbn [forallb fst]. now rewrite Hk.
Qed.

Lemma plain_keys_collect (value_of : Element -> jsvalue) (fields : list Element) :
  plain_field_names fields = true ->
  plain_keys (collect value_of fields) = true.
Proof.
  unfold collect. intros H.
  assert (G : forall o, plain_keys o = true ->
              plain_keys (fold_left (fun o e => obj_set o (field_name e) (value_of e))
                                    fields o) = true).
  { induction fields as [|e fields IH]; intros o Ho; [exact Ho|].
    unfold plain_field_names in H. cbn [forallb] in H.
    apply andb_true_iff in H as [He Hf].
    cbn [fold_left]. apply (IH Hf). now apply plain_keys_set. }
  now apply G.
Qed.

(** ** The preview chain compiles *)



(** ** The two ways of collecting the field values *)

Lemma collect_without_checkbox (fields : list Element) :
  no_checkbox fields = true ->
  collect preview_value fields = collect submit_value fields.
Proof.
  unfold collect. generalize (@nil (jsstring * jsvalue)).
  induction fields as [|e fields IH]; intros o H; [reflexivity|].
  unfold no_checkbox in H. cbn [forallb] in H.
  apply andb_true_iff in H as [He Hf]. apply negb_true_iff in He.
  cbn [fold_left]. unfold preview_value at 2, submit_value at 2.
  rewrite He. now apply IH.
Qed.

(** ** Patterns that cannot match *)

(** If the continuation fails wherever a property of the remaining input
    holds, and the property passes to every tail, the matcher fails. *)
Section Failure.

Variable I : jsstring -> Prop.
Hypothesis I_tail : forall c s, I (c :: s) -> I s.

Lemma repeat_matcher_fails
  (m : (mstate -> option mstate) -> mstate -> option mstate)
  (clear : mstate -> mstate) (greedy : bool) (k : mstate -> option mstate) :
  (forall k' x, (forall y, I (ms_rest y) -> k' y = None) ->
                I (ms_rest x) -> m k' x = None) ->
  (forall x, ms_rest (clear x) = ms_rest x) ->
  (forall y, I (ms_rest y) -> k y = None) ->
  forall fuel min max x, I (ms_rest x) ->
  repeat_matcher m clear greedy k fuel min max x = None.
Proof.
  intros Hm Hc Hk. induction fuel as [|fuel IH]; intros min max x Hx;
    [reflexivity|].
  cbn [repeat_matcher]. rewrite (Hk x Hx).
  assert (E : m (fun y =>
                   if ((min =? 0) && (length (ms_rest y) =? length (ms_rest x)))%bool
                   then None
                   else repeat_matcher m clear greedy k fuel (pred min) (pred_max max) y)
                (clear x) = None).
  { apply Hm; [|now rewrite Hc]. intros y Hy.
    destruct ((min =? 0) && _)%bool; [reflexivity|]. now apply IH. }
  rewrite E. destruct (is_zero_max max), (negb (min =? 0)), greedy; reflexivity.
Qed.

Lemma rmatch_fails (f : flags) (r : regex) :
  forall k x,
  (forall y, I (ms_rest y) -> k y = None) ->
  I (ms_rest x) -> rmatch f r k x = None.
Proof.
  induction r as [|c| |neg items| | |neg|idx r IH|min max greedy r IH
                  |r1 IH1 r2 IH2|r1 IH1 r2 IH2]; intros k x Hk Hx;
    cbn [rmatch];
    try (rewrite (Hk x Hx); now repeat match goal with
                                  | |- context [if ?b then _ else _] => destruct b
                                  end);
    try (destruct (ms_rest x) as [|d rest] eqn:E; [reflexivity|];
         match goal with |- (if ?b then _ else _) = _ => destruct b end;
         [|reflexivity]; apply Hk; cbn [advance ms_rest];
         try rewrite E in Hx; now apply (I_tail d)).
  - apply IH; [|exact Hx]. intros y Hy. now apply Hk.
  - apply repeat_matcher_fails; try assumption; reflexivity.
  - apply IH1; [|exact Hx]. intros y Hy. now apply IH2.
  - now rewrite IH1, IH2.
Qed.

End Failure.

Lemma lacks_tail (p : char -> bool) (c : char) (s : jsstring) :
  lacks p (c :: s) = true -> lacks p s = true.
Proof. unfold lacks. cbn [forallb]. intros H. now apply andb_true_iff in H. Qed.

Lemma must_consume_sound (f : flags) (p : char -> bool) (r : regex) :
  must_consume p r = true ->
  forall k x, lacks p (ms_rest x) = true -> rmatch f r k x = None.
Proof.
  induction r as [|c| |neg items| | |neg|idx r IH|min max greedy r IH
                  |r1 IH1 r2 IH2|r1 IH1 r2 IH2];
    cbn [must_consume]; intros H k x Hx; try discriminate.
  - cbn [rmatch]. destruct (ms_rest x) as [|d rest]; [reflexivity|].
    destruct (N.eqb c d) eqn:E; [|reflexivity]. apply N.eqb_eq in E. subst d.
    unfold lacks in Hx. cbn [forallb] in Hx. rewrite H in Hx. discriminate.
  - cbn [rmatch]. now apply IH.
  - apply andb_true_iff in H as [H Hr]. apply andb_true_iff in H as [Hmin Hmax].
    apply negb_true_iff in Hmax.
    cbn [rmatch repeat_matcher]. rewrite Hmin, Hmax.
    apply (IH Hr _ (clear_captures r x) Hx).
  - cbn [rmatch]. apply orb_true_iff in H as [H|H].
    + now apply IH1.
    + apply (rmatch_fails (fun s => lacks p s = true) (lacks_tail p));
        [|exact Hx].
      intros y Hy. now apply IH2.
  - apply andb_true_iff in H as [H1 H2]. cbn [rmatch].
    now rewrite IH1, IH2.
Qed.

Lemma first_test_sound (f : flags) (r : regex) :
  forall q, first_test r = Some q ->
  forall k x, fails_at_head q (ms_rest x) = true -> rmatch f r k x = None.
Proof.
  induction r as [|c| |neg items| | |neg|idx r IH|min max greedy r IH
                  |r1 IH1 r2 IH2|r1 IH1 r2 IH2];
    cbn [first_test]; intros q H k x Hx; try discriminate.
  - injection H as <-. cbn [rmatch]. destruct (ms_rest x) as [|d rest];
      [reflexivity|]. cbn [fails_at_head] in Hx. apply negb_true_iff in Hx.
    now rewrite Hx.
  - injection H as <-. cbn [rmatch]. destruct (ms_rest x) as [|d rest];
      [reflexivity|]. cbn [fails_at_head] in Hx. apply negb_true_iff in Hx.
    now rewrite Hx.
  - cbn [rmatch]. now apply (IH q).
  - destruct (min =? 0) eqn:Em; [discriminate|].
    destruct (is_zero_max max) eqn:Ez; [discriminate|]. cbn [orb] in H.
    cbn [rmatch repeat_matcher]. rewrite Em, Ez. cbn [negb].
    apply (IH q H _ (clear_captures r x) Hx).
  - cbn [rmatch]. now apply (IH1 q).
Qed.

(** ** Replacements that leave a text as it is *)

Lemma replace_scan_no_match (re : RegExp) (tpl : jsstring) :
  forall rest pre_rev,
  (forall a b, rest = a ++ b -> exec_at re (hd_error (rev a ++ pre_rev)) b = None) ->
  replace_scan re tpl pre_rev rest 0 = rest.
Proof.
  induction rest as [|c rest IH]; intros pre_rev H.
  - cbn [replace_scan]. pose proof (H [] [] eq_refl) as H0.
    cbn [rev app] in H0. now rewrite H0.
  - cbn [replace_scan]. pose proof (H [] (c :: rest) eq_refl) as H0.
    cbn [rev app] in H0. rewrite H0. f_equal.
    apply IH. intros a b ->. specialize (H (c :: a) b eq_refl).
    cbn [rev] in H. now rewrite <- app_assoc in H.
Qed.

Lemma lacks_app (p : char -> bool) (a b : jsstring) :
  lacks p (a ++ b) = true -> lacks p a = true /\ lacks p b = true.
Proof. unfold lacks. rewrite forallb_app. apply andb_true_iff. Qed.

Lemma lacks_weaken (p q : char -> bool) (s : jsstring) :
  (forall c, q c = true -> p c = true) -> lacks p s = true -> lacks q s = true.
Proof.
  intros H. unfold lacks. rewrite !forallb_forall. intros Hs c Hc.
  specialize (Hs c Hc). apply negb_true_iff in Hs. apply negb_true_iff.
  destruct (q c) eqn:E; [|reflexivity]. apply H in E. congruence.
Qed.

(** A pattern that must consume a character the text does not contain. *)
Lemma replace_absent (re : RegExp) (tpl : jsstring) (p : char -> bool)
  (s : jsstring) :
  must_consume p (re_body re) = true -> lacks p s = true ->
  string_replace re tpl s = s.
Proof.
  intros Hm Hs. apply replace_scan_no_match. intros a b ->.
  apply lacks_app in Hs as [_ Hb]. unfold exec_at.
  now rewrite (must_consume_sound (re_flags re) p (re_body re) Hm).
Qed.

Lemma last_of_prefix (a : jsstring) (p : char) :
  hd_error (rev a ++ []) = Some p -> In p a.
Proof.
  rewrite app_nil_r. intros H. apply in_rev.
  destruct (rev a) as [|d l]; [discriminate|]. injection H as ->. now left.
Qed.

(** A pattern anchored at the start of a line, on a text of one line whose
    first character it rejects. *)
Lemma replace_line_start (re : RegExp) (tpl : jsstring) (r' : regex)
  (q : char -> bool) (s : jsstring) :
  re_body re = RSeq RBol r' -> first_test r' = Some q ->
  lacks is_line_terminator s = true -> fails_at_head q s = true ->
  string_replace re tpl s = s.
Proof.
  intros Hb Hq Hl Hh. apply replace_scan_no_match. intros a b ->.
  unfold exec_at. rewrite Hb. cbn [rmatch]. unfold at_line_start.
  cbn [ms_prev]. destruct (hd_error (rev a ++ [])) as [p|] eqn:E.
  - apply last_of_prefix in E. apply lacks_app in Hl as [Ha _].
    unfold lacks in Ha. rewrite forallb_forall in Ha. specialize (Ha p E).
    apply negb_true_iff in Ha. rewrite Ha, andb_false_r. reflexivity.
  - rewrite app_nil_r in E. destruct a as [|c a].
    + cbn [app] in *.
      now rewrite (first_test_sound (re_flags re) r' q Hq).
    + exfalso. cbn [rev] in E. destruct (rev a); discriminate.
Qed.

Lemma count_char_app (c : char) (a b : jsstring) :
  count_char c (a ++ b) = count_char c a + count_char c b.
Proof. unfold count_char. now rewrite filter_app, length_app. Qed.

Lemma count_char_zero (c : char) (s : jsstring) :
  count_char c s = 0 -> lacks (N.eqb c) s = true.
Proof.
  unfold count_char, lacks. induction s as [|d s IH]; [reflexivity|].
  cbn [filter forallb]. destruct (N.eqb c d); cbn [length negb andb];
    [discriminate|exact IH].
Qed.

(** A pattern that needs the character [c] twice, on a text that has it at
    most once. *)
Lemma replace_twice (re : RegExp) (tpl : jsstring) (c : char) (r' : regex)
  (s : jsstring) :
  re_body re = RSeq (RChar c) r' -> must_consume (N.eqb c) r' = true ->
  count_char c s <= 1 -> string_replace re tpl s = s.
Proof.
  intros Hb Hm Hc. apply replace_scan_no_match. intros a b ->.
  unfold exec_at. rewrite Hb. cbn [rmatch ms_rest].
  destruct b as [|d b]; [reflexivity|].
  destruct (N.eqb c d) eqn:E; [|reflexivity].
  rewrite count_char_app in Hc. unfold count_char at 2 in Hc.
  cbn [filter] in Hc. rewrite E in Hc. cbn [length] in Hc.
  assert (Hz : count_char c b = 0) by (unfold count_char; lia).
  rewrite (must_consume_sound (re_flags re) (N.eqb c) r' Hm);
    [reflexivity|]. cbn [advance ms_rest]. now apply count_char_zero.
Qed.

Lemma apply_rule_identity (r : rule) (re : RegExp) (s : jsstring) :
  RegExp_new (rule_pattern r) (rule_flags r) = Ok re ->
  string_replace re (rule_replacement r) s = s ->
  apply_rule r s = Ok s.
Proof. intros H E. unfold apply_rule. rewrite H. cbn [bind]. now rewrite E. Qed.

Lemma apply_rules_identity (rs : list rule) (s : jsstring) :
  Forall (fun r => apply_rule r s = Ok s) rs -> apply_rules rs s = Ok s.
Proof.
  induction 1 as [|r rs Hr _ IH]; [reflexivity|].
  cbn [apply_rules]. rewrite Hr. exact IH.
Qed.

Lemma leading_spaces (s : jsstring) :
  existsb (fun c => negb (is_space c)) s = true ->
  exists ws c s', s = ws ++ c :: s' /\ forallb is_space ws = true
                  /\ is_space c = false.
Proof.
  induction s as [|d s IH]; [discriminate|].
  cbn [existsb]. destruct (is_space d) eqn:E; cbn [negb orb].
  - intros H. destruct (IH H) as (ws & c & s' & -> & Hws & Hc).
    exists (d :: ws), c, s'. cbn [forallb]. now rewrite E, Hws.
  - intros _. now exists [], d, s.
Qed.

Lemma exec_at_first_test (re : RegExp) (q : char -> bool) (prev : option char)
  (b : jsstring) :
  first_test (re_body re) = Some q -> fails_at_head q b = true ->
  exec_at re prev b = None.
Proof.
  intros Hq Hb. unfold exec_at.
  now rewrite (first_test_sound (re_flags re) (re_body re) q Hq).
Qed.

(** ** Rules that find nothing to do *)

Lemma fails_at_head_weaken (p q : char -> bool) (s : jsstring) :
  (forall c, q c = true -> p c = true) ->
  fails_at_head p s = true -> fails_at_head q s = true.
Proof.
  intros H. destruct s as [|c s]; [reflexivity|]. cbn [fails_at_head].
  intros Hp. apply negb_true_iff in Hp. apply negb_true_iff.
  destruct (q c) eqn:E; [|reflexivity]. apply H in E. congruence.
Qed.

Ltac rule_compiled :=
  eapply apply_rule_identity; [vm_compute; reflexivity|].

Ltac absent_rule H :=
  rule_compiled; eapply replace_absent; [|exact H]; vm_compute; reflexivity.

Ltac line_start_rule Hl Hh :=
  rule_compiled;
  eapply replace_line_start; [reflexivity|reflexivity|exact Hl|];
  refine (fails_at_head_weaken _ _ _ _ Hh);
  let c := fresh "c" in let E := fresh "E" in
  intros c E;
  first [ apply N.eqb_eq in E; subst c; reflexivity
        | unfold class_matches in E; cbn [existsb class_item_matches xorb] in E;
          rewrite orb_false_r in E; rewrite E; now rewrite !orb_true_r ].

Ltac twice_rule H :=
  rule_compiled; eapply replace_twice;
  [reflexivity|vm_compute; reflexivity|exact H].

(** ** The list-wrapping rule *)

Lemma rmatch_prefix (f : flags) (w : jsstring) (r : regex)
  (k : mstate -> option mstate) :
  forall x,
  rmatch f (fold_right (fun c acc => RSeq (RChar c) acc) r w) k x
  = if starts_with w (ms_rest x)
    then rmatch f r k (mkState (fold_left (fun _ c => Some c) w (ms_prev x))
                               (skipn (length w) (ms_rest x)) (ms_caps x))
    else None.
Proof.
  induction w as [|c w IH]; intros [prev rest caps].
  - reflexivity.
  - cbn [fold_right rmatch ms_rest starts_with]. destruct rest as [|d rest];
      [reflexivity|].
    destruct (N.eqb c d) eqn:E; [|reflexivity].
    apply N.eqb_eq in E. subst d. cbn [andb]. unfold advance. rewrite IH.
    reflexivity.
Qed.

Lemma includes_tail (w : jsstring) (c : char) (s : jsstring) :
  includes w (c :: s) = false -> includes w s = false.
Proof. cbn [includes]. intros H. now apply orb_false_iff in H. Qed.

Lemma includes_head (w s : jsstring) :
  includes w s = false -> starts_with w s = false.
Proof. destruct s; cbn [includes]; intros H; now apply orb_false_iff in H. Qed.

Lemma includes_suffix (w a b : jsstring) :
  includes w (a ++ b) = false -> includes w b = false.
Proof.
  induction a as [|c a IH]; [auto|]. intros H. apply IH.
  now apply includes_tail in H.
Qed.

Lemma starts_with_enough (w u r : jsstring) :
  length w <= length u -> starts_with w (u ++ r) = starts_with w u.
Proof.
  revert u; induction w as [|c w IH]; intros u H; [reflexivity|].
  destruct u as [|d u]; [simpl in H; lia|].
  cbn [app starts_with]. f_equal. apply IH. simpl in H. lia.
Qed.

(** The greedy [.*] of the rule (under the s flag), followed by a
    continuation that succeeds at [c0 :: tail] and at no later position:
    the match runs to the last place where the continuation succeeds. *)
Lemma star_reaches_last
  (m : (mstate -> option mstate) -> mstate -> option mstate)
  (clear : mstate -> mstate)
  (k : mstate -> option mstate) (c0 : char) (tail : jsstring) (z : mstate) :
  (forall k' x, m k' x = match ms_rest x with
                         | d :: r => k' (advance d r x)
                         | [] => None
                         end) ->
  (forall x, clear x = x) ->
  forall caps,
  (forall prev, k (mkState prev (c0 :: tail) caps) = Some z) ->
  (forall y, includes (str "</li>") (ms_rest y) = false -> k y = None) ->
  includes (str "</li>") tail = false ->
  forall x fuel prev, length (x ++ c0 :: tail) < fuel ->
  repeat_matcher m clear true k fuel 0 None (mkState prev (x ++ c0 :: tail) caps)
  = Some z.
Proof.
  intros Hm Hclear caps Hz Hk Htail.
  induction x as [|c x IH]; intros fuel prev Hf;
    (destruct fuel as [|fuel]; [simpl in Hf; lia|]).
  - cbn [app repeat_matcher is_zero_max Nat.eqb negb andb].
    rewrite Hclear, Hm. cbn [ms_rest]. unfold advance.
    cbn [length Nat.eqb ms_caps ms_prev ms_rest].
    replace (length tail =? S (length tail)) with false
      by (symmetry; apply Nat.eqb_neq; lia).
    rewrite (repeat_matcher_fails (fun s => includes (str "</li>") s = false));
      try assumption; try reflexivity.
    + apply Hz.
    + intros k' x' Hk' Hx'. rewrite Hm.
      destruct (ms_rest x') as [|d r]; [reflexivity|].
      apply Hk'. cbn [advance ms_rest]. now apply includes_tail in Hx'.
    + intros x'. now rewrite Hclear.
  - cbn [app repeat_matcher is_zero_max Nat.eqb negb andb].
    rewrite Hclear, Hm. cbn [ms_rest]. unfold advance.
    cbn [length Nat.eqb ms_caps ms_prev ms_rest].
    replace (length (x ++ c0 :: tail) =? S (length (x ++ c0 :: tail)))
      with false by (symmetry; apply Nat.eqb_neq; lia).
    change (pred 0) with 0. cbn [pred_max].
    rewrite IH; [reflexivity|simpl in Hf; lia].
Qed.


Lemma starts_with_app (p s : jsstring) : starts_with p (p ++ s) = true.
Proof. induction p as [|x p IH]; simpl; [reflexivity|]. now rewrite N.eqb_refl. Qed.

Lemma wrap_list_rule_compiles :
  RegExp_new (rule_pattern wrap_list_rule) (rule_flags wrap_list_rule)
  = Ok wrap_list_regexp.
Proof. vm_compute. reflexivity. Qed.

Lemma firstn_consumed (a b : jsstring) :
  firstn (length (a ++ b) - length b) (a ++ b) = a.
Proof.
  rewrite length_app. replace (length a + length b - length b) with (length a) by lia.
  rewrite firstn_app, Nat.sub_diag, firstn_all. cbn [firstn]. apply app_nil_r.
Qed.

(** At an item that is followed by no further [</li>], the rule matches up
    to the end of that item. *)
Lemma wrap_list_match (prev : option char) (x post : jsstring) :
  includes (str "</li>") (str "/li>" ++ post) = false ->
  exec_at wrap_list_regexp prev (str "<li>" ++ x ++ str "</li>" ++ post)
  = Some (post, [Some (str "<li>" ++ x ++ str "</li>")]).
Proof.
  intros Hpost. unfold exec_at, wrap_list_regexp.
  cbn [re_body re_flags re_ngroups repeat rmatch].
  rewrite rmatch_prefix. cbn [ms_rest ms_prev ms_caps].
  rewrite starts_with_app.
  change (skipn (length (str "<li>")) (str "<li>" ++ x ++ str "</li>" ++ post))
    with (x ++ ch "<" :: str "/li>" ++ post).
  cbn [rmatch ms_rest].
  erewrite (star_reaches_last _ _ _ (ch "<") (str "/li>" ++ post)
              (mkState (Some (ch ">")) post
                       [Some (str "<li>" ++ x ++ str "</li>")]));
    try assumption.
  - reflexivity.
  - reflexivity.
  - now intros [p r c].
  - intros prev'. rewrite rmatch_literal. cbn [ms_rest].
    change (starts_with (str "</li>") (ch "<" :: str "/li>" ++ post)) with true.
    cbv iota. cbn [rmatch ms_prev ms_rest ms_caps]. unfold consumed.
    cbn [ms_rest].
    change (skipn (length (str "</li>")) (ch "<" :: str "/li>" ++ post)) with post.
    change (fold_left (fun _ c => Some c) (str "</li>") prev') with (Some (ch ">")).
    replace (str "<li>" ++ x ++ str "</li>" ++ post)
      with ((str "<li>" ++ x ++ str "</li>") ++ post)
      by (now rewrite <- !app_assoc).
    rewrite firstn_consumed. reflexivity.
  - intros y Hy. rewrite rmatch_literal.
    now rewrite (includes_head _ _ Hy).
  - cbn [plus]. lia.
Qed.

Lemma wrap_list_needs_opening (prev : option char) (b : jsstring) :
  starts_with (str "<li>") b = false -> exec_at wrap_list_regexp prev b = None.
Proof.
  intros H. unfold exec_at, wrap_list_regexp.
  cbn [re_body re_flags re_ngroups repeat rmatch].
  rewrite rmatch_prefix. cbn [ms_rest]. now rewrite H.
Qed.

Lemma wrap_list_needs_closing (prev : option char) (b : jsstring) :
  includes (str "</li>") b = false -> exec_at wrap_list_regexp prev b = None.
Proof.
  intros H. unfold exec_at, wrap_list_regexp.
  cbn [re_body re_flags re_ngroups repeat rmatch].
  rewrite rmatch_prefix. cbn [ms_rest].
  destruct (starts_with (str "<li>") b); [|reflexivity].
  change (rmatch ?f (RSeq ?a ?b) ?k ?x)
    with (rmatch f a (fun y => rmatch f b k y) x).
  rewrite (rmatch_fails (fun s => includes (str "</li>") s = false)
             (includes_tail (str "</li>"))); [reflexivity| |].
  - intros y Hy. rewrite rmatch_literal. now rewrite (includes_head _ _ Hy).
  - cbn [ms_rest]. apply (includes_suffix _ (firstn (length (str "<li>")) b)).
    now rewrite firstn_skipn.
Qed.

Lemma replace_scan_passes_over (re : RegExp) (tpl x r : jsstring) :
  forall pre_rev,
  (forall a b, x = a ++ b -> b <> [] ->
               exec_at re (hd_error (rev a ++ pre_rev)) (b ++ r) = None) ->
  replace_scan re tpl pre_rev (x ++ r) 0
  = x ++ replace_scan re tpl (rev x ++ pre_rev) r 0.
Proof.
  induction x as [|c x IH]; intros pre_rev H; [reflexivity|].
  cbn [app replace_scan].
  pose proof (H [] (c :: x) eq_refl ltac:(discriminate)) as H0.
  cbn [rev app] in H0. rewrite H0. f_equal.
  rewrite IH.
  - cbn [rev]. now rewrite <- app_assoc.
  - intros a b -> Hb. specialize (H (c :: a) b eq_refl Hb).
    cbn [rev] in H. now rewrite <- app_assoc in H.
Qed.

Lemma replace_scan_skips (re : RegExp) (tpl x r : jsstring) :
  forall pre_rev,
  replace_scan re tpl pre_rev (x ++ r) (length x)
  = replace_scan re tpl (rev x ++ pre_rev) r 0.
Proof.
  induction x as [|c x IH]; intros pre_rev; [reflexivity|].
  cbn [app length replace_scan]. rewrite IH. cbn [rev].
  now rewrite <- app_assoc.
Qed.

Lemma wrap_list_replacement (mid matched pre post : jsstring) :
  get_substitution [Some mid] matched pre post (str "<ul>$1</ul>")
  = str "<ul>" ++ mid ++ str "</ul>".
Proof. reflexivity. Qed.

Lemma replace_scan_match (re : RegExp) (tpl pre_rev rest after : jsstring)
  (caps : list (option jsstring)) (c : char) (rest' : jsstring) :
  rest = c :: rest' -> f_global (re_flags re) = true ->
  exec_at re (hd_error pre_rev) rest = Some (after, caps) ->
  replace_scan re tpl pre_rev rest 0
  = get_substitution caps (firstn (length rest - length after) rest)
                     (rev pre_rev) after tpl
    ++ match length rest - length after with
       | 0 => c :: replace_scan re tpl (c :: pre_rev) rest' 0
       | S n => replace_scan re tpl (c :: pre_rev) rest' n
       end.
Proof.
  intros E Hg H. rewrite E in *. cbn [replace_scan]. now rewrite H, Hg.
Qed.

(** The list-wrapping rule puts everything from the first [<li>] to the
    last [</li>] of a text into one [<ul>] element. *)
Lemma wrap_list_rule_wraps (pre x post : jsstring) :
  includes (str "<li>") (pre ++ str "<li") = false ->
  includes (str "</li>") (str "/li>" ++ post) = false ->
  apply_rule wrap_list_rule (pre ++ str "<li>" ++ x ++ str "</li>" ++ post)
  = Ok (pre ++ str "<ul>" ++ (str "<li>" ++ x ++ str "</li>") ++ str "</ul>" ++ post).
Proof.
  intros Hpre Hpost. unfold apply_rule. rewrite wrap_list_rule_compiles.
  cbn [bind rule_replacement wrap_list_rule]. f_equal. unfold string_replace.
  rewrite replace_scan_passes_over.
  2:{ intros a b -> Hb. apply wrap_list_needs_opening.
      change (str "<li>" ++ x ++ str "</li>" ++ post)
        with (str "<li" ++ str ">" ++ x ++ str "</li>" ++ post).
      rewrite app_assoc, starts_with_enough.
      - apply includes_head. rewrite <- app_assoc in Hpre.
        now apply includes_suffix in Hpre.
      - rewrite length_app. destruct b; [congruence|]. cbn [length str]. simpl. lia. }
  f_equal.
  assert (E : str "<li>" ++ x ++ str "</li>" ++ post
              = ch "<" :: (str "li>" ++ x ++ str "</li>") ++ post)
    by (now rewrite <- !app_assoc).
  assert (L : length (str "<li>" ++ x ++ str "</li>" ++ post) - length post
              = S (length (str "li>" ++ x ++ str "</li>"))).
  { rewrite E. cbn [length]. rewrite length_app. lia. }
  rewrite (replace_scan_match wrap_list_regexp _ _ _ _ _ _ _ E eq_refl
             (wrap_list_match _ x post Hpost)).
  rewrite L, replace_scan_skips, replace_scan_no_match.
  2:{ intros a b ->. apply wrap_list_needs_closing.
      apply (includes_suffix _ (str "/li>" ++ a)). now rewrite <- app_assoc. }
  rewrite wrap_list_replacement. now rewrite <- !app_assoc.
Qed.

(** ** Replacement texts that do not copy their surroundings *)

Lemma copies_context_tail (c : char) (t : jsstring) :
  copies_context (c :: t) = false -> copies_context t = false.
Proof. cbn [copies_context]. intros H. now apply orb_false_iff in H. Qed.

Lemma get_substitution_local caps matched (tpl : jsstring) :
  copies_context tpl = false ->
  forall pre post pre' post',
  get_substitution caps matched pre post tpl
  = get_substitution caps matched pre' post' tpl.
Proof.
  assert (G : forall n tpl, length tpl <= n -> copies_context tpl = false ->
              forall pre post pre' post',
              get_substitution caps matched pre post tpl
              = get_substitution caps matched pre' post' tpl).
  { clear tpl. induction n as [|n IH]; intros [|c t] Hn Hc pre post pre' post';
      try reflexivity; [cbn [length] in Hn; lia|].
    cbn [length] in Hn. pose proof (copies_context_tail _ _ Hc) as Ht.
    cbn [get_substitution]. destruct (N.eqb c (ch "$")) eqn:Ec.
    2:{ f_equal. apply IH; [lia | exact Ht]. }
    destruct t as [|d t']; [reflexivity|]. cbv iota.
    pose proof (copies_context_tail _ _ Ht) as Ht'.
    cbn [copies_context] in Hc. rewrite Ec in Hc. cbn [andb] in Hc.
    apply orb_false_iff in Hc as [Hd _]. apply orb_false_iff in Hd as [Hd1 Hd2].
    cbn [length] in Hn.
    destruct (N.eqb d (ch "$")); [f_equal; apply IH; [lia | exact Ht']|].
    rewrite Hd1.
    destruct (N.eqb d (ch "&")); [f_equal; apply IH; [lia | exact Ht']|].
    rewrite Hd2.
    destruct (is_digit d).
    - assert (E1 : get_substitution caps matched pre post t'
                   = get_substitution caps matched pre' post' t')
        by (apply IH; [lia | exact Ht']).
      destruct t' as [|e t'']; [now rewrite E1|].
      assert (E2 : get_substitution caps matched pre post t''
                   = get_substitution caps matched pre' post' t'').
      { apply IH; [cbn [length] in Hn; lia|].
        now apply copies_context_tail in Ht'. }
      now rewrite E1, E2.
    - f_equal. apply IH; [cbn [length]; lia | exact Ht]. }
  intros H. now apply (G (length tpl)).
Qed.

Lemma exec_at_placeholder (k : jsstring) (prev : option char) (rest : jsstring) :
  exec_at (placeholder_regexp k) prev rest
  = if starts_with (token k) rest
    then Some (skipn (length (token k)) rest, []) else None.
Proof. unfold placeholder_regexp. apply exec_at_literal. Qed.

Section LocalReplacement.

Variables (k tpl : jsstring).
Hypothesis tpl_local : copies_context tpl = false.
Hypothesis k_brace_free : brace_free k = true.

Lemma replace_scan_local (s : jsstring) :
  forall pre_rev pre_rev' skip,
  replace_scan (placeholder_regexp k) tpl pre_rev s skip
  = replace_scan (placeholder_regexp k) tpl pre_rev' s skip.
Proof.
  induction s as [|c s IH]; intros pre_rev pre_rev' skip.
  - destruct skip; [|reflexivity]. cbn [replace_scan].
    now rewrite !exec_at_placeholder.
  - destruct skip as [|skip]; [|cbn [replace_scan]; apply IH].
    cbn [replace_scan]. rewrite !exec_at_placeholder.
    destruct (starts_with (token k) (c :: s)); [|f_equal; apply IH].
    cbn [re_flags placeholder_regexp f_global].
    rewrite (get_substitution_local _ _ _ tpl_local (rev pre_rev) _
               (rev pre_rev') (skipn (length (token k)) (c :: s))).
    f_equal.
    destruct (length (c :: s) - length (skipn (length (token k)) (c :: s)));
      [f_equal|]; apply IH.
Qed.

Lemma starts_with_extend (w u r : jsstring) :
  starts_with w u = true -> starts_with w (u ++ r) = true.
Proof.
  revert u; induction w as [|c w IH]; intros [|d u]; cbn [app starts_with];
    try discriminate; try reflexivity.
  intros H. apply andb_true_iff in H as [H1 H2]. rewrite H1. now apply IH.
Qed.

(** The scan of a text cut where no occurrence of the token goes across. *)
Lemma replace_scan_cut (z : jsstring) :
  forall l pre_rev skip, skip <= length l ->
  (forall a b, l = a ++ b -> b <> [] ->
               starts_with (token k) (b ++ z) = true ->
               length (token k) <= length b) ->
  replace_scan (placeholder_regexp k) tpl pre_rev (l ++ z) skip
  = replace_scan (placeholder_regexp k) tpl pre_rev l skip
    ++ replace_scan (placeholder_regexp k) tpl [] z 0.
Proof.
  induction l as [|c l IH]; intros pre_rev skip Hs Hcut.
  - destruct skip; [|cbn [length] in Hs; lia]. cbn [app].
    assert (E : starts_with (token k) [] = false) by reflexivity.
    cbn [replace_scan]. rewrite exec_at_placeholder, E. cbn [app].
    apply replace_scan_local.
  - assert (Hcut' : forall a b, l = a ++ b -> b <> [] ->
                      starts_with (token k) (b ++ z) = true ->
                      length (token k) <= length b).
    { intros a b -> Hb H. now apply (Hcut (c :: a) b). }
    destruct skip as [|skip].
    + cbn [app replace_scan]. rewrite !exec_at_placeholder.
      destruct (starts_with (token k) (c :: l ++ z)) eqn:E.
      * pose proof (Hcut [] (c :: l) eq_refl ltac:(discriminate) E) as Hl.
        assert (E' : starts_with (token k) (c :: l) = true).
        { change (c :: l ++ z) with ((c :: l) ++ z) in E.
          now rewrite starts_with_enough in E. }
        rewrite E'. cbn [re_flags placeholder_regexp f_global].
        rewrite !length_skipn.
        replace (length (c :: l ++ z) - (length (c :: l ++ z) - length (token k)))
          with (S (length k + 1))
          by (rewrite token_length in *; cbn [length] in *;
              rewrite ?length_app; lia).
        replace (length (c :: l) - (length (c :: l) - length (token k)))
          with (S (length k + 1))
          by (rewrite token_length in *; cbn [length] in *; lia).
        rewrite <- app_assoc. f_equal.
        { rewrite (get_substitution_local _ _ _ tpl_local (rev pre_rev) _
                     (rev pre_rev) (skipn (length (token k)) (c :: l))).
          f_equal. change (c :: l ++ z) with ((c :: l) ++ z).
          rewrite firstn_app.
          replace (S (length k + 1) - length (c :: l)) with 0
            by (rewrite token_length in Hl; lia).
          cbn [firstn]. now rewrite app_nil_r. }
        apply IH; [|exact Hcut'].
        rewrite token_length in Hl. cbn [length] in Hl. lia.
      * assert (E' : starts_with (token k) (c :: l) = false).
        { destruct (starts_with (token k) (c :: l)) eqn:E'; [|reflexivity].
          apply (starts_with_extend _ _ z) in E'. cbn [app] in E'. congruence. }
        rewrite E'. cbn [app]. f_equal. apply IH; [lia | exact Hcut'].
    + cbn [app replace_scan]. cbn [length] in Hs. apply IH; [lia | exact Hcut'].
Qed.

Lemma no_match_across_opening (l z : jsstring) :
  forall a b, l = a ++ b -> b <> [] ->
  starts_with (token k) (b ++ ch "{" :: z) = true -> length (token k) <= length b.
Proof.
  intros a b _ Hb H. unfold token in *. destruct b as [|d b]; [congruence|].
  - cbn [app starts_with] in H. apply andb_true_iff in H as [_ H].
    apply starts_with_before_brace in H.
    + cbn [length]. lia.
    + rewrite forallb_app. apply andb_true_iff. split; [|reflexivity].
      unfold brace_free in k_brace_free. rewrite forallb_forall in *.
      intros x Hx. specialize (k_brace_free x Hx).
      apply not_brace_tests in k_brace_free as (_ & _ & Hk & _).
      now rewrite Hk.
Qed.

Lemma starts_with_closing_inside (x : char) (z : jsstring) :
  lacks (N.eqb x) z = true ->
  forall u b, starts_with (u ++ [x]) (b ++ z) = true -> length u < length b.
Proof.
  intros Hz. induction u as [|c u IH]; intros b H.
  - destruct b as [|d b]; [|cbn [length]; lia]. exfalso.
    cbn [app] in H. destruct z as [|e z]; [discriminate|].
    cbn [starts_with] in H. rewrite andb_true_r in H.
    unfold lacks in Hz. cbn [forallb] in Hz. now rewrite H in Hz.
  - destruct b as [|d b].
    + exfalso. cbn [app] in H. destruct z as [|e z]; [discriminate|].
      cbn [starts_with] in H. apply andb_true_iff in H as [_ H].
      apply lacks_tail in Hz.
      assert (G : forall u, starts_with (u ++ [x]) z = true -> False).
      { clear -Hz. induction z as [|e z IHz]; intros u H.
        - destruct u; discriminate.
        - destruct u as [|c u]; cbn [app starts_with] in H.
          + rewrite andb_true_r in H. unfold lacks in Hz. cbn [forallb] in Hz.
            now rewrite H in Hz.
          + apply andb_true_iff in H as [_ H].
            apply (IHz (lacks_tail _ _ _ Hz) u H). }
      exact (G u H).
    + cbn [app starts_with] in H. apply andb_true_iff in H as [_ H].
      apply IH in H. cbn [length]. lia.
Qed.

Lemma no_match_into_text (l z : jsstring) :
  brace_free z = true ->
  forall a b, l = a ++ b -> b <> [] ->
  starts_with (token k) (b ++ z) = true -> length (token k) <= length b.
Proof.
  intros Hz a b _ _ H. unfold token in *.
  change (ch "{" :: k ++ [ch "}"]) with ((ch "{" :: k) ++ [ch "}"]) in *.
  apply starts_with_closing_inside in H.
  - rewrite length_app. cbn [length] in *. lia.
  - unfold lacks, brace_free in *. rewrite forallb_forall in *.
    intros x Hx. specialize (Hz x Hx).
    apply not_brace_tests in Hz as (_ & Hz & _). now rewrite Hz.
Qed.

Lemma brace_free_no_opening (x : jsstring) :
  brace_free x = true -> forallb (fun c => negb (N.eqb (ch "{") c)) x = true.
Proof.
  unfold brace_free. rewrite !forallb_forall. intros H c Hc.
  specialize (H c Hc). apply not_brace_tests in H as (H & _). now rewrite H.
Qed.

Lemma replace_scan_end (pre_rev : jsstring) :
  replace_scan (placeholder_regexp k) tpl pre_rev [] 0 = [].
Proof.
  cbn [replace_scan]. now rewrite exec_at_placeholder.
Qed.

(** Text without braces around a body is passed as it is. *)
Lemma replace_scan_padding (x r y : jsstring) :
  brace_free x = true -> brace_free y = true ->
  replace_scan (placeholder_regexp k) tpl [] (x ++ r ++ y) 0
  = x ++ replace_scan (placeholder_regexp k) tpl [] r 0 ++ y.
Proof.
  intros Hx Hy.
  rewrite replace_scan_passes by now apply brace_free_no_opening.
  f_equal. rewrite (replace_scan_cut y r _ 0 (Nat.le_0_l _)).
  2:{ intros a b E Hb. now apply (no_match_into_text r y Hy a b E). }
  rewrite (replace_scan_local r _ []). f_equal.
  rewrite <- (app_nil_r y) at 1.
  rewrite replace_scan_passes by now apply brace_free_no_opening.
  now rewrite replace_scan_end, app_nil_r.
Qed.

(** A token of another name is passed as it is, and the texts before and
    after it are scanned each on its own. *)
Lemma replace_scan_barrier (name l r : jsstring) :
  brace_free name = true -> eqb_str k name = false ->
  replace_scan (placeholder_regexp k) tpl [] (l ++ token name ++ r) 0
  = replace_scan (placeholder_regexp k) tpl [] l 0 ++ token name
    ++ replace_scan (placeholder_regexp k) tpl [] r 0.
Proof.
  intros Hn Hkn.
  rewrite (replace_scan_cut (token name ++ r) l [] 0 (Nat.le_0_l _)).
  2:{ intros a b E Hb. unfold token at 2. cbn [app].
      now apply (no_match_across_opening l _ a b E). }
  f_equal. unfold token at 1. cbn [app replace_scan].
  rewrite exec_at_placeholder.
  change (ch "{" :: (name ++ [ch "}"]) ++ r) with (token name ++ r).
  rewrite starts_with_token, Hkn by assumption.
  unfold token. cbn [app]. f_equal.
  rewrite replace_scan_passes.
  - f_equal. apply replace_scan_local.
  - rewrite forallb_app. apply andb_true_iff. split; [|reflexivity].
    now apply brace_free_no_opening.
Qed.

End LocalReplacement.

Lemma local_values_cons k v (m : list (jsstring * jsvalue)) :
  local_values ((k, v) :: m) = true ->
  copies_context (to_string v) = false /\ local_values m = true.
Proof.
  unfold local_values. cbn [forallb snd]. intros H.
  apply andb_true_iff in H as [H1 H2]. now apply negb_true_iff in H1.
Qed.

Lemma replace_placeholders_barrier (m : list (jsstring * jsvalue))
  (name : jsstring) :
  plain_keys m = true -> local_values m = true ->
  brace_free name = true -> assoc name m = None ->
  forall l r, exists l' r',
    replace_placeholders m l = Ok l' /\ replace_placeholders m r = Ok r'
    /\ replace_placeholders m (l ++ token name ++ r) = Ok (l' ++ token name ++ r').
Proof.
  intros Hm Hv Hn. induction m as [|[k v] m IH]; intros Ha l r.
  - now exists l, r.
  - apply plain_keys_cons in Hm as [Hk Hm].
    apply local_values_cons in Hv as [Hv Hvm].
    cbn [assoc] in Ha. destruct (eqb_str k name) eqn:E; [discriminate|].
    cbn [replace_placeholders]. rewrite placeholder_plain by assumption.
    cbn [bind]. unfold string_replace.
    rewrite (replace_scan_barrier k (to_string v) Hv
               (plain_key_brace_free k Hk) name l r Hn E).
    apply (IH Hm Hvm Ha).
Qed.

Lemma replace_placeholders_padding (m : list (jsstring * jsvalue)) :
  plain_keys m = true -> local_values m = true ->
  forall x y, brace_free x = true -> brace_free y = true ->
  forall r, exists r',
    replace_placeholders m r = Ok r'
    /\ replace_placeholders m (x ++ r ++ y) = Ok (x ++ r' ++ y).
Proof.
  intros Hm Hv x y Hx Hy. induction m as [|[k v] m IH]; intros r.
  - now exists r.
  - apply plain_keys_cons in Hm as [Hk Hm].
    apply local_values_cons in Hv as [Hv Hvm].
    cbn [replace_placeholders]. rewrite placeholder_plain by assumption.
    cbn [bind]. unfold string_replace.
    rewrite (replace_scan_padding k (to_string v) Hv
               (plain_key_brace_free k Hk) x r y Hx Hy).
    apply (IH Hm Hvm).
Qed.

(** ** Tokens of other names, whatever the values *)

Section TokensInOrder.

Variables (k tpl : jsstring).
Hypothesis k_brace_free : brace_free k = true.

Lemma replace_scan_reaches_token (name r : jsstring) :
  brace_free name = true -> eqb_str k name = false ->
  forall l pre_rev skip, skip <= length l ->
  exists l' pre_rev',
    replace_scan (placeholder_regexp k) tpl pre_rev (l ++ token name ++ r) skip
    = l' ++ token name ++ replace_scan (placeholder_regexp k) tpl pre_rev' r 0.
Proof.
  intros Hn Hkn. induction l as [|c l IH]; intros pre_rev skip Hs.
  - destruct skip; [|simpl in Hs; lia].
    exists [], (rev (name ++ [ch "}"]) ++ ch "{" :: pre_rev).
    cbn [app]. unfold token at 1. cbn [app replace_scan].
    rewrite exec_at_placeholder.
    change (ch "{" :: (name ++ [ch "}"]) ++ r) with (token name ++ r).
    rewrite starts_with_token, Hkn by assumption.
    unfold token. cbn [app]. f_equal.
    apply replace_scan_passes.
    rewrite forallb_app. apply andb_true_iff. split; [|reflexivity].
    now apply brace_free_no_opening.
  - destruct skip as [|skip].
    + cbn [app replace_scan]. rewrite exec_at_placeholder.
      destruct (starts_with (token k) (c :: l ++ token name ++ r)) eqn:E.
      * cbn [re_flags placeholder_regexp f_global].
        pose proof (starts_with_length _ _ E) as Hl.
        rewrite length_skipn.
        replace (length (c :: l ++ token name ++ r)
                 - (length (c :: l ++ token name ++ r) - length (token k)))
          with (S (length k + 1)) by (rewrite token_length in *; lia).
        assert (Hb : length k + 1 <= length l).
        { pose proof (no_match_across_opening k k_brace_free (c :: l)
                        (name ++ [ch "}"] ++ r) [] (c :: l) eq_refl
                        ltac:(discriminate)) as Hc.
          unfold token at 2 in E. cbn [app] in E, Hc.
          rewrite <- app_assoc in E. specialize (Hc E).
          rewrite token_length in Hc. cbn [length] in Hc. lia. }
        destruct (IH (c :: pre_rev) (length k + 1) Hb) as (l' & p' & ->).
        eexists (_ ++ l'), p'. now rewrite <- app_assoc.
      * destruct (IH (c :: pre_rev) 0 (Nat.le_0_l _)) as (l' & p' & ->).
        now exists (c :: l'), p'.
    + cbn [app replace_scan]. simpl in Hs.
      destruct (IH (c :: pre_rev) skip) as (l' & p' & ->); [lia|].
      now exists l', p'.
Qed.

Lemma replace_scan_weave (rest : list (jsstring * jsstring)) :
  forallb (fun np => (brace_free (fst np) && negb (eqb_str k (fst np)))%bool) rest
  = true ->
  forall first pre_rev skip, skip <= length first ->
  exists first' rest',
    replace_scan (placeholder_regexp k) tpl pre_rev (weave first rest) skip
    = weave first' rest'
    /\ map fst rest' = map fst rest.
Proof.
  induction rest as [|[name piece] rest IH]; intros H first pre_rev skip Hs.
  - now exists (replace_scan (placeholder_regexp k) tpl pre_rev first skip), [].
  - cbn [forallb fst] in H. apply andb_true_iff in H as [H Hrest].
    apply andb_true_iff in H as [Hn Hkn]. apply negb_true_iff in Hkn.
    cbn [weave].
    destruct (replace_scan_reaches_token name (weave piece rest) Hn Hkn
                first pre_rev skip Hs) as (l' & p' & ->).
    destruct (IH Hrest piece p' 0 (Nat.le_0_l _)) as (piece' & rest' & -> & Hmap).
    exists l', ((name, piece') :: rest'). split; [reflexivity|].
    cbn [map fst]. now rewrite Hmap.
Qed.

End TokensInOrder.

Lemma unknown_names_cons k v (m : list (jsstring * jsvalue))
  (rest : list (jsstring * jsstring)) :
  unknown_names ((k, v) :: m) rest = true ->
  forallb (fun np => (brace_free (fst np) && negb (eqb_str k (fst np)))%bool) rest
  = true
  /\ unknown_names m rest = true.
Proof.
  unfold unknown_names. rewrite !forallb_forall. intros H.
  split; intros np Hnp; specialize (H np Hnp);
    apply andb_true_iff in H as [H1 H2]; rewrite H1; cbn [assoc andb] in *;
    destruct (eqb_str k (fst np)); try discriminate; auto.
Qed.

Lemma replace_placeholders_weave (m : list (jsstring * jsvalue))
  (rest : list (jsstring * jsstring)) :
  plain_keys m = true -> unknown_names m rest = true ->
  forall first, exists first' rest',
    replace_placeholders m (weave first rest) = Ok (weave first' rest')
    /\ map fst rest' = map fst rest.
Proof.
  revert rest. induction m as [|[k v] m IH]; intros rest Hm Hu first.
  - now exists first, rest.
  - apply plain_keys_cons in Hm as [Hk Hm].
    apply unknown_names_cons in Hu as [Hu1 Hu2].
    cbn [replace_placeholders]. rewrite placeholder_plain by assumption.
    cbn [bind]. unfold string_replace.
    destruct (replace_scan_weave k (to_string v) (plain_key_brace_free k Hk)
                rest Hu1 first [] 0 (Nat.le_0_l _)) as (f1 & r1 & -> & E1).
    assert (Hu3 : unknown_names m r1 = true).
    { unfold unknown_names in *. rewrite forallb_forall in *. intros np Hnp.
      apply (in_map fst) in Hnp. rewrite E1 in Hnp.
      apply in_map_iff in Hnp as (np' & E & Hnp'). rewrite <- E.
      now apply Hu2. }
    destruct (IH r1 Hm Hu3 f1) as (f2 & r2 & -> & E2).
    exists f2, r2. split; [reflexivity|]. now rewrite E2.
Qed.

(** ** Where the entries of the map come from *)

Lemma obj_update_keys (k : jsstring) (v : jsvalue) (o : jsobject)
  (k' : jsstring) (v' : jsvalue) :
  In (k', v') (obj_update k v o) ->
  In (k', v') o \/ (k' = k /\ v' = v).
Proof.
  induction o as [|[k0 v0] o IH]; [intros []|]. cbn [obj_update].
  destruct (eqb_str k k0) eqn:E.
  - apply eqb_str_eq in E. subst k0. intros [H|H].
    + injection H as <- <-. now right.
    + left. now right.
  - intros [H|H].
    + left. now left.
    + destruct (IH H) as [G|G]; [left; now right | now right].
Qed.

Lemma obj_insert_keys (i : N) (k : jsstring) (v : jsvalue) (o : jsobject)
  (k' : jsstring) (v' : jsvalue) :
  In (k', v') (obj_insert_index i k v o) ->
  In (k', v') o \/ (k' = k /\ v' = v).
Proof.
  induction o as [|[k0 v0] o IH]; cbn [obj_insert_index].
  - intros [H|[]]. injection H as <- <-. now right.
  - destruct (array_index k0) as [j|]; [destruct (N.ltb i j)|].
    + intros [H|H]; [injection H as <- <-; now right | now left].
    + intros [H|H]; [left; now left|].
      destruct (IH H) as [G|G]; [left; now right | now right].
    + intros [H|H]; [injection H as <- <-; now right | now left].
Qed.

Lemma obj_set_keys (o : jsobject) (k : jsstring) (v : jsvalue)
  (k' : jsstring) (v' : jsvalue) :
  In (k', v') (obj_set o k v) -> In (k', v') o \/ (k' = k /\ v' = v).
Proof.
  unfold obj_set. destruct (eqb_str k (str "__proto__")); [now left|].
  destruct (obj_has k o); [apply obj_update_keys|].
  destruct (array_index k); [apply obj_insert_keys|].
  intros H. apply in_app_or in H as [H|[H|[]]]; [now left|].
  injection H as <- <-. now right.
Qed.

(** Every entry of the map comes from a control. *)
Lemma collect_entries (value_of : Element -> jsvalue) (fields : list Element)
  (k : jsstring) (v : jsvalue) :
  In (k, v) (collect value_of fields) ->
  exists e, In e fields /\ k = field_name e /\ v = value_of e.
Proof.
  induction fields as [|e fields IH] using rev_ind; [intros []|].
  unfold collect. rewrite fold_left_app. cbn [fold_left].
  intros H. apply obj_set_keys in H as [H|[-> ->]].
  - destruct (IH H) as (e' & Hin & Hk & Hv). exists e'.
    split; [apply in_or_app; now left | now split].
  - exists e. split; [apply in_or_app; right; now left | now split].
Qed.

(** ** Patterns inside the embedded fragment *)

Lemma replace_placeholders_in_model (m : list (jsstring * jsvalue)) :
  (forall k v, In (k, v) m -> pattern_in_model k = true) ->
  forall text w, replace_placeholders m text <> OutOfModel w.
Proof.
  induction m as [|[k v] m IH]; intros H text w; [discriminate|].
  cbn [replace_placeholders].
  pose proof (H k v (or_introl eq_refl)) as Hk. unfold pattern_in_model in Hk.
  destruct (placeholder k) as [re|msg|w']; [|discriminate|discriminate].
  cbn [bind]. apply IH. intros k' v' Hin. apply (H k' v'). now right.
Qed.

Lemma collect_in_model (value_of : Element -> jsvalue) (fields : list Element) :
  field_names_in_model fields = true ->
  forall k v, In (k, v) (collect value_of fields) -> pattern_in_model k = true.
Proof.
  intros H k v Hin. apply collect_entries in Hin as (e & He & -> & _).
  unfold field_names_in_model in H. rewrite forallb_forall in H. now apply H.
Qed.

Lemma plain_names_in_model (fields : list Element) :
  plain_field_names fields = true -> field_names_in_model fields = true.
Proof.
  unfold plain_field_names, field_names_in_model. rewrite !forallb_forall.
  intros H e He. unfold pattern_in_model.
  now rewrite (placeholder_plain _ (H e He)).
Qed.

Lemma createIssue_returns (main compat : IssueData -> FetchResult) (app : App) :
  field_names_in_model (template_fields (page app)) = true ->
  exists app' evs, createIssue main compat app = Ok (app', evs).
Proof.
  intros Hm. unfold createIssue.
  destruct (negb _); [now eexists; eexists|].
  destruct (negb (truthy (trim (issue_title (page app)))));
    [now eexists; eexists|].
  destruct (negb (truthy (trim (issue_body (page app)))));
    [now eexists; eexists|].
  destruct (find _ _); [now eexists; eexists|].
  pose proof (replace_placeholders_in_model _
                (collect_in_model submit_value _ Hm)
                (trim (issue_body (page app)))) as Hn.
  unfold finalBody, Object_entries.
  destruct (replace_placeholders _ _) as [final|msg|w];
    [|now eexists; eexists|now elim (Hn w)].
  set (d := mkIssueData _ _ _ _ _ _).
  destruct (main d) as [msg|status json].
  - destruct (handle_response app _ (compat d)) as [app' evs].
    now eexists; eexists.
  - destruct (handle_response app _ (Response status json)) as [app' evs].
    now eexists; eexists.
Qed.


(** ** The white space around a text *)

Lemma trim_start_split (s : jsstring) :
  exists ws, s = ws ++ trim_start s /\ forallb is_space ws = true.
Proof.
  induction s as [|d s (ws & E & H)]; [now exists []|]. cbn [trim_start].
  destruct (is_space d) eqn:Ed; [|now exists []].
  exists (d :: ws). cbn [app forallb]. rewrite Ed, H. now rewrite <- E.
Qed.

Lemma trim_split (s : jsstring) :
  exists lead trail,
    s = lead ++ trim s ++ trail
    /\ forallb is_space lead = true /\ forallb is_space trail = true.
Proof.
  destruct (trim_start_split s) as (lead & E1 & H1).
  destruct (trim_start_split (rev (trim_start s))) as (ws & E2 & H2).
  exists lead, (rev ws). repeat split.
  - rewrite E1 at 1. f_equal. unfold trim. rewrite <- rev_app_distr, <- E2.
    now rewrite rev_involutive.
  - exact H1.
  - rewrite forallb_forall in *. intros c Hc. apply H2. now apply in_rev.
Qed.

Lemma spaces_brace_free (ws : jsstring) :
  forallb is_space ws = true -> brace_free ws = true.
Proof.
  unfold brace_free. rewrite !forallb_forall. intros H c Hc.
  specialize (H c Hc). unfold is_brace.
  destruct (N.eqb_spec c (ch "{")) as [->|_]; [discriminate|].
  destruct (N.eqb_spec c (ch "}")) as [->|_]; [discriminate|]. reflexivity.
Qed.

Lemma local_values_collect (fields : list Element) :
  local_field_values fields = true ->
  local_values (collect submit_value fields) = true.
Proof.
  intros H. unfold local_values. apply forallb_forall. intros [k v] Hin.
  apply collect_entries in Hin as (e & He & _ & ->). cbn [snd].
  unfold local_field_values in H. rewrite forallb_forall in H.
  specialize (H e He). unfold submit_value.
  destruct (is_checkbox e); [destruct (el_checked e); reflexivity|exact H].
Qed.

(** ** Runs of one kind of character *)







(** ** Markers that are not closed *)







(** ** The last steps on a text without their tags *)






(** ** Marks at the start of a line *)








(** ** A literal line is rendered as one paragraph *)




(** ** Counting the occurrences of a token *)

Lemma occurrences_suffix (w a s : jsstring) :
  occurrences w s <= occurrences w (a ++ s).
Proof.
  induction a as [|c a IH]; [apply le_n|]. cbn [app].
  change (occurrences w (c :: a ++ s))
    with ((if starts_with w (c :: a ++ s) then 1 else 0) + occurrences w (a ++ s)).
  destruct (starts_with w (c :: a ++ s)); lia.
Qed.

Lemma occurrences_passes (name a s : jsstring) :
  forallb (fun c => negb (N.eqb (ch "{") c)) a = true ->
  occurrences (token name) (a ++ s) = occurrences (token name) s.
Proof.
  induction a as [|c a IH]; [reflexivity|]. cbn [forallb app].
  intros H. apply andb_true_iff in H as [Hc Ha]. apply negb_true_iff in Hc.
  change (occurrences (token name) (c :: a ++ s))
    with ((if starts_with (token name) (c :: a ++ s) then 1 else 0)
          + occurrences (token name) (a ++ s)).
  unfold token at 1. cbn [starts_with]. rewrite Hc. cbn [andb].
  now rewrite IH.
Qed.

Lemma occurrences_at_token (name s : jsstring) :
  brace_free name = true ->
  occurrences (token name) (token name ++ s) = S (occurrences (token name) s).
Proof.
  intros Hn.
  change (token name ++ s) with (ch "{" :: (name ++ [ch "}"]) ++ s).
  change (occurrences (token name) (ch "{" :: (name ++ [ch "}"]) ++ s))
    with ((if starts_with (token name) (ch "{" :: (name ++ [ch "}"]) ++ s)
           then 1 else 0)
          + occurrences (token name) ((name ++ [ch "}"]) ++ s)).
  change (ch "{" :: (name ++ [ch "}"]) ++ s) with (token name ++ s).
  rewrite starts_with_app, occurrences_passes; [reflexivity|].
  rewrite forallb_app. apply andb_true_iff. split; [|reflexivity].
  now apply brace_free_no_opening.
Qed.

Lemma weave_cons (c : char) (first : jsstring) (rest : list (jsstring * jsstring)) :
  weave (c :: first) rest = c :: weave first rest.
Proof. destruct rest as [|[n p] rest]; reflexivity. Qed.

Lemma occurrences_weave (name first : jsstring)
  (rest : list (jsstring * jsstring)) :
  brace_free name = true ->
  map fst rest = repeat name (length rest) ->
  length rest <= occurrences (token name) (weave first rest).
Proof.
  intros Hn. revert first. induction rest as [|[n p] rest IH]; intros first H.
  - cbn [length]. lia.
  - cbn [map fst length repeat] in H. injection H as -> H. cbn [weave length].
    pose proof (occurrences_suffix (token name) first
                  (token name ++ weave p rest)) as H1.
    rewrite occurrences_at_token in H1 by assumption.
    specialize (IH p H). lia.
Qed.

(** A text cut at all the occurrences of a token. *)
Lemma weave_at_occurrences (name : jsstring) :
  brace_free name = true ->
  forall body, exists first rest,
    body = weave first rest
    /\ map fst rest = repeat name (length rest)
    /\ length rest = occurrences (token name) body.
Proof.
  intros Hn.
  assert (G : forall n body, length body <= n -> exists first rest,
                body = weave first rest
                /\ map fst rest = repeat name (length rest)
                /\ length rest = occurrences (token name) body).
  { assert (E0 : exists first rest,
                [] = weave first rest
                /\ map fst rest = repeat name (length rest)
                /\ length rest = occurrences (token name) [])
      by (exists [], []; repeat split; reflexivity).
    induction n as [|n IH]; intros [|c b] Hl; try exact E0;
      [cbn [length] in Hl; lia|].
    cbn [length] in Hl.
    destruct (starts_with (token name) (c :: b)) eqn:E.
    - assert (Eb : c :: b = token name ++ skipn (length (token name)) (c :: b)).
      { clear -E. revert E. generalize (token name) (c :: b).
        induction j as [|x j IHj]; intros [|y s]; cbn [starts_with app skipn length];
          try discriminate; try reflexivity.
        intros H. apply andb_true_iff in H as [H1 H2]. apply N.eqb_eq in H1.
        subst y. f_equal. now apply IHj. }
      set (X := skipn (length (token name)) (c :: b)) in *.
      destruct (IH X) as (first & rest & EX & Hm & Hc).
      { subst X. rewrite length_skipn, token_length. cbn [length]. lia. }
      exists [], ((name, first) :: rest).
      cbn [weave app map fst length repeat].
      split; [rewrite <- EX; exact Eb|]. split; [now rewrite Hm|].
      rewrite Eb, occurrences_at_token by assumption. now rewrite Hc.
    - destruct (IH b) as (first & rest & Eb & Hm & Hc); [lia|].
      exists (c :: first), rest. rewrite weave_cons, <- Eb.
      split; [reflexivity|]. split; [exact Hm|].
      change (occurrences (token name) (c :: b))
        with ((if starts_with (token name) (c :: b) then 1 else 0)
              + occurrences (token name) b).
      rewrite E. exact Hc. }
  intros body. now apply (G (length body)).
Qed.

Lemma unknown_names_repeat (m : list (jsstring * jsvalue)) (name : jsstring)
  (rest : list (jsstring * jsstring)) :
  brace_free name = true -> assoc name m = None ->
  map fst rest = repeat name (length rest) ->
  unknown_names m rest = true.
Proof.
  intros Hn Ha. unfold unknown_names.
  induction rest as [|[n p] rest IH]; [reflexivity|].
  cbn [map fst length repeat forallb]. intros H. injection H as -> H.
  now rewrite Hn, Ha, IH.
Qed.

(** With plain keys no occurrence of a token of an unknown name is lost. *)
Lemma replace_placeholders_keeps_occurrences (m : list (jsstring * jsvalue))
  (name body : jsstring) :
  plain_keys m = true -> brace_free name = true -> assoc name m = None ->
  exists out,
    replace_placeholders m body = Ok out
    /\ occurrences (token name) body <= occurrences (token name) out.
Proof.
  intros Hm Hn Ha.
  destruct (weave_at_occurrences name Hn body) as (first & rest & -> & Hr & Hc).
  destruct (replace_placeholders_weave m rest Hm
              (unknown_names_repeat m name rest Hn Ha Hr) first)
    as (first' & rest' & E & Hmap).
  exists (weave first' rest'). split; [exact E|].
  rewrite <- Hc.
  assert (Hl : length rest' = length rest).
  { apply (f_equal (@length jsstring)) in Hmap. now rewrite !length_map in Hmap. }
  rewrite <- Hl. apply occurrences_weave; [exact Hn|].
  now rewrite Hmap, Hr, Hl.
Qed.

(* ================================================================== *)
(** * The claims *)

(** ** C1: one pass, whatever the order *)

(** C1, counterexample.  With the fields [a] = "{b}" and [b] = "X", in
    this order, the body "{a}" becomes "X" in the preview and in the
    submitted body: the value put in for [a] is read again as a placeholder.
    With the same fields in the other order it becomes "{b}". *)
Lemma substitution_reads_values_again :
  processedMarkdown (str "{a}")
    [text_field (str "a") (str "{b}"); text_field (str "b") (str "X")]
  = Ok (str "X")
  /\ finalBody (str "{a}")
       [text_field (str "a") (str "{b}"); text_field (str "b") (str "X")]
     = Ok (str "X")
  /\ includes (str "{b}") (str "X") = false
  /\ processedMarkdown (str "{a}")
       [text_field (str "b") (str "X"); text_field (str "a") (str "{b}")]
     = Ok (str "{b}").
Proof. repeat split; vm_compute; reflexivity. Qed.

(** C1, amended.  The keys are processed one after the other, each
    replacement reading the whole text produced so far.  When the keys are
    distinct plain names, no value contains a brace or a dollar sign and the
    braces of the body are flat, the loop computes the single pass of the
    specification, and its result is the same for every order of the
    entries. *)
Theorem substitution_single_pass_on_flat_bodies
  (entries entries' : list (jsstring * jsvalue)) (body : jsstring) :
  plain_keys entries = true ->
  inert_values entries = true ->
  distinct_keys entries = true ->
  flat_braces body = true ->
  Permutation entries entries' ->
  replace_placeholders entries body = Ok (single_pass entries body 0)
  /\ replace_placeholders entries' body = replace_placeholders entries body.
Proof.
  intros Hk Hv Hd Hb HP.
  destruct (proj1 (flat_braces_segments body) Hb) as (gs & Hgs & ->).
  assert (E : replace_placeholders entries (flatten gs)
              = Ok (flatten (flat_map (substitute_segment entries) gs)))
    by now apply replace_placeholders_flatten.
  split.
  - rewrite E. f_equal. symmetry. now apply single_pass_flatten.
  - rewrite E.
    rewrite replace_placeholders_flatten;
      try assumption; try (eapply forallb_Permutation; eassumption).
    do 2 f_equal. apply flat_map_ext. intros [c|n]; [reflexivity|].
    cbn [substitute_segment].
    rewrite (assoc_Permutation n entries entries' HP
               (distinct_keys_NoDup entries Hd)).
    reflexivity.
Qed.

Lemma substitution_single_pass_witness :
  replace_placeholders
    [(str "name", VString (str "Alice")); (str "priority", VString (str "High"))]
    (str "Hello {name}, priority {priority}")
  = Ok (single_pass
          [(str "name", VString (str "Alice"));
           (str "priority", VString (str "High"))]
          (str "Hello {name}, priority {priority}") 0)
  /\ replace_placeholders
       [(str "priority", VString (str "High")); (str "name", VString (str "Alice"))]
       (str "Hello {name}, priority {priority}")
     = replace_placeholders
         [(str "name", VString (str "Alice"));
          (str "priority", VString (str "High"))]
         (str "Hello {name}, priority {priority}").
Proof.
  apply substitution_single_pass_on_flat_bodies;
    [reflexivity | reflexivity | reflexivity | reflexivity | apply perm_swap].
Defined.

(** ** C2: substitution never raises *)

(** C2, counterexample.  A field named "(" makes [new RegExp] throw: the
    exception leaves [updatePreview], and [createIssue] reports it without
    sending anything. *)
Lemma substitution_raises_on_parenthesis :
  processedMarkdown (str "{a}") [text_field (str "(") (str "x")]
  = Throws "Unterminated group"
  /\ finalBody (str "{a}") [text_field (str "(") (str "x")]
     = Throws "Unterminated group"
  /\ updatePreview (mkPage (str "T") (str "{a}")
                           [text_field (str "(") (str "x")] true [])
     = Throws "Unterminated group"
  /\ sent_bodies
       (events_of (createIssue accepting accepting
                     (connected_app (str "T") (str "{a}")
                                    [text_field (str "(") (str "x")])))
     = [].
Proof. repeat split; vm_compute; reflexivity. Qed.

(** C2, amended.  For every body and all fields whose names are plain (no
    character with a meaning in a pattern), whatever their values, the
    substitution of the preview and the substitution of the submission both
    end normally with a string. *)
Theorem substitution_total_for_plain_names (body : jsstring)
  (fields : list Element) :
  plain_field_names fields = true ->
  exists shown sent,
    processedMarkdown body fields = Ok shown /\ finalBody body fields = Ok sent.
Proof.
  intros H.
  destruct (replace_placeholders_total (collect preview_value fields)
              (plain_keys_collect preview_value fields H) body) as (shown & E1).
  destruct (replace_placeholders_total (collect submit_value fields)
              (plain_keys_collect submit_value fields H) body) as (sent & E2).
  now exists shown, sent.
Qed.

Lemma substitution_total_witness :
  exists shown sent,
    processedMarkdown (str "$& {steps} {done}")
      [text_field (str "steps") (str "$1 {done} $&");
       checkbox_field (str "done") true] = Ok shown
    /\ finalBody (str "$& {steps} {done}")
         [text_field (str "steps") (str "$1 {done} $&");
          checkbox_field (str "done") true] = Ok sent.
Proof. apply substitution_total_for_plain_names. reflexivity. Defined.

(** ** C3: every occurrence replaced, checkboxes as yes or no *)

(** C3, the code at the failing input.  For the body "Urgent: {urgent}" and
    the ticked checkbox [urgent], the preview shows the yes token while
    [createIssue] submits the text "true". *)
Theorem createIssue_submits_boolean_text :
  processedMarkdown (str "Urgent: {urgent}") [checkbox_field (str "urgent") true]
  = Ok (str "Urgent: " ++ yes_token)
  /\ finalBody (str "Urgent: {urgent}") [checkbox_field (str "urgent") true]
     = Ok (str "Urgent: true")
  /\ sent_bodies
       (events_of (createIssue accepting accepting
                     (connected_app (str "T") (str "Urgent: {urgent}")
                                    [checkbox_field (str "urgent") true])))
     = [str "Urgent: true"].
Proof. repeat split; vm_compute; reflexivity. Qed.

(** ** C4: tokens of unknown names are left alone *)

(** C4, counterexample.  The key "." is read as the pattern of any
    character: the token "{x}", whose name is not a key, is replaced. *)
Lemma dot_key_replaces_other_token :
  assoc (str "x") [(str ".", VString (str "1"))] = None
  /\ processedMarkdown (str "{x}") [text_field (str ".") (str "1")] = Ok (str "1")
  /\ finalBody (str "{x}") [text_field (str ".") (str "1")] = Ok (str "1")
  /\ includes (token (str "x")) (str "1") = false.
Proof. repeat split; vm_compute; reflexivity. Qed.

(** C4, a second restriction.  A name that holds a brace can hold the token
    of a key: in "{x{a}" the text between the outer braces is no key, and
    it is changed all the same. *)
Lemma brace_in_name_is_rewritten :
  assoc (str "x{a") [(str "a", VString (str "1"))] = None
  /\ brace_free (str "x{a") = false
  /\ replace_placeholders [(str "a", VString (str "1"))] (token (str "x{a"))
     = Ok (str "{x1").
Proof. repeat split; vm_compute; reflexivity. Qed.

(** C4, amended.  When the keys of the map are plain, the tokens whose
    names have no brace and are no keys are left where they are, whatever
    the values: a body cut at any number of such tokens becomes a text cut
    at the same tokens in the same order, so none of them is removed or
    changed, and the output holds at least as many occurrences of such a
    token as the body.  When moreover no value copies the text around the
    match ([$`], [$']), such a token is a barrier: the text before it and
    the text after it are substituted each on its own.  The body
    "{unknown}" with the map a = "1" yields exactly "{unknown}". *)
Theorem unknown_token_survives :
  (forall (entries : list (jsstring * jsvalue)) (first : jsstring)
          (rest : list (jsstring * jsstring)),
     plain_keys entries = true ->
     unknown_names entries rest = true ->
     exists first' rest',
       replace_placeholders entries (weave first rest) = Ok (weave first' rest')
       /\ map fst rest' = map fst rest)
  /\ (forall (entries : list (jsstring * jsvalue)) (name body : jsstring),
        plain_keys entries = true ->
        brace_free name = true ->
        assoc name entries = None ->
        exists out,
          replace_placeholders entries body = Ok out
          /\ occurrences (token name) body <= occurrences (token name) out)
  /\ (forall (entries : list (jsstring * jsvalue)) (name before after : jsstring),
        plain_keys entries = true ->
        local_values entries = true ->
        brace_free name = true ->
        assoc name entries = None ->
        exists before' after',
          replace_placeholders entries before = Ok before'
          /\ replace_placeholders entries after = Ok after'
          /\ replace_placeholders entries (before ++ token name ++ after)
             = Ok (before' ++ token name ++ after'))
  /\ replace_placeholders [(str "a", VString (str "1"))] (str "{unknown}")
     = Ok (str "{unknown}").
Proof.
  split; [|split; [|split]].
  - intros entries first rest Hk Hu. now apply replace_placeholders_weave.
  - intros entries name body Hk Hn Ha.
    now apply replace_placeholders_keeps_occurrences.
  - intros entries name before after Hk Hv Hn Ha.
    now apply replace_placeholders_barrier.
  - vm_compute. reflexivity.
Qed.

Lemma unknown_token_witness :
  (exists first' rest',
     replace_placeholders
       [(str "a", VString (str "$` {b} $'")); (str "b", VBool false)]
       (weave (str "{a} and ")
              [(str "unknown", str " and {b} or "); (str "unknown", str "{a}")])
     = Ok (weave first' rest')
     /\ map fst rest' = map fst [(str "unknown", str " and {b} or ");
                                 (str "unknown", str "{a}")])
  /\ (exists out,
        replace_placeholders
          [(str "a", VString (str "$` {b} $'")); (str "b", VBool false)]
          (str "{a} {unknown} {b} {unknown}") = Ok out
        /\ occurrences (token (str "unknown")) (str "{a} {unknown} {b} {unknown}")
           <= occurrences (token (str "unknown")) out)
  /\ (exists before' after',
        replace_placeholders
          [(str "a", VString (str "$& {b}")); (str "b", VBool false)]
          (str "{a} and ") = Ok before'
        /\ replace_placeholders
             [(str "a", VString (str "$& {b}")); (str "b", VBool false)]
             (str " and {b}") = Ok after'
        /\ replace_placeholders
             [(str "a", VString (str "$& {b}")); (str "b", VBool false)]
             (str "{a} and " ++ token (str "unknown") ++ str " and {b}")
           = Ok (before' ++ token (str "unknown") ++ after')).
Proof.
  refine (conj _ (conj _ _)).
  - apply (proj1 unknown_token_survives); reflexivity.
  - apply (proj1 (proj2 unknown_token_survives)); reflexivity.
  - apply (proj1 (proj2 (proj2 unknown_token_survives))); reflexivity.
Defined.

(** ** C5: a list of two items *)

(** C5, counterexample.  The two items of "- one\n- two" are not adjacent
    in the output: the line break between them has become [<br>]. *)
Lemma list_items_are_not_adjacent :
  ~ (exists html,
       render (str "- one" ++ nl ++ str "- two") = Ok html
       /\ includes (str "<li>one</li><li>two</li>") html = true).
Proof.
  intros (html & E & H). vm_compute in E. injection E as <-.
  vm_compute in H. discriminate.
Qed.

(** C5, amended.  Rendering "- one\n- two" gives exactly
    [<p><ul><li>one</li><br><li>two</li></ul></p>]: both items, separated
    by the [<br>] of the line break, inside one [<ul>] and one [</ul>].
    In general the list step puts everything from the first [<li>] to the
    last [</li>] of the text into one [<ul>] element. *)
Theorem list_items_share_one_ul :
  render (str "- one" ++ nl ++ str "- two")
  = Ok (str "<p><ul><li>one</li><br><li>two</li></ul></p>")
  /\ occurrences (str "<ul>") (str "<p><ul><li>one</li><br><li>two</li></ul></p>") = 1
  /\ occurrences (str "</ul>") (str "<p><ul><li>one</li><br><li>two</li></ul></p>") = 1
  /\ (forall pre x post,
        includes (str "<li>") (pre ++ str "<li") = false ->
        includes (str "</li>") (str "/li>" ++ post) = false ->
        apply_rule wrap_list_rule (pre ++ str "<li>" ++ x ++ str "</li>" ++ post)
        = Ok (pre ++ str "<ul>" ++ (str "<li>" ++ x ++ str "</li>")
                ++ str "</ul>" ++ post)).
Proof.
  repeat split; try (vm_compute; reflexivity). exact wrap_list_rule_wraps.
Qed.

Lemma list_items_share_one_ul_witness :
  apply_rule wrap_list_rule
    (str "A" ++ str "<li>" ++ str "a</li></p><p>x</p><p><li>b" ++ str "</li>"
       ++ str "Z")
  = Ok (str "A" ++ str "<ul>"
          ++ (str "<li>" ++ str "a</li></p><p>x</p><p><li>b" ++ str "</li>")
          ++ str "</ul>" ++ str "Z").
Proof.
  apply (proj2 (proj2 (proj2 list_items_share_one_ul))); reflexivity.
Defined.

(** ** C6: bold before italic *)

(** C6, the code at the failing input.  For "**a** *b*" the preview of
    [script.js] has each tag once; the legacy preview applies its
    blockquote rule, which is not anchored at the start of a line, to the
    "> " formed by the end of [</strong>] and the space, and no
    [<strong>a</strong>] is left. *)
Theorem legacy_preview_breaks_strong :
  render (str "**a** *b*") = Ok (str "<p><strong>a</strong> <em>b</em></p>")
  /\ occurrences (str "<strong>a</strong>")
                 (str "<p><strong>a</strong> <em>b</em></p>") = 1
  /\ occurrences (str "<em>b</em>")
                 (str "<p><strong>a</strong> <em>b</em></p>") = 1
  /\ Legacy.updatePreview (str "**a** *b*")
     = Ok (str "<strong>a</strong<blockquote><em>b</em></blockquote>")
  /\ occurrences (str "<strong>a</strong>")
                 (str "<strong>a</strong<blockquote><em>b</em></blockquote>") = 0.
Proof. repeat split; vm_compute; reflexivity. Qed.

(** ** C7: malformed input *)




(** ** C8: end to end *)

(** C8.  The body "Hello {name}, priority {priority}" with name = "Alice"
    and priority = "High" becomes "Hello Alice, priority High", which
    renders as [<p>Hello Alice, priority High</p>]; [updatePreview] shows
    exactly that. *)
Theorem hello_alice_end_to_end :
  replace_placeholders
    [(str "name", VString (str "Alice")); (str "priority", VString (str "High"))]
    (str "Hello {name}, priority {priority}")
  = Ok (str "Hello Alice, priority High")
  /\ processedMarkdown (str "Hello {name}, priority {priority}")
       [text_field (str "name") (str "Alice");
        text_field (str "priority") (str "High")]
     = Ok (str "Hello Alice, priority High")
  /\ render (str "Hello Alice, priority High")
     = Ok (str "<p>Hello Alice, priority High</p>")
  /\ updatePreview
       (mkPage (str "T") (str "Hello {name}, priority {priority}")
               [text_field (str "name") (str "Alice");
                text_field (str "priority") (str "High")] true [])
     = Ok (mkPage (str "T") (str "Hello {name}, priority {priority}")
                  [text_field (str "name") (str "Alice");
                   text_field (str "priority") (str "High")] true
                  (str "<p>Hello Alice, priority High</p>")).
Proof. repeat split; vm_compute; reflexivity. Qed.

(** ** C9: preview and submission agree on text fields *)

(** C9, counterexample.  On one page the two methods do not substitute the
    same text: [updatePreview] takes the body as it is, [createIssue] the
    trimmed body.  With the body " {a}" and the text field [a] holding
    "[$`]" (the text before the match), the preview substitutes " [ ]" and
    [createIssue] sends "[]"; no checkbox is involved. *)
Lemma substitution_differs_on_padded_body :
  no_checkbox (template_fields padded_page) = true
  /\ processedMarkdown (issue_body padded_page) (template_fields padded_page)
     = Ok (str " [ ]")
  /\ updatePreview padded_page = Ok (set_preview padded_page (str "<p> [ ]</p>"))
  /\ finalBody (trim (issue_body padded_page)) (template_fields padded_page)
     = Ok (str "[]")
  /\ sent_bodies
       (events_of (createIssue accepting accepting
                     (connected_app (issue_title padded_page)
                                    (issue_body padded_page)
                                    (elements padded_page))))
     = [str "[]"].
Proof. repeat split; vm_compute; reflexivity. Qed.

(** C9, amended.  Given the same text and fields none of which is a
    checkbox, the substitution of [updatePreview] and that of [createIssue]
    give the same result.  So on a page without checkbox whose body has no
    white space around it, the text the preview substitutes is the
    [finalBody] of [createIssue].  On a page whose body has white space
    around it, with plain field names and values that do not copy the text
    around the match, the two differ by that white space only. *)
Theorem preview_and_submit_agree :
  (forall (body : jsstring) (fields : list Element),
     no_checkbox fields = true ->
     processedMarkdown body fields = finalBody body fields)
  /\ (forall pg : Page,
        no_checkbox (template_fields pg) = true ->
        trim (issue_body pg) = issue_body pg ->
        processedMarkdown (issue_body pg) (template_fields pg)
        = finalBody (trim (issue_body pg)) (template_fields pg))
  /\ (forall pg : Page,
        no_checkbox (template_fields pg) = true ->
        plain_field_names (template_fields pg) = true ->
        local_field_values (template_fields pg) = true ->
        exists lead trail final,
          issue_body pg = lead ++ trim (issue_body pg) ++ trail
          /\ forallb is_space lead = true /\ forallb is_space trail = true
          /\ finalBody (trim (issue_body pg)) (template_fields pg) = Ok final
          /\ processedMarkdown (issue_body pg) (template_fields pg)
             = Ok (lead ++ final ++ trail)).
Proof.
  assert (G : forall body fields, no_checkbox fields = true ->
                processedMarkdown body fields = finalBody body fields).
  { intros body fields H. unfold processedMarkdown, finalBody.
    now rewrite collect_without_checkbox. }
  split; [exact G|]. split.
  - intros pg Hc Ht. rewrite Ht. now apply G.
  - intros pg Hc Hp Hv. rewrite (G _ _ Hc).
    destruct (trim_split (issue_body pg)) as (lead & trail & E & Hl & Ht).
    destruct (replace_placeholders_padding
                (collect submit_value (template_fields pg))
                (plain_keys_collect submit_value _ Hp)
                (local_values_collect _ Hv)
                lead trail (spaces_brace_free _ Hl) (spaces_brace_free _ Ht)
                (trim (issue_body pg))) as (final & E1 & E2).
    exists lead, trail, final. repeat split; try assumption.
    unfold finalBody, Object_entries. rewrite E at 1. exact E2.
Qed.

Lemma preview_and_submit_agree_witness :
  processedMarkdown (str "Hello {name}, {os}")
    [text_field (str "name") (str "Alice"); text_field (str "os") (str "$& Linux")]
  = finalBody (str "Hello {name}, {os}")
      [text_field (str "name") (str "Alice"); text_field (str "os") (str "$& Linux")]
  /\ processedMarkdown
       (issue_body (mkPage (str "T") (str "On {os}.")
                           [text_field (str "os") (str "$` Linux")] true []))
       (template_fields (mkPage (str "T") (str "On {os}.")
                                [text_field (str "os") (str "$` Linux")] true []))
     = finalBody
         (trim (issue_body (mkPage (str "T") (str "On {os}.")
                                   [text_field (str "os") (str "$` Linux")] true [])))
         (template_fields (mkPage (str "T") (str "On {os}.")
                                  [text_field (str "os") (str "$` Linux")] true []))
  /\ exists lead trail final,
       issue_body (mkPage (str "T") (str "  On {os}. ")
                          [text_field (str "os") (str "$& Linux")] true [])
       = lead ++ trim (issue_body (mkPage (str "T") (str "  On {os}. ")
                                          [text_field (str "os") (str "$& Linux")]
                                          true []))
              ++ trail
       /\ forallb is_space lead = true /\ forallb is_space trail = true
       /\ finalBody
            (trim (issue_body (mkPage (str "T") (str "  On {os}. ")
                                      [text_field (str "os") (str "$& Linux")]
                                      true [])))
            (template_fields (mkPage (str "T") (str "  On {os}. ")
                                     [text_field (str "os") (str "$& Linux")]
                                     true []))
          = Ok final
       /\ processedMarkdown
            (issue_body (mkPage (str "T") (str "  On {os}. ")
                                [text_field (str "os") (str "$& Linux")] true []))
            (template_fields (mkPage (str "T") (str "  On {os}. ")
                                     [text_field (str "os") (str "$& Linux")]
                                     true []))
          = Ok (lead ++ final ++ trail).
Proof.
  split; [|split].
  - apply (proj1 preview_and_submit_agree). reflexivity.
  - apply (proj1 (proj2 preview_and_submit_agree)); reflexivity.
  - apply (proj2 (proj2 preview_and_submit_agree)); reflexivity.
Defined.

(** ** C10: a rejected submission changes nothing *)

(** C10.  When the trimmed title or the trimmed body is empty, or a
    required field is blank, [createIssue] only reports an error (and moves
    the focus): no loading notice, no substitution, no request, and the
    form and the draft are as before. *)
Theorem createIssue_rejects_invalid_form (main compat : IssueData -> FetchResult)
  (app : App) :
  trim (issue_title (page app)) = []
  \/ trim (issue_body (page app)) = []
  \/ blank_required_field (page app) = true ->
  exists evs,
    createIssue main compat app = Ok (app, evs)
    /\ rejection evs = true
    /\ existsb is_error_report evs = true
    /\ existsb is_request evs = false.
Proof.
  intros H. unfold createIssue.
  destruct (negb _); [eexists; repeat split; reflexivity|].
  destruct (trim (issue_title (page app))) as [|c t] eqn:Et;
    [eexists; repeat split; reflexivity|].
  destruct (trim (issue_body (page app))) as [|d b] eqn:Eb;
    [eexists; repeat split; reflexivity|].
  cbn [truthy negb].
  destruct (find _ (required_fields (page app))) as [field|] eqn:Ef;
    [eexists; repeat split; reflexivity|].
  exfalso. destruct H as [H|[H|H]]; try discriminate.
  unfold blank_required_field in H. apply existsb_exists in H as (e & He & Hb).
  pose proof (find_none _ _ Ef e He) as Hn. cbv beta in Hn. congruence.
Qed.

Lemma createIssue_rejects_witness :
  exists evs,
    createIssue accepting accepting
      (connected_app (str "Title") (str "Body {steps}")
         [mkElement (str "field-steps") (str "textarea") (str "  ") false true])
    = Ok (connected_app (str "Title") (str "Body {steps}")
            [mkElement (str "field-steps") (str "textarea") (str "  ") false true],
          evs)
    /\ rejection evs = true
    /\ existsb is_error_report evs = true
    /\ existsb is_request evs = false.
Proof.
  apply createIssue_rejects_invalid_form. right. right. reflexivity.
Defined.

(* ================================================================== *)
(** * Further properties of the two scripts *)

(** ** Lines, and the text a text area holds *)

Lemma normalize_newlines_id (s : jsstring) :
  lacks (N.eqb 13%N) s = true -> normalize_newlines s = s.
Proof.
  induction s as [|c s IH]; [reflexivity|].
  unfold lacks. cbn [forallb normalize_newlines]. intros H.
  apply andb_true_iff in H as [Hc Hs]. apply negb_true_iff in Hc.
  rewrite N.eqb_sym in Hc. rewrite Hc. f_equal. now apply IH.
Qed.

Lemma lacks_join (p : char -> bool) (sep : jsstring) (parts : list jsstring) :
  lacks p sep = true -> Forall (fun l => lacks p l = true) parts ->
  lacks p (join sep parts) = true.
Proof.
  intros Hsep H. induction H as [|l parts Hl Hparts IH]; [reflexivity|].
  cbn [join]. destruct parts as [|l' parts]; [exact Hl|].
  unfold lacks in *. rewrite !forallb_app. rewrite Hl, Hsep. exact IH.
Qed.

Lemma lacks_firstn (p : char -> bool) (n : nat) (s : jsstring) :
  lacks p s = true -> lacks p (firstn n s) = true.
Proof.
  intros H. rewrite <- (firstn_skipn n s) in H. now apply lacks_app in H.
Qed.

Lemma lacks_skipn (p : char -> bool) (n : nat) (s : jsstring) :
  lacks p s = true -> lacks p (skipn n s) = true.
Proof.
  intros H. rewrite <- (firstn_skipn n s) in H. now apply lacks_app in H.
Qed.

Lemma lacks_substring (p : char -> bool) (s : jsstring) (a b : nat) :
  lacks p s = true -> lacks p (substring s a b) = true.
Proof. intros H. unfold substring. now apply lacks_firstn, lacks_skipn. Qed.

Lemma lacks_split (p : char -> bool) (sep : char) (s : jsstring) :
  lacks p s = true -> Forall (fun l => lacks p l = true) (split sep s).
Proof.
  induction s as [|c s IH]; intros H.
  - repeat constructor.
  - unfold lacks in H. cbn [forallb] in H. apply andb_true_iff in H as [Hc Hs].
    specialize (IH Hs). cbn [split].
    destruct (N.eqb c sep).
    + constructor; [reflexivity | exact IH].
    + destruct (split sep s) as [|l ls]; [repeat constructor; unfold lacks; cbn; now rewrite Hc|].
      inversion IH; subst. constructor; [|assumption].
      unfold lacks in *. cbn [forallb]. now rewrite Hc.
Qed.

Lemma split_cons (sep : char) (s : jsstring) :
  exists l ls, split sep s = l :: ls.
Proof.
  induction s as [|c s (l & ls & E)]; [now exists [], []|].
  cbn [split]. rewrite E. destruct (N.eqb c sep); eauto.
Qed.

Lemma join_split (sep : char) (s : jsstring) : join [sep] (split sep s) = s.
Proof.
  induction s as [|c s IH]; [reflexivity|].
  cbn [split]. destruct (split_cons sep s) as (l & ls & E).
  rewrite E in *. destruct (N.eqb c sep) eqn:Ec.
  - apply N.eqb_eq in Ec. subst c.
    change (join [sep] ([] :: l :: ls)) with (sep :: join [sep] (l :: ls)).
    now rewrite IH.
  - destruct ls; cbn [join app] in *; now rewrite IH.
Qed.

Lemma split_lines_sep_free (sep : char) (s : jsstring) :
  Forall (fun l => lacks (N.eqb sep) l = true) (split sep s).
Proof.
  induction s as [|c s IH]; [repeat constructor|].
  cbn [split]. destruct (N.eqb c sep) eqn:Ec.
  - constructor; [reflexivity | exact IH].
  - destruct (split sep s) as [|l ls].
    + repeat constructor. unfold lacks. cbn. rewrite N.eqb_sym. now rewrite Ec.
    + inversion IH; subst. constructor; [|assumption].
      unfold lacks in *. cbn [forallb]. rewrite N.eqb_sym. now rewrite Ec.
Qed.

Lemma split_line (sep : char) (l rest : jsstring) :
  lacks (N.eqb sep) l = true ->
  split sep (l ++ sep :: rest) = l :: split sep rest.
Proof.
  induction l as [|c l IH]; intros H.
  - cbn [app split]. now rewrite N.eqb_refl.
  - unfold lacks in H. cbn [forallb] in H. apply andb_true_iff in H as [Hc Hl].
    apply negb_true_iff in Hc. rewrite N.eqb_sym in Hc.
    cbn [app split]. rewrite Hc. now rewrite IH.
Qed.

Lemma split_last_line (sep : char) (l : jsstring) :
  lacks (N.eqb sep) l = true -> split sep l = [l].
Proof.
  induction l as [|c l IH]; intros H; [reflexivity|].
  unfold lacks in H. cbn [forallb] in H. apply andb_true_iff in H as [Hc Hl].
  apply negb_true_iff in Hc. rewrite N.eqb_sym in Hc.
  cbn [split]. rewrite Hc. now rewrite IH.
Qed.

Lemma split_join (sep : char) (parts : list jsstring) :
  parts <> [] -> Forall (fun l => lacks (N.eqb sep) l = true) parts ->
  split sep (join [sep] parts) = parts.
Proof.
  intros Hne H. induction H as [|l parts Hl Hparts IH]; [congruence|].
  destruct parts as [|l' parts].
  - cbn [join]. now apply split_last_line.
  - change (join [sep] (l :: l' :: parts)) with (l ++ sep :: join [sep] (l' :: parts)).
    rewrite split_line by assumption. f_equal. apply IH. discriminate.
Qed.

Lemma lacks_app_intro (p : char -> bool) (a b : jsstring) :
  lacks p a = true -> lacks p b = true -> lacks p (a ++ b) = true.
Proof. unfold lacks. rewrite forallb_app. intros -> ->. reflexivity. Qed.

Lemma decimal_digits (n : nat) : forallb is_digit (decimal n) = true.
Proof.
  unfold decimal. generalize (Nat.to_uint n). intros u.
  induction u; cbn [NilEmpty.string_of_uint]; try reflexivity;
    unfold str in *; cbn [list_ascii_of_string map forallb];
    rewrite IHu; reflexivity.
Qed.

Lemma lacks_digits (p : char -> bool) (s : jsstring) :
  (forall c, is_digit c = true -> p c = false) ->
  forallb is_digit s = true -> lacks p s = true.
Proof.
  intros Hp H. unfold lacks. rewrite forallb_forall in *. intros c Hc.
  now rewrite Hp by auto.
Qed.

Lemma digit_not_cr (c : char) : is_digit c = true -> N.eqb 13%N c = false.
Proof.
  unfold is_digit, char_in. intros H. apply andb_true_iff in H as [H _].
  apply N.leb_le in H. apply N.eqb_neq. cbn in H. lia.
Qed.

Lemma digit_not_lf (c : char) : is_digit c = true -> N.eqb 10%N c = false.
Proof.
  unfold is_digit, char_in. intros H. apply andb_true_iff in H as [H _].
  apply N.leb_le in H. apply N.eqb_neq. cbn in H. lia.
Qed.

Lemma Forall_mapi_from {A : Type} (P : jsstring -> Prop) (f : nat -> A -> jsstring)
  (l : list A) :
  (forall i x, P (f i x)) -> forall i, Forall P (mapi_from i f l).
Proof.
  intros H. induction l as [|x l IH]; intros i; cbn [mapi_from]; constructor; auto.
Qed.

Lemma substring_selection (s : jsstring) (a b : nat) :
  a <= b -> b <= length s ->
  substring s a b = firstn (b - a) (skipn a s).
Proof.
  intros H1 H2. unfold substring.
  rewrite (Nat.min_l a), (Nat.min_l b) by lia.
  now rewrite Nat.min_l, Nat.max_r by lia.
Qed.

Lemma substring_before (s : jsstring) (a : nat) :
  substring s 0 a = firstn a s.
Proof.
  unfold substring. cbn [Nat.min skipn]. rewrite Nat.max_0_l, Nat.sub_0_r.
  destruct (Nat.le_ge_cases a (length s)) as [H|H].
  - now rewrite Nat.min_l.
  - rewrite Nat.min_r by assumption. now rewrite !firstn_all2 by lia.
Qed.

(** The offsets of the switch stay within the text it builds, and the text
    has a carriage return only if the selection has one. *)
Lemma style_text_shape (style sel newText : jsstring) (offset : nat) :
  style_text style sel = Some (newText, offset) ->
  offset <= length newText
  /\ (lacks (N.eqb 13%N) sel = true -> lacks (N.eqb 13%N) newText = true).
Proof.
  unfold style_text. intros H.
  repeat match type of H with
         | (if ?b then _ else _) = _ => destruct b
         end;
    try discriminate;
    match type of H with
    | Some (?t, ?o) = _ =>
        assert (Et : newText = t) by congruence;
        assert (Eo : offset = o) by congruence;
        clear H; subst newText offset
    end.
  - split.
    + rewrite !length_app. destruct sel; cbn; lia.
    + intros Hs. now repeat apply lacks_app_intro.
  - split.
    + rewrite !length_app. destruct sel; cbn; lia.
    + intros Hs. now repeat apply lacks_app_intro.
  - split.
    + destruct sel as [|c sel]; [cbn; lia|]. cbn [truthy]. lia.
    + intros Hs. destruct (includes nl sel); now repeat apply lacks_app_intro.
  - split; [lia|]. intros Hs. apply lacks_join; [reflexivity|].
    apply Forall_map. eapply Forall_impl; [|apply (lacks_split _ 10%N _ Hs)].
    cbn beta. intros l Hl. destruct (truthy (trim l)); [|reflexivity].
    now apply lacks_app_intro.
  - split; [lia|]. intros Hs. apply lacks_join; [reflexivity|].
    assert (G : forall i, Forall (fun l => lacks (N.eqb 13%N) l = true)
                  (mapi_from i (fun index line =>
                        if truthy (trim line)
                        then decimal (index + 1) ++ str ". " ++ line else [])
                     (split 10%N sel))).
    { pose proof (lacks_split _ 10%N _ Hs) as F.
      induction F as [|l ls Hl _ IH]; intros i; cbn [mapi_from]; constructor.
      - destruct (truthy (trim l)); [|reflexivity].
        repeat apply lacks_app_intro; try assumption; try reflexivity.
        apply lacks_digits; [exact digit_not_cr | apply decimal_digits].
      - apply IH. }
    apply G.
  - split; [lia|]. intros Hs. apply lacks_join; [reflexivity|].
    apply Forall_map. eapply Forall_impl; [|apply (lacks_split _ 10%N _ Hs)].
    cbn beta. intros l Hl. now apply lacks_app_intro.
  - split.
    + rewrite !length_app. destruct sel; cbn; lia.
    + intros Hs. destruct sel; now repeat apply lacks_app_intro.
  - split.
    + rewrite !length_app. destruct sel; cbn; lia.
    + intros Hs. destruct sel; now repeat apply lacks_app_intro.
Qed.

(** ** The formatting buttons *)

(** X1.  [applyStyle] replaces the selection and nothing else: for every
    style of the switch and every selection of a body, the text before and
    after the selection is kept around the new text, the cursor offset is
    at most the length of the new text, and the cursor is put that many
    characters before its end. *)
Theorem applyStyle_replaces_selection (style value : jsstring) (start end_ : nat)
  (newText : jsstring) (offset : nat) :
  start <= end_ -> end_ <= length value ->
  lacks (N.eqb 13%N) value = true ->
  style_text style (substring value start end_) = Some (newText, offset) ->
  offset <= length newText
  /\ restyle style value start end_
     = Some (firstn start value ++ newText ++ skipn end_ value,
             start + length newText - offset).
Proof.
  intros H1 H2 Hcr Hs. destruct (style_text_shape _ _ _ _ Hs) as [Ho Hl].
  split; [exact Ho|]. unfold restyle. rewrite Hs.
  rewrite substring_before. rewrite normalize_newlines_id.
  - replace (start + length newText <? offset) with false
      by (symmetry; apply Nat.ltb_ge; lia).
    rewrite Nat.min_l; [reflexivity|].
    rewrite !length_app, length_firstn. lia.
  - repeat apply lacks_app_intro.
    + now apply lacks_firstn.
    + apply Hl. now apply lacks_substring.
    + now apply lacks_skipn.
Qed.

Lemma applyStyle_replaces_selection_witness :
  3 <= length (str "[docs](url)")
  /\ restyle (str "link") (str "see docs here") 4 8
     = Some (str "see [docs](url) here", 4 + length (str "[docs](url)") - 3).
Proof.
  apply (applyStyle_replaces_selection (str "link") (str "see docs here") 4 8);
    try reflexivity; simpl; lia.
Defined.

Lemma nth_error_mapi_from {A B : Type} (f : nat -> A -> B) (l : list A) :
  forall i k, nth_error (mapi_from i f l) k = option_map (f (i + k)) (nth_error l k).
Proof.
  induction l as [|x l IH]; intros i [|k]; cbn [mapi_from nth_error option_map];
    try reflexivity.
  - now rewrite Nat.add_0_r.
  - rewrite IH. now rewrite Nat.add_succ_r.
Qed.

Lemma length_mapi_from {A B : Type} (f : nat -> A -> B) (l : list A) :
  forall i, length (mapi_from i f l) = length l.
Proof. induction l; intros i; cbn [mapi_from length]; auto. Qed.

Lemma mapi_from_nil {A B : Type} (f : nat -> A -> B) (l : list A) (i : nat) :
  mapi_from i f l = [] -> l = [].
Proof. destruct l; [reflexivity | discriminate]. Qed.

Lemma split_nonempty (sep : char) (s : jsstring) : split sep s <> [].
Proof. destruct (split_cons sep s) as (l & ls & ->). discriminate. Qed.

Lemma bullet_line_one_line (l : jsstring) :
  lacks (N.eqb 10%N) l = true -> lacks (N.eqb 10%N) (bullet_line l) = true.
Proof.
  intros H. unfold bullet_line. destruct (truthy (trim l)); [|reflexivity].
  now apply lacks_app_intro.
Qed.

Lemma number_line_one_line (i : nat) (l : jsstring) :
  lacks (N.eqb 10%N) l = true -> lacks (N.eqb 10%N) (number_line i l) = true.
Proof.
  intros H. unfold number_line. destruct (truthy (trim l)); [|reflexivity].
  repeat apply lacks_app_intro; try assumption; try reflexivity.
  apply lacks_digits; [exact digit_not_lf | apply decimal_digits].
Qed.

Lemma number_lines_one_line (ls : list jsstring) :
  Forall (fun l => lacks (N.eqb 10%N) l = true) ls ->
  forall i, Forall (fun l => lacks (N.eqb 10%N) l = true)
                   (mapi_from i number_line ls).
Proof.
  induction 1 as [|l ls Hl _ IH]; intros i; cbn [mapi_from]; constructor;
    [now apply number_line_one_line | apply IH].
Qed.

(** X2.  The bullet and number styles work line by line: the result has as
    many lines as the selection; a blank line becomes empty; any other line
    gets its marker, and the number is the position of the line in the
    selection, blank lines counted. *)
Theorem list_styles_mark_lines_by_position (selectedText : jsstring) :
  exists bullets numbers,
    style_text (str "bullet") selectedText = Some (bullets, 0)
    /\ style_text (str "number") selectedText = Some (numbers, 0)
    /\ length (split 10%N bullets) = length (split 10%N selectedText)
    /\ length (split 10%N numbers) = length (split 10%N selectedText)
    /\ forall i line,
         nth_error (split 10%N selectedText) i = Some line ->
         nth_error (split 10%N bullets) i
         = Some (if truthy (trim line) then str "- " ++ line else [])
         /\ nth_error (split 10%N numbers) i
            = Some (if truthy (trim line)
                    then decimal (i + 1) ++ str ". " ++ line else []).
Proof.
  exists (join nl (map bullet_line (split 10%N selectedText))),
         (join nl (mapi_from 0 number_line (split 10%N selectedText))).
  split; [reflexivity|]. split; [reflexivity|].
  pose proof (split_lines_sep_free 10%N selectedText) as F.
  pose proof (split_nonempty 10%N selectedText) as Hne.
  assert (Eb : split 10%N (join nl (map bullet_line (split 10%N selectedText)))
               = map bullet_line (split 10%N selectedText)).
  { apply (split_join 10%N).
    - intros E. apply map_eq_nil in E. contradiction.
    - apply Forall_map. eapply Forall_impl; [|exact F].
      intros l. apply bullet_line_one_line. }
  assert (En : split 10%N (join nl (mapi_from 0 number_line (split 10%N selectedText)))
               = mapi_from 0 number_line (split 10%N selectedText)).
  { apply (split_join 10%N).
    - intros E. apply mapi_from_nil in E. contradiction.
    - now apply number_lines_one_line. }
  rewrite Eb, En, length_map, length_mapi_from.
  split; [reflexivity|]. split; [reflexivity|].
  intros i line H. rewrite nth_error_map, nth_error_mapi_from, H.
  split; reflexivity.
Qed.

(** X3.  The quote style loses nothing: taking the two characters of the
    marker off every line of the quoted text gives the selection back. *)
Theorem quote_style_is_lossless (selectedText : jsstring) :
  exists quoted,
    style_text (str "quote") selectedText = Some (quoted, 0)
    /\ join nl (map (skipn 2) (split 10%N quoted)) = selectedText.
Proof.
  exists (join nl (map (fun line => str "> " ++ line) (split 10%N selectedText))).
  split; [reflexivity|].
  rewrite (split_join 10%N).
  - rewrite map_map. cbn [str list_ascii_of_string map app skipn].
    rewrite map_id. apply join_split.
  - intros E. apply map_eq_nil in E. now apply split_nonempty in E.
  - apply Forall_map.
    eapply Forall_impl; [|apply (split_lines_sep_free 10%N selectedText)].
    cbn beta. intros l Hl. now apply lacks_app_intro.
Qed.

Lemma map_bullets_non_blank (ls : list jsstring) :
  forallb (fun line => truthy (trim line)) ls = true ->
  map (fun line => if truthy (trim line) then str "- " ++ line else []) ls
  = map (fun line => str "- " ++ line) ls.
Proof.
  induction ls as [|l ls IH]; [reflexivity|]. cbn [forallb map].
  intros H. apply andb_true_iff in H as [-> H]. now rewrite IH.
Qed.

Lemma mapi_numbers_non_blank (ls : list jsstring) :
  forallb (fun line => truthy (trim line)) ls = true ->
  forall i,
    mapi_from i (fun index line =>
                   if truthy (trim line)
                   then decimal (index + 1) ++ str ". " ++ line else []) ls
    = mapi_from i (fun index line => decimal (index + 1) ++ str ". " ++ line) ls.
Proof.
  induction ls as [|l ls IH]; [reflexivity|]. cbn [forallb mapi_from].
  intros H i. apply andb_true_iff in H as [-> H]. now rewrite IH.
Qed.

Ltac decide_styles :=
  repeat match goal with
         | |- context [eqb_str (str ?a) (str ?b)] =>
             let v := eval vm_compute in (eqb_str (str a) (str b)) in
             change (eqb_str (str a) (str b)) with v
         | H : context [eqb_str (str ?a) (str ?b)] |- _ =>
             let v := eval vm_compute in (eqb_str (str a) (str b)) in
             change (eqb_str (str a) (str b)) with v in H
         end.

Ltac style_case name :=
  let E := fresh "E" in
  destruct (eqb_str _ (str name)) eqn:E;
  [apply eqb_str_eq in E; subst; decide_styles|].

Lemma style_text_agrees (style sel : jsstring) :
  same_in_both_scripts style sel = true ->
  option_map fst (style_text style sel) = Some (Legacy.style_text style sel).
Proof.
  unfold same_in_both_scripts, style_text, Legacy.style_text, non_blank_lines.
  intros H.
  style_case "bold"%string; [reflexivity|].
  style_case "italic"%string; [reflexivity|].
  style_case "code"%string.
  { cbn [orb andb] in H. rewrite orb_false_r in H.
    apply negb_true_iff in H. now rewrite H. }
  style_case "bullet"%string.
  { cbn [orb andb option_map fst] in *. now rewrite map_bullets_non_blank. }
  style_case "number"%string.
  { cbn [orb andb option_map fst] in *. now rewrite mapi_numbers_non_blank. }
  style_case "quote"%string; [reflexivity|].
  discriminate.
Qed.

(** X4.  The legacy [applyStyle] and the one of the application leave the
    same text in the body for bold, italic and quote, for code on a
    selection of one line, and for bullet and number on a selection without
    blank line. *)
Theorem legacy_applyStyle_agrees (style value : jsstring) (start end_ : nat) :
  same_in_both_scripts style (substring value start end_) = true ->
  option_map fst (restyle style value start end_)
  = Some (Legacy.restyle style value start end_).
Proof.
  intros H. apply style_text_agrees in H. unfold restyle, Legacy.restyle.
  destruct (style_text style (substring value start end_)) as [[t o]|];
    [|discriminate].
  cbn [option_map fst] in *. now injection H as ->.
Qed.

Lemma legacy_applyStyle_agrees_witness :
  same_in_both_scripts (str "bullet")
    (substring (str "to do:" ++ nl ++ str "one" ++ nl ++ str "two") 7 14) = true
  /\ option_map fst
       (restyle (str "bullet")
          (str "to do:" ++ nl ++ str "one" ++ nl ++ str "two") 7 14)
     = Some (Legacy.restyle (str "bullet")
               (str "to do:" ++ nl ++ str "one" ++ nl ++ str "two") 7 14).
Proof.
  split; [reflexivity|].
  apply legacy_applyStyle_agrees. reflexivity.
Defined.

(** X5.  A style the legacy switch does not name, [link] and [image]
    included, makes the legacy [applyStyle] delete the selection; the
    application's [applyStyle] leaves page and selection as they are for
    every style its own switch does not name. *)
Theorem legacy_applyStyle_unknown_style (style value : jsstring) (start end_ : nat) :
  existsb (eqb_str style) legacy_styles = false ->
  start <= end_ -> end_ <= length value ->
  lacks (N.eqb 13%N) value = true ->
  Legacy.restyle style value start end_ = firstn start value ++ skipn end_ value
  /\ (eqb_str style (str "link") = false ->
      eqb_str style (str "image") = false ->
      forall pg, applyStyle style pg start end_ = Ok (pg, (start, end_))).
Proof.
  unfold legacy_styles. cbn [existsb]. intros H H1 H2 Hcr.
  repeat (apply orb_false_iff in H; destruct H as [? H]).
  split.
  - unfold Legacy.restyle, Legacy.style_text.
    repeat match goal with E : eqb_str style _ = false |- _ => rewrite E; clear E end.
    cbn [app]. rewrite substring_before. apply normalize_newlines_id.
    apply lacks_app_intro; [now apply lacks_firstn | now apply lacks_skipn].
  - intros Hl Hi pg. unfold applyStyle, restyle, style_text.
    repeat match goal with E : eqb_str style _ = false |- _ => rewrite E; clear E end.
    reflexivity.
Qed.

Lemma legacy_applyStyle_unknown_style_witness :
  Legacy.restyle (str "link") (str "see the docs") 8 12 = str "see the ".
Proof.
  apply (proj1 (legacy_applyStyle_unknown_style (str "link") (str "see the docs") 8 12
                  eq_refl ltac:(cbn; lia) ltac:(cbn; lia) eq_refl)).
Defined.

(** ** The activity log *)

Lemma children_app (a b : list Node) : children (a ++ b) = children a ++ children b.
Proof. apply filter_app. Qed.

Lemma children_count_cons (n : Node) (l : list Node) :
  length (children (n :: l)) <= S (length (children l)).
Proof. unfold children. cbn [filter]. destruct (is_element n); cbn [length]; lia. Qed.

(** The loop stops with at most ten elements, drops nodes from the end
    only, and stops at ten elements exactly once it has dropped a node. *)
Lemma drop_while_over_ten_spec (reversed : list Node) :
  exists dropped,
    reversed = dropped ++ drop_while_over_ten reversed
    /\ length (children (drop_while_over_ten reversed)) <= 10
    /\ (dropped <> [] -> length (children (drop_while_over_ten reversed)) = 10).
Proof.
  induction reversed as [|n r (dropped & E & Hb & Hx)].
  - exists []. cbn. repeat split; [lia | congruence].
  - cbn [drop_while_over_ten].
    destruct (10 <? length (children (n :: r))) eqn:Hl.
    + apply Nat.ltb_lt in Hl. exists (n :: dropped).
      split; [cbn [app]; now rewrite <- E|]. split; [exact Hb|].
      intros _. destruct dropped as [|d dropped].
      * cbn [app] in E. rewrite <- E in *.
        pose proof (children_count_cons n r). lia.
      * apply Hx. discriminate.
    + apply Nat.ltb_ge in Hl. exists []. repeat split; [exact Hl | congruence].
Qed.

Lemma drop_while_over_ten_last (r : list Node) (n : Node) :
  exists kept, drop_while_over_ten (r ++ [n]) = kept ++ [n].
Proof.
  induction r as [|m r (kept & E)].
  - exists []. cbn [app drop_while_over_ten].
    replace (10 <? length (children [n])) with false; [reflexivity|].
    symmetry. apply Nat.ltb_ge. pose proof (children_count_cons n []). cbn in *. lia.
  - cbn [app drop_while_over_ten].
    destruct (10 <? length (children (m :: r ++ [n]))).
    + now exists kept.
    + now exists (m :: r).
Qed.

(** X6.  [logActivity] puts the new item first and keeps what follows in
    order, dropping child nodes from the end only: afterwards the log has at
    most ten elements, and exactly ten as soon as anything was dropped. *)
Theorem logActivity_keeps_ten (timeString message : jsstring) (nodes : list Node) :
  exists kept dropped,
    nodes = kept ++ dropped
    /\ logActivity timeString message (Some nodes)
       = Some (ActivityItem message timeString :: kept)
    /\ length (children (ActivityItem message timeString :: kept)) <= 10
    /\ (dropped <> [] ->
        length (children (ActivityItem message timeString :: kept)) = 10).
Proof.
  unfold logActivity. cbn [rev].
  destruct (drop_while_over_ten_last (rev nodes) (ActivityItem message timeString))
    as (kept & Ek).
  destruct (drop_while_over_ten_spec (rev nodes ++ [ActivityItem message timeString]))
    as (dropped & E & Hb & Hx).
  rewrite Ek in *. rewrite app_assoc in E. apply app_inj_tail in E as [E _].
  exists (rev kept), (rev dropped).
  assert (Hc : length (children (ActivityItem message timeString :: rev kept))
               = length (children (kept ++ [ActivityItem message timeString]))).
  { unfold children. rewrite filter_app. cbn [filter is_element].
    rewrite length_app. cbn [length]. rewrite filter_rev, length_rev. lia. }
  split; [|split; [|split]].
  - rewrite <- rev_app_distr, <- E. now rewrite rev_involutive.
  - rewrite rev_app_distr. reflexivity.
  - now rewrite Hc.
  - intros Hd. rewrite Hc. apply Hx. intros ->. now apply Hd.
Qed.

Lemma drop_while_over_ten_elements (r : list Node) :
  forallb is_element r = true ->
  drop_while_over_ten r = skipn (length r - 10) r.
Proof.
  induction r as [|n r IH]; [reflexivity|]. intros H.
  assert (Hc : children (n :: r) = n :: r).
  { unfold children. apply forallb_filter_id. exact H. }
  cbn [drop_while_over_ten]. rewrite Hc.
  cbn [forallb] in H. apply andb_true_iff in H as [_ H].
  destruct (10 <? length (n :: r)) eqn:Hl.
  - apply Nat.ltb_lt in Hl. rewrite IH by assumption. cbn [length] in *.
    replace (S (length r) - 10) with (S (length r - 10)) by lia. reflexivity.
  - apply Nat.ltb_ge in Hl. replace (length (n :: r) - 10) with 0 by lia.
    reflexivity.
Qed.

Lemma firstn_ten_elements (l : list Node) :
  forallb is_element l = true ->
  rev (drop_while_over_ten (rev l)) = firstn 10 l.
Proof.
  intros H. rewrite drop_while_over_ten_elements.
  - rewrite skipn_rev, rev_involutive, length_rev.
    destruct (Nat.le_ge_cases (length l) 10) as [Hl|Hl].
    + replace (length l - (length l - 10)) with (length l) by lia.
      now rewrite !firstn_all2 by lia.
    + f_equal. lia.
  - rewrite forallb_forall in *. intros n Hn. apply H. now apply in_rev.
Qed.

Lemma forallb_firstn {A : Type} (p : A -> bool) (n : nat) (l : list A) :
  forallb p l = true -> forallb p (firstn n l) = true.
Proof.
  intros H. rewrite <- (firstn_skipn n l), forallb_app in H.
  now apply andb_true_iff in H.
Qed.

(** X7.  A log that starts empty shows the ten latest activities, the
    newest first, however many were logged. *)
Theorem activity_log_shows_ten_latest (entries : list (jsstring * jsstring)) :
  fold_left (fun log entry => logActivity (fst entry) (snd entry) log)
            entries (Some [])
  = Some (firstn 10 (map item_of (rev entries))).
Proof.
  induction entries as [|e entries IH] using rev_ind; [reflexivity|].
  rewrite fold_left_app. cbn [fold_left]. rewrite IH. unfold logActivity.
  rewrite rev_app_distr. cbn [rev app map]. fold (item_of e).
  change (rev (firstn 10 (map item_of (rev entries))) ++ [item_of e])
    with (rev (item_of e :: firstn 10 (map item_of (rev entries)))).
  rewrite firstn_ten_elements.
  - rewrite !(firstn_cons 9). rewrite firstn_firstn. reflexivity.
  - cbn [forallb]. replace (is_element (item_of e)) with true by reflexivity.
    cbn [andb]. apply forallb_firstn. apply forallb_forall. intros n Hn.
    apply in_map_iff in Hn as (x & <- & _). reflexivity.
Qed.

(** ** The user id *)

(** X8.  [getUserId] settles on one id: the id it returns is never empty
    and is the one stored afterwards, a stored non-empty id is kept, and
    every later call returns the same id and leaves the storage alone,
    whatever the random source gives. *)
Theorem getUserId_settles (random : jsstring) (stored : option jsstring) :
  truthy (fst (getUserId random stored)) = true
  /\ snd (getUserId random stored) = Some (fst (getUserId random stored))
  /\ (truthy_opt stored = true -> snd (getUserId random stored) = stored)
  /\ forall random',
       getUserId random' (snd (getUserId random stored))
       = getUserId random stored.
Proof.
  unfold getUserId. destruct stored as [[|c s]|]; cbn; repeat split;
    intros; try discriminate; reflexivity.
Qed.

(** ** More on submitting *)

Lemma handle_response_requests (app : App) (title : jsstring) (res : FetchResult) :
  filter is_request (snd (handle_response app title res)) = [].
Proof.
  destruct res as [msg|status [result|]]; try reflexivity.
  cbn [handle_response]. destruct (r_success result); reflexivity.
Qed.

Lemma handle_response_state (app : App) (title : jsstring) (res : FetchResult) :
  fst (handle_response app title res)
  = if existsb is_success_report (snd (handle_response app title res))
    then without_draft app else app.
Proof.
  destruct res as [msg|status [result|]]; try reflexivity.
  cbn [handle_response]. destruct (r_success result); reflexivity.
Qed.

(** X9.  [createIssue] sends at most two requests, both with the same
    data: one to the main endpoint and, only when that [fetch] was rejected,
    one to the compatibility endpoint.  This holds for every form, also
    when the substitution throws (then nothing is sent); and [createIssue]
    returns on every form whose field names give patterns of the embedded
    fragment. *)
Theorem createIssue_falls_back_once (main compat : IssueData -> FetchResult)
  (app : App) :
  (field_names_in_model (template_fields (page app)) = true ->
   exists app' evs, createIssue main compat app = Ok (app', evs))
  /\ forall app' evs,
       createIssue main compat app = Ok (app', evs) ->
       filter is_request evs = []
       \/ (exists d,
             (forall msg, main d <> NetworkError msg)
             /\ filter is_request evs = [EvFetch createIssue_endpoint d])
       \/ (exists d msg,
             main d = NetworkError msg
             /\ filter is_request evs
                = [EvFetch createIssue_endpoint d;
                   EvFetch createIssueCompat_endpoint d]).
Proof.
  split; [apply createIssue_returns|].
  intros app' evs. unfold createIssue.
  destruct (negb _); [intros H; injection H as <- <-; now left|].
  destruct (negb (truthy (trim (issue_title (page app)))));
    [intros H; injection H as <- <-; now left|].
  destruct (negb (truthy (trim (issue_body (page app)))));
    [intros H; injection H as <- <-; now left|].
  destruct (find _ _); [intros H; injection H as <- <-; now left|].
  destruct (finalBody _ _) as [final|msg|w];
    [|intros H; injection H as <- <-; now left|discriminate].
  set (d := mkIssueData _ _ _ _ _ _).
  destruct (main d) as [msg|status json] eqn:Em.
  - pose proof (handle_response_requests app
                  (trim (issue_title (page app))) (compat d)) as Hr.
    destruct (handle_response app _ (compat d)) as [a e].
    intros H; injection H as <- <-. right; right.
    exists d, msg. split; [exact Em|]. cbn [filter is_request snd] in *.
    now rewrite Hr.
  - pose proof (handle_response_requests app
                  (trim (issue_title (page app))) (Response status json)) as Hr.
    destruct (handle_response app _ (Response status json)) as [a e].
    intros H; injection H as <- <-. right; left.
    exists d. split; [intros msg; rewrite Em; discriminate|].
    cbn [filter is_request snd] in *. now rewrite Hr.
Qed.

Lemma createIssue_falls_back_once_witness :
  (exists app' evs, createIssue unreachable accepting dotted_app = Ok (app', evs))
  /\ (filter is_request (events_of (createIssue unreachable accepting dotted_app))
      = []
      \/ (exists d,
            (forall msg, unreachable d <> NetworkError msg)
            /\ filter is_request
                 (events_of (createIssue unreachable accepting dotted_app))
               = [EvFetch createIssue_endpoint d])
      \/ (exists d msg,
            unreachable d = NetworkError msg
            /\ filter is_request
                 (events_of (createIssue unreachable accepting dotted_app))
               = [EvFetch createIssue_endpoint d;
                  EvFetch createIssueCompat_endpoint d])).
Proof.
  split.
  - apply (proj1 (createIssue_falls_back_once unreachable accepting dotted_app)).
    reflexivity.
  - apply (proj2 (createIssue_falls_back_once unreachable accepting dotted_app)
             (without_draft dotted_app)).
    reflexivity.
Defined.

(** X10.  [createIssue] changes nothing of the application but the draft:
    the draft is removed exactly when success is reported, and user,
    repository, token, template and page stay as they were.  This holds on
    every form, also when the substitution throws; and [createIssue]
    returns on every form whose field names give patterns of the embedded
    fragment. *)
Theorem createIssue_only_removes_draft (main compat : IssueData -> FetchResult)
  (app : App) :
  (field_names_in_model (template_fields (page app)) = true ->
   exists app' evs, createIssue main compat app = Ok (app', evs))
  /\ forall app' evs,
       createIssue main compat app = Ok (app', evs) ->
       app' = if existsb is_success_report evs then without_draft app else app.
Proof.
  split; [apply createIssue_returns|].
  intros app' evs. unfold createIssue.
  destruct (negb _); [intros H; now injection H as <- <-|].
  destruct (negb (truthy (trim (issue_title (page app)))));
    [intros H; now injection H as <- <-|].
  destruct (negb (truthy (trim (issue_body (page app)))));
    [intros H; now injection H as <- <-|].
  destruct (find _ _); [intros H; now injection H as <- <-|].
  destruct (finalBody _ _) as [final|msg|w];
    [|intros H; now injection H as <- <-|discriminate].
  set (d := mkIssueData _ _ _ _ _ _).
  destruct (main d) as [msg|status json] eqn:Em.
  - pose proof (handle_response_state app
                  (trim (issue_title (page app))) (compat d)) as Hr.
    destruct (handle_response app _ (compat d)) as [a e].
    intros H; injection H as <- <-. exact Hr.
  - pose proof (handle_response_state app
                  (trim (issue_title (page app))) (Response status json)) as Hr.
    destruct (handle_response app _ (Response status json)) as [a e].
    intros H; injection H as <- <-. exact Hr.
Qed.

Lemma createIssue_only_removes_draft_witness :
  (exists app' evs, createIssue accepting accepting dotted_app = Ok (app', evs))
  /\ without_draft dotted_app
     = (if existsb is_success_report
             (events_of (createIssue accepting accepting dotted_app))
        then without_draft dotted_app else dotted_app)
  /\ unbalanced_app
     = (if existsb is_success_report
             (events_of (createIssue accepting accepting unbalanced_app))
        then without_draft unbalanced_app else unbalanced_app).
Proof.
  refine (conj _ (conj _ _)).
  - apply (proj1 (createIssue_only_removes_draft accepting accepting dotted_app)).
    reflexivity.
  - apply (proj2 (createIssue_only_removes_draft accepting accepting dotted_app)).
    reflexivity.
  - apply (proj2 (createIssue_only_removes_draft accepting accepting
                    unbalanced_app)).
    reflexivity.
Defined.

(** ** JSON *)

Lemma hex_value_digit (n : N) : (n < 16)%N -> hex_value (hex_digit n) = Some n.
Proof.
  intros H. unfold hex_digit, hex_value, is_digit, char_in.
  change (ch "0") with 48%N. change (ch "9") with 57%N.
  change (ch "a") with 97%N. change (ch "f") with 102%N.
  change (ch "A") with 65%N. change (ch "F") with 70%N.
  destruct (N.ltb_spec n 10) as [E|E].
  - rewrite (proj2 (N.leb_le 48 (48 + n))) by lia.
    rewrite (proj2 (N.leb_le (48 + n) 57)) by lia.
    cbn [andb]. f_equal. lia.
  - rewrite (proj2 (N.leb_gt (87 + n) 57)) by lia.
    rewrite andb_false_r.
    rewrite (proj2 (N.leb_le 97 (87 + n))) by lia.
    rewrite (proj2 (N.leb_le (87 + n) 102)) by lia.
    cbn [andb]. f_equal. lia.
Qed.

Lemma hex_digits_value (c : N) :
  (c < 65536)%N ->
  ((c / 4096 mod 16) * 4096 + (c / 256 mod 16) * 256
   + (c / 16 mod 16) * 16 + c mod 16 = c)%N.
Proof.
  intros H.
  pose proof (N.div_mod c 16 ltac:(lia)).
  pose proof (N.div_mod (c / 16) 16 ltac:(lia)).
  pose proof (N.div_mod (c / 256) 16 ltac:(lia)).
  pose proof (N.mod_lt c 16 ltac:(lia)).
  pose proof (N.mod_lt (c / 16) 16 ltac:(lia)).
  pose proof (N.mod_lt (c / 256) 16 ltac:(lia)).
  assert (E1 : (c / 256 = c / 16 / 16)%N) by (now rewrite N.Div0.div_div).
  assert (E2 : (c / 4096 = c / 256 / 16)%N) by (now rewrite N.Div0.div_div).
  assert (E3 : (c / 4096 < 16)%N) by (apply N.Div0.div_lt_upper_bound; lia).
  rewrite (N.mod_small (c / 4096)) by assumption.
  rewrite E2 in *. rewrite E1 in *. lia.
Qed.

Lemma parse_unicode_escape (c : char) (x : jsstring) :
  (c < 65536)%N ->
  parse_json_chars (unicode_escape c ++ x) = continue_with c (parse_json_chars x).
Proof.
  intros H. unfold unicode_escape.
  change (str "\u") with [ch "\"; ch "u"]. cbn [app parse_json_chars].
  change (N.eqb (ch "\") 34) with false. cbn iota.
  rewrite !N.eqb_refl.
  rewrite !hex_value_digit by (apply N.mod_lt; lia).
  rewrite hex_digits_value by assumption.
  unfold continue_with. destruct (parse_json_chars x) as [[t r]|]; reflexivity.
Qed.

Lemma parse_short_escape (c e : char) (x : jsstring) :
  short_escape c = Some e ->
  parse_json_chars (ch "\" :: e :: x) = continue_with c (parse_json_chars x).
Proof.
  unfold short_escape. intros H.
  repeat match type of H with
         | (if N.eqb c ?k then _ else _) = _ =>
             destruct (N.eqb_spec c k); [injection H as <-; subst c|]
         end; try discriminate;
    cbn [parse_json_chars]; unfold continue_with;
    destruct (parse_json_chars x) as [[t r]|]; reflexivity.
Qed.

Lemma parse_plain_char (c : char) (x : jsstring) :
  short_escape c = None -> N.ltb c 32%N = false ->
  parse_json_chars (c :: x) = continue_with c (parse_json_chars x).
Proof.
  unfold short_escape. intros H Hc. cbn [parse_json_chars]. rewrite Hc.
  destruct (N.eqb c 8); [discriminate|]. destruct (N.eqb c 9); [discriminate|].
  destruct (N.eqb c 10); [discriminate|]. destruct (N.eqb c 12); [discriminate|].
  destruct (N.eqb c 13); [discriminate|]. destruct (N.eqb c 34); [discriminate|].
  destruct (N.eqb c (ch "\")); [discriminate|]. reflexivity.
Qed.

Lemma surrogate_bounds (c : char) :
  (is_high_surrogate c || is_low_surrogate c)%bool = true -> (c < 65536)%N.
Proof.
  unfold is_high_surrogate, is_low_surrogate, char_in. intros H.
  apply orb_true_iff in H as [H|H]; apply andb_true_iff in H as [_ H];
    apply N.leb_le in H; lia.
Qed.

Lemma surrogate_is_plain (c : char) :
  (is_high_surrogate c || is_low_surrogate c)%bool = true ->
  short_escape c = None /\ N.ltb c 32%N = false.
Proof.
  unfold is_high_surrogate, is_low_surrogate, char_in. intros H.
  assert (G : (55296 <= c)%N).
  { apply orb_true_iff in H as [H|H]; apply andb_true_iff in H as [H _];
      apply N.leb_le in H; lia. }
  split; [|apply N.ltb_ge; lia].
  unfold short_escape. change (ch "b") with 98%N.
  repeat match goal with
         | |- context [N.eqb c ?k] =>
             destruct (N.eqb_spec c k); [subst c; cbn in G; lia|]
         end.
  reflexivity.
Qed.

(** A quoted string is read back as it was, whatever follows the closing
    quote. *)
Lemma parse_quote_chars (s rest : jsstring) :
  parse_json_chars (quote_chars s ++ 34%N :: rest) = Some (s, rest).
Proof.
  assert (G : forall n s, length s <= n ->
                parse_json_chars (quote_chars s ++ 34%N :: rest) = Some (s, rest)).
  { clear s. induction n as [|n IH]; intros [|c s] Hn;
      try (cbn in Hn; lia); try reflexivity.
    cbn [length] in Hn. cbn [quote_chars].
    destruct (short_escape c) as [e|] eqn:Ee.
    - cbn [app]. rewrite (parse_short_escape c e _ Ee), IH by lia. reflexivity.
    - destruct (N.ltb c 32) eqn:Ec.
      + rewrite <- app_assoc, parse_unicode_escape, IH by (try apply N.ltb_lt in Ec; lia).
        reflexivity.
      + destruct (is_high_surrogate c) eqn:Eh.
        * destruct s as [|d s].
          -- rewrite parse_unicode_escape
               by (apply surrogate_bounds; now rewrite Eh).
             reflexivity.
          -- destruct (is_low_surrogate d) eqn:El.
             ++ cbn [app]. rewrite (parse_plain_char c) by assumption.
                destruct (surrogate_is_plain d) as [Hd1 Hd2];
                  [now rewrite El, orb_true_r|].
                rewrite (parse_plain_char d) by assumption.
                rewrite IH by (cbn [length] in Hn; lia). reflexivity.
             ++ rewrite <- app_assoc, parse_unicode_escape, IH
                  by (try (apply surrogate_bounds; now rewrite Eh); lia).
                reflexivity.
        * destruct (is_low_surrogate c) eqn:El.
          -- rewrite <- app_assoc, parse_unicode_escape, IH
               by (try (apply surrogate_bounds; now rewrite El, orb_true_r); lia).
             reflexivity.
          -- cbn [app]. rewrite (parse_plain_char c), IH by (assumption || lia).
             reflexivity. }
  now apply (G (length s)).
Qed.

Lemma skip_space_length (s : jsstring) : length (skip_space s) <= length s.
Proof.
  induction s as [|c s IH]; [apply Nat.le_refl|]. cbn [skip_space].
  destruct (is_json_space c); cbn [length]; lia.
Qed.

Lemma parse_json_chars_length (s text rest : jsstring) :
  parse_json_chars s = Some (text, rest) -> length rest < length s.
Proof.
  assert (G : forall n s text rest, length s <= n ->
                parse_json_chars s = Some (text, rest) -> length rest < length s).
  { clear. induction n as [|n IH]; intros [|c s] text rest Hn H;
      try discriminate; [cbn in Hn; lia|].
    cbn [length] in *. cbn [parse_json_chars] in H.
    destruct (N.eqb c 34); [injection H as _ <-; lia|].
    destruct (N.eqb c (ch "\")).
    - destruct s as [|e s]; [discriminate|]. cbn [length] in *.
      destruct (N.eqb e (ch "u")).
      + destruct s as [|h1 [|h2 [|h3 [|h4 s]]]]; try discriminate.
        cbn [length] in *.
        destruct (hex_value h1), (hex_value h2), (hex_value h3), (hex_value h4);
          try discriminate.
        destruct (parse_json_chars s) as [[t r]|] eqn:E; [|discriminate].
        injection H as _ <-. apply IH in E; lia.
      + destruct (unescape e); [|discriminate].
        destruct (parse_json_chars s) as [[t r]|] eqn:E; [|discriminate].
        injection H as _ <-. apply IH in E; lia.
    - destruct (N.ltb c 32); [discriminate|].
      destruct (parse_json_chars s) as [[t r]|] eqn:E; [|discriminate].
      injection H as _ <-. apply IH in E; lia. }
  intros H. now apply (G (length s)) in H.
Qed.

Lemma span_digits_length (s : jsstring) :
  length (fst (span_digits s)) + length (snd (span_digits s)) = length s.
Proof.
  induction s as [|c s IH]; [reflexivity|]. cbn [span_digits].
  destruct (is_digit c); [|reflexivity].
  destruct (span_digits s) as [d r]. cbn [fst snd length] in *. lia.
Qed.

Lemma parse_json_digits_length (s digits rest : jsstring) :
  parse_json_digits s = Some (digits, rest) -> length rest < length s.
Proof.
  unfold parse_json_digits. pose proof (span_digits_length s) as H.
  destruct (span_digits s) as [[|d ds] r]; [discriminate|].
  intros E. injection E as <- <-. cbn [fst snd length] in H. lia.
Qed.

Lemma parse_json_number_length (s text rest : jsstring) :
  parse_json_number s = Some (text, rest) -> length rest < length s.
Proof.
  unfold parse_json_number.
  set (signed := match s with
                 | c :: s' => if N.eqb c (ch "-") then ([c], s') else ([], s)
                 | [] => ([], s)
                 end).
  assert (H1 : length (snd signed) <= length s).
  { subst signed. destruct s as [|c s]; [apply Nat.le_refl|].
    destruct (N.eqb c (ch "-")); cbn [snd length]; lia. }
  destruct signed as [sign s1]. cbn [snd] in H1.
  set (int := match s1 with
              | c :: s' =>
                  if N.eqb c (ch "0") then Some ([c], s') else parse_json_digits s1
              | [] => None
              end).
  assert (H2 : forall i s2, int = Some (i, s2) -> length s2 < length s1).
  { subst int. intros i s2. destruct s1 as [|c s1']; [discriminate|].
    destruct (N.eqb c (ch "0")).
    - intros E. injection E as _ <-. cbn [length]. lia.
    - apply parse_json_digits_length. }
  destruct int as [[i s2]|]; [|discriminate]. specialize (H2 i s2 eq_refl).
  set (frac := match s2 with
               | c :: s' =>
                   if N.eqb c (ch ".")
                   then match parse_json_digits s' with
                        | Some (digits, rest) => Some (c :: digits, rest)
                        | None => None
                        end
                   else Some ([], s2)
               | [] => Some ([], s2)
               end).
  assert (H3 : forall f s3, frac = Some (f, s3) -> length s3 <= length s2).
  { subst frac. intros f s3. destruct s2 as [|c s2'].
    - intros E. injection E as _ <-. apply Nat.le_refl.
    - destruct (N.eqb c (ch ".")).
      + destruct (parse_json_digits s2') as [[d r]|] eqn:Ed; [|discriminate].
        intros E. injection E as _ <-. apply parse_json_digits_length in Ed.
        cbn [length]. lia.
      + intros E. injection E as _ <-. apply Nat.le_refl. }
  destruct frac as [[f s3]|]; [|discriminate]. specialize (H3 f s3 eq_refl).
  destruct s3 as [|c s3']; [intros E; injection E as _ <-; lia|].
  destruct (N.eqb c (ch "e") || N.eqb c (ch "E"))%bool;
    [|intros E; injection E as _ <-; lia].
  set (esigned := match s3' with
                  | d :: s'' =>
                      if (N.eqb d (ch "+") || N.eqb d (ch "-"))%bool
                      then ([d], s'') else ([], s3')
                  | [] => ([], s3')
                  end).
  assert (H4 : length (snd esigned) <= length s3').
  { subst esigned. destruct s3' as [|d s'']; [apply Nat.le_refl|].
    destruct (N.eqb d (ch "+") || N.eqb d (ch "-"))%bool; cbn [snd length]; lia. }
  destruct esigned as [esign s4]. cbn [snd] in H4.
  destruct (parse_json_digits s4) as [[d r]|] eqn:Ed; [|discriminate].
  intros E. injection E as _ <-. apply parse_json_digits_length in Ed.
  cbn [length] in *. lia.
Qed.

Lemma consumes_shorter {A : Type} (o : outcome (A * jsstring)) (s s' : jsstring) :
  consumes o s -> length s <= length s' -> consumes o s'.
Proof. destruct o as [[a r]| |]; cbn; intros; lia || auto. Qed.

Lemma parse_json_fuel (fuel : nat) :
  (forall s, 2 * length s + 1 <= fuel -> consumes (parse_json_value fuel s) s)
  /\ (forall s, 2 * length s + 2 <= fuel -> consumes (parse_json_members fuel s) s)
  /\ (forall s, 2 * length s + 2 <= fuel -> consumes (parse_json_elements fuel s) s).
Proof.
  induction fuel as [|fuel (IHv & IHm & IHe)].
  { repeat split; intros s H; lia. }
  split; [|split]; intros s H.
  - (* a value *)
    destruct s as [|c s]; [exact I|]. cbn [length] in H.
    cbn [parse_json_value].
    destruct (N.eqb c 34).
    { destruct (parse_json_chars s) as [[t r]|] eqn:E; [|exact I].
      apply parse_json_chars_length in E. cbn [consumes length]. lia. }
    destruct (N.eqb c (ch "{")).
    { pose proof (skip_space_length s) as Hs.
      destruct (skip_space s) as [|d rest]; [exact I|]. cbn [length] in Hs.
      destruct (N.eqb d (ch "}")); [cbn [consumes length]; lia|].
      specialize (IHm (d :: rest)). cbn [length] in IHm.
      specialize (IHm ltac:(lia)).
      destruct (parse_json_members fuel (d :: rest)) as [[ms r]| |];
        cbn [bind consumes fst snd length] in *; auto; lia. }
    destruct (N.eqb c (ch "[")).
    { pose proof (skip_space_length s) as Hs.
      destruct (skip_space s) as [|d rest]; [exact I|]. cbn [length] in Hs.
      destruct (N.eqb d (ch "]")); [cbn [consumes length]; lia|].
      specialize (IHe (d :: rest)). cbn [length] in IHe.
      specialize (IHe ltac:(lia)).
      destruct (parse_json_elements fuel (d :: rest)) as [[ms r]| |];
        cbn [bind consumes fst snd length] in *; auto; lia. }
    destruct (starts_with (str "true") (c :: s));
      [cbn [consumes]; rewrite length_skipn; cbn [length]; lia|].
    destruct (starts_with (str "false") (c :: s));
      [cbn [consumes]; rewrite length_skipn; cbn [length]; lia|].
    destruct (starts_with (str "null") (c :: s));
      [cbn [consumes]; rewrite length_skipn; cbn [length]; lia|].
    destruct (parse_json_number (c :: s)) as [[t r]|] eqn:E; [|exact I].
    apply parse_json_number_length in E. exact E.
  - (* the members of an object *)
    cbn [parse_json_members].
    destruct s as [|c s1]; [exact I|]. cbn [length] in H.
    destruct (N.eqb c 34); [|exact I].
    destruct (parse_json_chars s1) as [[key s2]|] eqn:E; [|exact I].
    apply parse_json_chars_length in E.
    pose proof (skip_space_length s2) as Hs2.
    destruct (skip_space s2) as [|colon s3]; [exact I|]. cbn [length] in Hs2.
    destruct (N.eqb colon (ch ":")); [|exact I].
    pose proof (skip_space_length s3) as Hs3.
    specialize (IHv (skip_space s3) ltac:(lia)).
    destruct (parse_json_value fuel (skip_space s3)) as [[v r]| |];
      cbn [bind consumes fst snd] in *; auto.
    pose proof (skip_space_length r) as Hr.
    destruct (skip_space r) as [|d s4]; [exact I|]. cbn [length] in Hr.
    destruct (N.eqb d (ch ",")).
    { pose proof (skip_space_length s4) as Hs4.
      specialize (IHm (skip_space s4) ltac:(lia)).
      destruct (parse_json_members fuel (skip_space s4)) as [[ms r']| |];
        cbn [bind consumes fst snd length] in *; auto; lia. }
    destruct (N.eqb d (ch "}")); [|exact I]. cbn [consumes length]. lia.
  - (* the elements of an array *)
    cbn [parse_json_elements].
    specialize (IHv s ltac:(lia)).
    destruct (parse_json_value fuel s) as [[v r]| |];
      cbn [bind consumes fst snd] in *; auto.
    pose proof (skip_space_length r) as Hr.
    destruct (skip_space r) as [|d s1]; [exact I|]. cbn [length] in Hr.
    destruct (N.eqb d (ch ",")).
    { pose proof (skip_space_length s1) as Hs1.
      specialize (IHe (skip_space s1) ltac:(lia)).
      destruct (parse_json_elements fuel (skip_space s1)) as [[ms r']| |];
        cbn [bind consumes fst snd length] in *; auto; lia. }
    destruct (N.eqb d (ch "]")); [|exact I]. cbn [consumes length]. lia.
Qed.

(** [JSON_parse] follows every text to its end: it returns a value or
    throws. *)
Lemma JSON_parse_in_model (text : jsstring) :
  (exists v, JSON_parse text = Ok v) \/ (exists msg, JSON_parse text = Throws msg).
Proof.
  unfold JSON_parse.
  pose proof (proj1 (parse_json_fuel (S (2 * length text))) (skip_space text)) as H.
  pose proof (skip_space_length text) as Hs. specialize (H ltac:(lia)).
  destruct (parse_json_value _ _) as [[v r]|m|w]; cbn [bind consumes fst snd] in *.
  - destruct (skip_space r); [left; eauto | right; unfold json_syntax_error; eauto].
  - right. eauto.
  - contradiction.
Qed.

Lemma parse_flat_value (v : json) (fuel : nat) (rest : jsstring) :
  flat_value v = true ->
  parse_json_value (S fuel) (JSON_stringify v ++ rest) = Ok (v, rest)
  /\ skip_space (JSON_stringify v ++ rest) = JSON_stringify v ++ rest.
Proof.
  destruct v as [|[|]|t|s|items|members]; try discriminate; intros _;
    try (split; reflexivity).
  split; [|reflexivity].
  cbn [JSON_stringify]. unfold quote_json, dq. rewrite <- !app_assoc.
  cbn [app parse_json_value]. rewrite N.eqb_refl.
  now rewrite parse_quote_chars.
Qed.

Lemma member_text_head (member : jsstring * json) (x : jsstring) :
  exists y, member_text member ++ x = 34%N :: y.
Proof. unfold member_text, quote_json, dq. cbn [app]. eauto. Qed.

Lemma parse_member (fuel : nat) (key : jsstring) (v : json) (x : jsstring) :
  flat_value v = true ->
  parse_json_members (S (S fuel)) (member_text (key, v) ++ x)
  = match skip_space x with
    | d :: s4 =>
        if N.eqb d (ch ",") then
          more <- parse_json_members (S fuel) (skip_space s4) ;;
          Ok ((key, v) :: fst more, snd more)
        else if N.eqb d (ch "}") then Ok ([(key, v)], s4)
        else json_syntax_error
    | [] => json_syntax_error
    end.
Proof.
  intros Hv. unfold member_text, quote_json, dq. cbn [fst snd].
  rewrite <- !app_assoc. cbn [app].
  change (parse_json_members (S (S fuel)) (34%N :: ?s))
    with (parse_json_members (S (S fuel)) (34%N :: s)).
  cbn [parse_json_members]. rewrite N.eqb_refl.
  rewrite parse_quote_chars.
  change (str ":" ++ ?y) with (ch ":" :: y). cbn [app].
  change (skip_space (ch ":" :: ?y)) with (ch ":" :: y).
  cbn iota. rewrite N.eqb_refl.
  destruct (parse_flat_value v fuel x Hv) as [E1 E2].
  rewrite E2, E1. reflexivity.
Qed.

Lemma skip_space_member (member : jsstring * json) (x : jsstring) :
  skip_space (member_text member ++ x) = member_text member ++ x.
Proof. destruct (member_text_head member x) as (y & ->). reflexivity. Qed.

Lemma skip_space_members (m : jsstring * json) (members : list (jsstring * json))
  (x : jsstring) :
  skip_space (join (str ",") (map member_text (m :: members)) ++ x)
  = join (str ",") (map member_text (m :: members)) ++ x.
Proof.
  destruct members as [|m' members].
  - apply skip_space_member.
  - change (join (str ",") (map member_text (m :: m' :: members)))
      with (member_text m ++ str "," ++ join (str ",") (map member_text (m' :: members))).
    rewrite <- app_assoc. apply skip_space_member.
Qed.

Lemma parse_flat_members (members : list (jsstring * json)) :
  members <> [] -> flat_members members = true ->
  forall fuel rest,
    length members < fuel ->
    parse_json_members fuel
      (join (str ",") (map member_text members) ++ str "}" ++ rest)
    = Ok (members, rest).
Proof.
  induction members as [|[key v] members IH]; [congruence|].
  intros _ Hf fuel rest Hl. unfold flat_members in Hf. cbn [forallb snd] in Hf.
  apply andb_true_iff in Hf as [Hv Hf]. cbn [length] in Hl.
  destruct fuel as [|[|fuel]]; try lia.
  destruct members as [|m members].
  - cbn [map join]. rewrite parse_member by assumption. reflexivity.
  - change (join (str ",") (map member_text ((key, v) :: m :: members)))
      with (member_text (key, v) ++ str "," ++ join (str ",") (map member_text (m :: members))).
    rewrite <- !app_assoc. rewrite parse_member by assumption.
    change (str "," ++ ?y) with (ch "," :: y).
    change (skip_space (ch "," :: ?y)) with (ch "," :: y).
    cbn iota. rewrite N.eqb_refl.
    rewrite skip_space_members, IH; [reflexivity | discriminate | exact Hf | cbn [length] in *; lia].
Qed.

Lemma join_length_members (members : list (jsstring * json)) :
  length members <= length (join (str ",") (map member_text members)).
Proof.
  induction members as [|m members IH]; [apply Nat.le_refl|].
  cbn [map join length]. destruct (member_text_head m []) as (y & E).
  rewrite app_nil_r in E.
  destruct (map member_text members) eqn:Em.
  - destruct members; [|discriminate]. rewrite E. cbn [length]. lia.
  - rewrite !length_app, E. cbn [length] in *. lia.
Qed.

Lemma JSON_stringify_object (members : list (jsstring * json)) :
  JSON_stringify (JObject members)
  = str "{" ++ join (str ",") (map member_text members) ++ str "}".
Proof.
  cbn [JSON_stringify]. do 3 f_equal. apply map_ext. now intros [key value].
Qed.

(** An object whose values are strings, booleans or [null] is read back
    from its JSON text as it was, whatever characters its keys and strings
    hold. *)
Lemma JSON_round_trip (members : list (jsstring * json)) :
  flat_members members = true ->
  JSON_parse (JSON_stringify (JObject members)) = Ok (JObject members).
Proof.
  intros Hf. unfold JSON_parse. rewrite JSON_stringify_object.
  set (text := str "{" ++ join (str ",") (map member_text members) ++ str "}").
  assert (Hl : length members < 2 * length text).
  { subst text. rewrite !length_app. pose proof (join_length_members members).
    change (length (str "{")) with 1. lia. }
  set (fuel := 2 * length text) in *. clearbody fuel.
  subst text. change (str "{" ++ ?y) with (ch "{" :: y).
  change (skip_space (ch "{" :: ?y)) with (ch "{" :: y).
  cbn [parse_json_value]. change (N.eqb (ch "{") 34) with false.
  cbn iota. rewrite N.eqb_refl.
  destruct members as [|m members].
  - reflexivity.
  - rewrite skip_space_members.
    assert (Eh : exists z, join (str ",") (map member_text (m :: members)) ++ str "}"
                           = 34%N :: z).
    { destruct members as [|m' members].
      - cbn [map join]. apply member_text_head.
      - change (join (str ",") (map member_text (m :: m' :: members)))
          with (member_text m ++ str "," ++ join (str ",") (map member_text (m' :: members))).
        rewrite <- app_assoc. apply member_text_head. }
    destruct Eh as (z & Ez). rewrite Ez. change (N.eqb 34 (ch "}")) with false.
    cbn iota.
    pose proof (parse_flat_members (m :: members) ltac:(discriminate) Hf
                  fuel [] Hl) as Hp.
    change (str "}" ++ []) with (str "}") in Hp. rewrite Ez in Hp.
    unfold jsstring, char in *. rewrite Hp. reflexivity.
Qed.

(** ** Drafts, clearing the form, connecting *)

Lemma draft_data_flat (app : App) (timestamp : jsstring) :
  exists members,
    draft_data app timestamp = JObject members
    /\ flat_members members = true
    /\ json_get (str "title") (JObject members)
       = Ok (Some (JString (issue_title (page app))))
    /\ json_get (str "body") (JObject members)
       = Ok (Some (JString (issue_body (page app)))).
Proof.
  unfold draft_data. eexists. split; [reflexivity|].
  destruct (currentTemplate app), (truthy_opt (currentRepository app));
    repeat split; reflexivity.
Qed.


(** [updatePreview] writes the preview and nothing else. *)
Lemma updatePreview_keeps_form (pg pg' : Page) :
  updatePreview pg = Ok pg' ->
  issue_title pg' = issue_title pg /\ issue_body pg' = issue_body pg
  /\ elements pg' = elements pg.
Proof.
  unfold updatePreview. destruct (negb (has_preview pg)).
  { intros H. injection H as <-. auto. }
  destruct (negb (truthy (trim (issue_body pg)))).
  { intros H. injection H as <-. auto. }
  destruct (processedMarkdown _ _) as [p| |]; try discriminate. cbn [bind].
  destruct (render p) as [html| |]; try discriminate. cbn [bind].
  intros H. injection H as <-. auto.
Qed.

Lemma set_form_again (app : App) (title body0 body : jsstring) :
  set_form (set_form app title body0)
           (issue_title (page (set_form app title body0))) body
  = set_form app title body.
Proof. reflexivity. Qed.

(** X11.  A draft comes back as it was saved: for a form that is not empty,
    whose title is a value its control holds and whose body is the value of
    a text area, [loadDraft] on the stored draft, with the issue section
    shown, puts the saved title and body back into the form, whatever
    characters they hold.  It reports the draft as loaded when
    [updatePreview] returns on the restored form; when [updatePreview]
    throws there (a field whose name is no pattern), the form stays
    restored and nothing is reported. *)
Theorem draft_round_trip (title_control : jsstring -> jsstring)
  (timestamp : jsstring) (silent : bool) (app later : App) :
  title_control (issue_title (page app)) = issue_title (page app) ->
  lacks (N.eqb 13%N) (issue_body (page app)) = true ->
  (truthy (issue_title (page app)) || truthy (issue_body (page app)))%bool = true ->
  draft later = draft (fst (saveAsDraft timestamp silent app)) ->
  let restored :=
    set_form later (issue_title (page app)) (issue_body (page app)) in
  match updatePreview (page restored) with
  | Ok pg =>
      loadDraft title_control (Some false) later
      = Ok (set_page restored pg,
            [EvShowResult (MsgText (str "Draft loaded from local storage")) KInfo;
             EvLogActivity (str "Loaded draft")])
      /\ issue_title pg = issue_title (page app)
      /\ issue_body pg = issue_body (page app)
  | Throws _ => loadDraft title_control (Some false) later = Ok (restored, [])
  | OutOfModel w => loadDraft title_control (Some false) later = OutOfModel w
  end.
Proof.
  intros Ht Hb Hne Hd restored.
  unfold saveAsDraft in Hd.
  replace (negb (truthy (issue_title (page app)))
           && negb (truthy (issue_body (page app))))%bool with false in Hd
    by (destruct (truthy (issue_title (page app))),
                 (truthy (issue_body (page app))); trivial; discriminate).
  cbn [fst draft] in Hd.
  destruct (draft_data_flat app timestamp) as (members & Em & Hf & Gt & Gb).
  unfold loadDraft. rewrite Hd, Em. cbn [text_of].
  replace (truthy_opt (Some (JSON_stringify (JObject members)))) with true
    by (rewrite JSON_stringify_object; reflexivity).
  rewrite JSON_round_trip by assumption.
  unfold load_parsed. rewrite Gt. cbn [or_empty bind]. rewrite Gb.
  cbn [or_empty bind]. rewrite Ht, (normalize_newlines_id _ Hb).
  rewrite set_form_again. fold restored.
  destruct (updatePreview (page restored)) as [pg|msg|w] eqn:E; try reflexivity.
  rewrite Hne. split; [reflexivity|].
  apply updatePreview_keeps_form in E as (E1 & E2 & _). now split.
Qed.

Lemma draft_round_trip_witness :
  (loadDraft single_line (Some false)
     (mkApp None None None None (mkPage [] [] [] true [])
        (draft (fst (saveAsDraft (str "2024-05-01T10:00:00.000Z") true
                       (connected_app (str "Crash on start")
                          (str "Steps:" ++ nl ++ str "1. {os}") [])))))
   = Ok (set_page
           (set_form
              (mkApp None None None None (mkPage [] [] [] true [])
                 (draft (fst (saveAsDraft (str "2024-05-01T10:00:00.000Z") true
                                (connected_app (str "Crash on start")
                                   (str "Steps:" ++ nl ++ str "1. {os}") [])))))
              (str "Crash on start") (str "Steps:" ++ nl ++ str "1. {os}"))
           (mkPage (str "Crash on start") (str "Steps:" ++ nl ++ str "1. {os}")
                   [] true (str "<p>Steps:<br><ul><li>{os}</li></ul></p>")),
         [EvShowResult (MsgText (str "Draft loaded from local storage")) KInfo;
          EvLogActivity (str "Loaded draft")])
   /\ issue_title (mkPage (str "Crash on start")
                          (str "Steps:" ++ nl ++ str "1. {os}")
                          [] true (str "<p>Steps:<br><ul><li>{os}</li></ul></p>"))
      = str "Crash on start"
   /\ issue_body (mkPage (str "Crash on start")
                         (str "Steps:" ++ nl ++ str "1. {os}")
                         [] true (str "<p>Steps:<br><ul><li>{os}</li></ul></p>"))
      = str "Steps:" ++ nl ++ str "1. {os}")
  /\ loadDraft single_line (Some false)
       (mkApp None None None None
          (mkPage [] [] [text_field (str "(") (str "x")] true [])
          (draft (fst (saveAsDraft (str "2024-05-01T10:00:00.000Z") true
                         (connected_app (str "Crash") (str "Body") [])))))
     = Ok (set_form
             (mkApp None None None None
                (mkPage [] [] [text_field (str "(") (str "x")] true [])
                (draft (fst (saveAsDraft (str "2024-05-01T10:00:00.000Z") true
                               (connected_app (str "Crash") (str "Body") [])))))
             (str "Crash") (str "Body"), []).
Proof.
  split.
  - apply (draft_round_trip single_line (str "2024-05-01T10:00:00.000Z") true
             (connected_app (str "Crash on start")
                (str "Steps:" ++ nl ++ str "1. {os}") [])
             (mkApp None None None None (mkPage [] [] [] true [])
                (draft (fst (saveAsDraft (str "2024-05-01T10:00:00.000Z") true
                               (connected_app (str "Crash on start")
                                  (str "Steps:" ++ nl ++ str "1. {os}") []))))));
      reflexivity.
  - apply (draft_round_trip single_line (str "2024-05-01T10:00:00.000Z") true
             (connected_app (str "Crash") (str "Body") [])
             (mkApp None None None None
                (mkPage [] [] [text_field (str "(") (str "x")] true [])
                (draft (fst (saveAsDraft (str "2024-05-01T10:00:00.000Z") true
                               (connected_app (str "Crash") (str "Body") []))))));
      reflexivity.
Defined.

Lemma createIssue_without_title (main compat : IssueData -> FetchResult) (app : App) :
  issue_title (page app) = [] ->
  exists evs,
    createIssue main compat app = Ok (app, evs)
    /\ filter is_request evs = []
    /\ existsb is_error_report evs = true.
Proof.
  intros H. unfold createIssue. rewrite H.
  destruct (negb _); eexists; split; try reflexivity; split; reflexivity.
Qed.


(** X12.  A cleared form is inert: after [clearForm] the issue section is
    hidden and the template section shown; [createIssue] reports an error
    and sends nothing; [saveAsDraft] stores nothing, so a draft is not
    overwritten by the empty form; [loadDraft] loads nothing; and
    [updatePreview] leaves the page as [clearForm] left it. *)
Theorem cleared_form_is_inert (title_control : jsstring -> jsstring)
  (in_container : option (Element -> bool)) (connection : option bool)
  (template_hidden issue_hidden : bool) (app : App) :
  exists app',
    clearForm in_container
      (mkSections connection (Some template_hidden) (Some issue_hidden)) app
    = Ok (app', mkSections connection (Some false) (Some true),
          [EvLogActivity (str "Form cleared")])
    /\ (forall main compat,
          exists evs,
            createIssue main compat app' = Ok (app', evs)
            /\ filter is_request evs = []
            /\ existsb is_error_report evs = true)
    /\ (forall timestamp silent, saveAsDraft timestamp silent app' = (app', []))
    /\ loadDraft title_control (Some true) app' = Ok (app', [])
    /\ updatePreview (page app') = Ok (page app').
Proof.
  unfold clearForm. cbn [issue_creation_section template_section
                           connection_section].
  eexists. split; [reflexivity|].
  split; [|split; [|split]].
  - intros main compat. now apply createIssue_without_title.
  - reflexivity.
  - unfold loadDraft. destruct (truthy_opt _); [|reflexivity].
    destruct (JSON_parse_in_model (text_of (draft app))) as [(v & E)|(m & E)];
      cbn [draft] in *; now rewrite E.
  - unfold updatePreview. cbn [page has_preview issue_body].
    destruct (has_preview (page app)); reflexivity.
Qed.

Lemma connected_events (username repoName token : jsstring) (saveToRedis : bool)
  (result : VerifyResult) (sections : Sections) (app : App) :
  filter is_verify_request
    (snd (connected username repoName token saveToRedis result sections app)) = []
  /\ existsb is_connect_success
       (snd (connected username repoName token saveToRedis result sections app))
     = true
  /\ fst (fst (connected username repoName token saveToRedis result sections app))
     = mkApp (Some username) (Some repoName) (Some token)
             (currentTemplate app) (page app) (draft app).
Proof.
  unfold connected.
  destruct (connection_section sections); [|repeat split; reflexivity].
  destruct (template_section sections); [|repeat split; reflexivity].
  destruct saveToRedis, (v_repo_data result); repeat split; reflexivity.
Qed.

(** X13.  [verifyAndConnect] sends the credentials at most once, to the
    verification endpoint, trimmed: exactly when the three fields are
    filled and the token either looks like one of GitHub or was confirmed
    in the dialog. *)
Theorem verifyAndConnect_sends_one_request (confirmed : bool)
  (server : ConnectionData -> VerifyFetch) (user_agent timestamp : jsstring)
  (form : ConnectForm) (sections : Sections) (app : App) :
  filter is_verify_request
    (snd (verifyAndConnect confirmed server user_agent timestamp form sections app))
  = if (form_filled form && (token_looks_valid form || confirmed))%bool
    then [CeFetch verify_endpoint
            (mkConnectionData (trim (username_input form))
               (trim (repo_name_input form)) (trim (token_input form))
               (save_to_redis form) user_agent timestamp)]
    else [].
Proof.
  unfold verifyAndConnect, form_filled, token_looks_valid.
  destruct (truthy (trim (username_input form))); [|reflexivity].
  destruct (truthy (trim (repo_name_input form))); [|reflexivity].
  destruct (truthy (trim (token_input form))); [|reflexivity].
  cbn [negb orb andb].
  destruct (starts_with (str "ghp_") (trim (token_input form)));
    destruct (starts_with (str "github_pat_") (trim (token_input form)));
    destruct confirmed; cbn [negb orb andb List.app]; try reflexivity;
    match goal with
    | |- context [server ?d] => destruct (server d) as [msg|status [result|]]
    end; try reflexivity;
    try (destruct (v_success result); [|reflexivity];
         match goal with
         | |- context [connected ?u ?r ?t ?s ?res ?sec ?a] =>
             pose proof (proj1 (connected_events u r t s res sec a)) as Hc;
             destruct (connected u r t s res sec a) as [[app' sections'] evs]
         end;
         cbn [snd filter is_verify_request List.app] in *; now rewrite Hc).
Qed.

(** The application after [verifyAndConnect]: connected with the trimmed
    inputs, all three non-empty, when success is reported, and otherwise as
    it was. *)
Lemma verifyAndConnect_state (confirmed : bool)
  (server : ConnectionData -> VerifyFetch) (user_agent timestamp : jsstring)
  (form : ConnectForm) (sections : Sections) (app : App) :
  let result :=
    verifyAndConnect confirmed server user_agent timestamp form sections app in
  if existsb is_connect_success (snd result)
  then form_filled form = true
       /\ fst (fst result)
          = mkApp (Some (trim (username_input form)))
                  (Some (trim (repo_name_input form)))
                  (Some (trim (token_input form)))
                  (currentTemplate app) (page app) (draft app)
  else fst result = (app, sections).
Proof.
  unfold verifyAndConnect, form_filled.
  destruct (truthy (trim (username_input form))); [|reflexivity].
  destruct (truthy (trim (repo_name_input form))); [|reflexivity].
  destruct (truthy (trim (token_input form))); [|reflexivity].
  cbn [negb orb andb].
  destruct (negb (starts_with (str "ghp_") (trim (token_input form)))
            && negb (starts_with (str "github_pat_") (trim (token_input form))))%bool;
    destruct confirmed; cbn [negb orb andb List.app]; try reflexivity;
    match goal with
    | |- context [server ?d] => destruct (server d) as [msg|status [result|]]
    end; try reflexivity;
    try (destruct (v_success result); [|reflexivity];
         match goal with
         | |- context [connected ?u ?r ?t ?s ?res ?sec ?a] =>
             destruct (connected_events u r t s res sec a) as (_ & Hs & Ha);
             destruct (connected u r t s res sec a) as [[app' sections'] evs]
         end;
         cbn [fst snd existsb is_connect_success List.app orb] in *;
         rewrite ?Hs; cbn [orb]; rewrite ?orb_true_r; now split).
Qed.
(** X14.  [verifyAndConnect] connects exactly when it reports success:
    then user, repository and token are the trimmed inputs, all three
    non-empty, and page and draft are untouched; in every other case the
    application and the sections stay as they were. *)
Theorem verifyAndConnect_connects_on_success (confirmed : bool)
  (server : ConnectionData -> VerifyFetch) (user_agent timestamp : jsstring)
  (form : ConnectForm) (sections sections' : Sections) (app app' : App)
  (evs : list ConnectEvent) :
  verifyAndConnect confirmed server user_agent timestamp form sections app
  = (app', sections', evs) ->
  if existsb is_connect_success evs
  then currentUser app' = Some (trim (username_input form))
       /\ currentRepository app' = Some (trim (repo_name_input form))
       /\ currentToken app' = Some (trim (token_input form))
       /\ (truthy_opt (currentUser app') && truthy_opt (currentRepository app')
           && truthy_opt (currentToken app'))%bool = true
       /\ page app' = page app /\ draft app' = draft app
  else app' = app /\ sections' = sections.
Proof.
  intros E.
  pose proof (verifyAndConnect_state confirmed server user_agent timestamp
                form sections app) as H.
  cbv zeta in H. rewrite E in H. cbn [fst snd] in H.
  destruct (existsb is_connect_success evs).
  - destruct H as [Hf ->]. cbn [currentUser currentRepository currentToken
                                 truthy_opt page draft].
    repeat split; try reflexivity. exact Hf.
  - now injection H as -> ->.
Qed.

Lemma find_blank_none (pg : Page) :
  blank_required_field pg = false ->
  find (fun e => negb (truthy (trim (el_value e)))) (required_fields pg) = None.
Proof.
  unfold blank_required_field. generalize (required_fields pg).
  induction l as [|e l IH]; [reflexivity|]. cbn [existsb find].
  destruct (negb (truthy (trim (el_value e)))); [discriminate|]. exact IH.
Qed.

Lemma verifyAndConnect_connects_on_success_witness :
  currentUser
    (fst (fst (verifyAndConnect false granting (str "agent") (str "now")
                 octocat_form editing (fresh_app [] [] []))))
  = Some (str "octocat").
Proof.
  apply (verifyAndConnect_connects_on_success false granting (str "agent")
           (str "now") octocat_form editing _ (fresh_app [] [] []) _ _ eq_refl).
Defined.

(** X15.  Connecting then submitting: after a successful
    [verifyAndConnect], [createIssue] on a valid form substitutes the
    placeholders of the trimmed body.  When that returns, it sends its
    request to the main endpoint with the trimmed user, repository and token
    of the connection form, the trimmed title and the substituted body;
    when it throws (a field whose name is no pattern), nothing is sent and
    the error is reported. *)
Theorem connect_then_submit (confirmed : bool)
  (server : ConnectionData -> VerifyFetch) (user_agent timestamp : jsstring)
  (form : ConnectForm) (sections sections' : Sections) (app app' : App)
  (evs : list ConnectEvent) (main compat : IssueData -> FetchResult) :
  verifyAndConnect confirmed server user_agent timestamp form sections app
  = (app', sections', evs) ->
  existsb is_connect_success evs = true ->
  truthy (trim (issue_title (page app))) = true ->
  truthy (trim (issue_body (page app))) = true ->
  blank_required_field (page app) = false ->
  match finalBody (trim (issue_body (page app))) (template_fields (page app)) with
  | Ok final =>
      exists app'' rest,
        createIssue main compat app'
        = Ok (app'',
              EvShowLoading (str "Creating issue...")
                :: EvFetch createIssue_endpoint
                     (mkIssueData (trim (issue_title (page app))) final
                        (trim (token_input form)) (trim (username_input form))
                        (trim (repo_name_input form))
                        (match currentTemplate app with
                         | Some t => t_labels t
                         | None => []
                         end))
                :: rest)
  | Throws m =>
      createIssue main compat app'
      = Ok (app', [EvShowLoading (str "Creating issue...");
                   error_creating (str m)])
  | OutOfModel w => createIssue main compat app' = OutOfModel w
  end.
Proof.
  intros E Hs Ht Hb Hr.
  pose proof (verifyAndConnect_state confirmed server user_agent timestamp
                form sections app) as H.
  cbv zeta in H. rewrite E in H. cbn [fst snd] in H. rewrite Hs in H.
  destruct H as [Hf ->]. unfold createIssue.
  cbn [currentUser currentRepository currentToken currentTemplate page truthy_opt].
  unfold form_filled in Hf. rewrite Hf, Ht, Hb. cbn [negb].
  rewrite (find_blank_none _ Hr).
  destruct (finalBody _ _) as [final|msg|w]; try reflexivity.
  cbn [text_of].
  match goal with
  | |- context [main ?d] => set (data := d)
  end.
  destruct (main data) as [msg|status json].
  - destruct (handle_response _ _ (compat data)) as [app'' evs'].
    exists app''. eexists. reflexivity.
  - destruct (handle_response _ _ (Response status json)) as [app'' evs'].
    exists app''. eexists. reflexivity.
Qed.

Lemma connect_then_submit_witness :
  (exists app'' rest,
     createIssue accepting accepting
       (fst (fst (verifyAndConnect false granting (str "agent") (str "now")
                    octocat_form editing
                    (fresh_app (str " Title") (str "On {os.version} ")
                       [text_field (str "os.version") (str "14.2")]))))
     = Ok (app'',
           EvShowLoading (str "Creating issue...")
             :: EvFetch createIssue_endpoint
                  (mkIssueData (str "Title") (str "On 14.2") (str "ghp_token")
                     (str "octocat") (str "hello-world") [])
             :: rest))
  /\ createIssue accepting accepting
       (fst (fst (verifyAndConnect false granting (str "agent") (str "now")
                    octocat_form editing
                    (fresh_app (str "Title") (str "Body")
                       [text_field (str "(") (str "x")]))))
     = Ok (fst (fst (verifyAndConnect false granting (str "agent") (str "now")
                       octocat_form editing
                       (fresh_app (str "Title") (str "Body")
                          [text_field (str "(") (str "x")]))),
           [EvShowLoading (str "Creating issue...");
            error_creating (str "Unterminated group")]).
Proof.
  split.
  - apply (connect_then_submit false granting (str "agent") (str "now")
             octocat_form editing _
             (fresh_app (str " Title") (str "On {os.version} ")
                [text_field (str "os.version") (str "14.2")]) _ _
             accepting accepting eq_refl);
      reflexivity.
  - apply (connect_then_submit false granting (str "agent") (str "now")
             octocat_form editing _
             (fresh_app (str "Title") (str "Body")
                [text_field (str "(") (str "x")]) _ _
             accepting accepting eq_refl);
      reflexivity.
Defined.

(** ** The legacy forms *)

Lemma upper_hex_digit_safe (n : N) : (n < 16)%N -> uri_safe (upper_hex_digit n) = true.
Proof.
  intros H. unfold uri_safe, is_uri_unreserved, upper_hex_digit, is_digit, char_in.
  change (ch "0") with 48%N. change (ch "9") with 57%N.
  change (ch "A") with 65%N. change (ch "Z") with 90%N.
  destruct (N.ltb_spec n 10) as [E|E].
  - rewrite (proj2 (N.leb_le 48 (48 + n))) by lia.
    rewrite (proj2 (N.leb_le (48 + n) 57)) by lia.
    cbn [andb]. now rewrite !orb_true_r.
  - rewrite (proj2 (N.leb_le 65 (55 + n))) by lia.
    rewrite (proj2 (N.leb_le (55 + n) 90)) by lia.
    cbn [andb]. now rewrite !orb_true_r.
Qed.

Lemma percent_safe (octets : list N) :
  forallb uri_safe (flat_map percent octets) = true.
Proof.
  induction octets as [|o octets IH]; [reflexivity|].
  cbn [flat_map]. rewrite forallb_app, IH. unfold percent.
  cbn [forallb]. rewrite !upper_hex_digit_safe by (apply N.mod_lt; lia).
  reflexivity.
Qed.

Lemma encodeURIComponent_safe (s out : jsstring) :
  encodeURIComponent s = Some out -> forallb uri_safe out = true.
Proof.
  assert (G : forall n s out, length s <= n ->
                encodeURIComponent s = Some out -> forallb uri_safe out = true).
  { clear. induction n as [|n IH]; intros [|c s] out Hn H;
      try (cbn in Hn; lia); try (injection H as <-; reflexivity).
    cbn [length] in Hn. cbn [encodeURIComponent] in H.
    destruct (is_uri_unreserved c) eqn:Ec.
    { destruct (encodeURIComponent s) as [o|] eqn:E; [|discriminate].
      injection H as <-. cbn [forallb]. unfold uri_safe at 1. rewrite Ec.
      apply (IH s o); [lia | exact E]. }
    destruct (is_low_surrogate c); [discriminate|].
    destruct (is_high_surrogate c).
    - destruct s as [|d s]; [discriminate|].
      destruct (is_low_surrogate d); [|discriminate].
      destruct (encodeURIComponent s) as [o|] eqn:E; [|discriminate].
      injection H as <-. rewrite forallb_app, percent_safe.
      apply (IH s o); [cbn [length] in Hn; lia | exact E].
    - destruct (encodeURIComponent s) as [o|] eqn:E; [|discriminate].
      injection H as <-. rewrite forallb_app, percent_safe.
      apply (IH s o); [lia | exact E]. }
  now apply (G (length s)).
Qed.

Lemma count_char_unsafe (c : char) (s : jsstring) :
  uri_safe c = false -> forallb uri_safe s = true -> count_char c s = 0.
Proof.
  intros Hc. unfold count_char. induction s as [|d s IH]; [reflexivity|].
  cbn [forallb filter]. intros H. apply andb_true_iff in H as [Hd Hs].
  destruct (N.eqb_spec c d) as [->|_]; [congruence|]. now apply IH.
Qed.

(** X16.  The URL the legacy [verifyCredentials] requests has exactly its
    three parameters, whatever the user typed: token, user and repository
    are encoded without any of the delimiters [&], [=], [?] and [#], so
    none of them can add or cut a parameter. *)
Theorem verifyCredentials_sends_three_parameters
  (server : jsstring -> Legacy.Fetch Legacy.VerifyResult) (form : Legacy.Form)
  (url : jsstring) :
  In (Legacy.EvGet url) (Legacy.verifyCredentials server form) ->
  exists token username repoName,
    encodeURIComponent (Legacy.token form) = Some token
    /\ encodeURIComponent (Legacy.username form) = Some username
    /\ encodeURIComponent (Legacy.repo_name form) = Some repoName
    /\ url = str "/api/verify-token?token=" ++ token
               ++ str "&username=" ++ username
               ++ str "&repo_name=" ++ repoName
    /\ lacks is_query_delimiter (token ++ username ++ repoName) = true
    /\ count_char (ch "&") url = 2 /\ count_char (ch "=") url = 3
    /\ count_char (ch "?") url = 1 /\ count_char (ch "#") url = 0.
Proof.
  unfold Legacy.verifyCredentials.
  destruct (negb _ || negb _ || negb _)%bool.
  { intros [H|[]]. discriminate. }
  destruct (encodeURIComponent (Legacy.token form)) as [t|] eqn:Et;
    [|intros [H|[]]; discriminate].
  destruct (encodeURIComponent (Legacy.username form)) as [u|] eqn:Eu;
    [|intros [H|[]]; discriminate].
  destruct (encodeURIComponent (Legacy.repo_name form)) as [r|] eqn:Er;
    [|intros [H|[]]; discriminate].
  intros H.
  assert (E : url = str "/api/verify-token?token=" ++ t
                      ++ str "&username=" ++ u ++ str "&repo_name=" ++ r).
  { destruct H as [H|H]; [now injection H|].
    destruct (server _) as [msg|status [data|]].
    - destruct H as [H|[]]. discriminate.
    - destruct (negb (Legacy.ok status)).
      + destruct H as [H|[]]. discriminate.
      + destruct (Legacy.v_valid data && Legacy.v_repo_exists data)%bool.
        * destruct H as [H|[H|[]]]; discriminate.
        * destruct H as [H|[]]. discriminate.
    - destruct (negb (Legacy.ok status)); destruct H as [H|[]]; discriminate. }
  pose proof (encodeURIComponent_safe _ _ Et) as St.
  pose proof (encodeURIComponent_safe _ _ Eu) as Su.
  pose proof (encodeURIComponent_safe _ _ Er) as Sr.
  exists t, u, r. repeat split; try assumption.
  - unfold lacks. rewrite !forallb_app.
    assert (G : forall s, forallb uri_safe s = true ->
                  forallb (fun c => negb (is_query_delimiter c)) s = true).
    { intros s Hs. rewrite forallb_forall in *. intros c Hc. specialize (Hs c Hc).
      unfold is_query_delimiter.
      destruct (N.eqb_spec c (ch "&")) as [->|_]; [discriminate|].
      destruct (N.eqb_spec c (ch "=")) as [->|_]; [discriminate|].
      destruct (N.eqb_spec c (ch "?")) as [->|_]; [discriminate|].
      destruct (N.eqb_spec c (ch "#")) as [->|_]; [discriminate|]. reflexivity. }
    now rewrite !G.
  - rewrite E, !count_char_app.
    rewrite (count_char_unsafe (ch "&") t), (count_char_unsafe (ch "&") u),
      (count_char_unsafe (ch "&") r) by (assumption || reflexivity).
    reflexivity.
  - rewrite E, !count_char_app.
    rewrite (count_char_unsafe (ch "=") t), (count_char_unsafe (ch "=") u),
      (count_char_unsafe (ch "=") r) by (assumption || reflexivity).
    reflexivity.
  - rewrite E, !count_char_app.
    rewrite (count_char_unsafe (ch "?") t), (count_char_unsafe (ch "?") u),
      (count_char_unsafe (ch "?") r) by (assumption || reflexivity).
    reflexivity.
  - rewrite E, !count_char_app.
    rewrite (count_char_unsafe (ch "#") t), (count_char_unsafe (ch "#") u),
      (count_char_unsafe (ch "#") r) by (assumption || reflexivity).
    reflexivity.
Qed.

Lemma verifyCredentials_sends_three_parameters_witness :
  count_char (ch "&")
    (str "/api/verify-token?token=a%26b%3Dc&username=octo%20cat&repo_name=r%231")
  = 2.
Proof.
  destruct (verifyCredentials_sends_three_parameters
              (fun _ => Legacy.NetworkError [])
              (Legacy.mkForm (str "octo cat") (str "r#1") (str "a&b=c") [] [] [])
              (str "/api/verify-token?token=a%26b%3Dc&username=octo%20cat&repo_name=r%231"))
    as (t & u & r & _ & _ & _ & _ & _ & H & _);
    [left; reflexivity | exact H].
Defined.

Lemma truthy_trim (s : jsstring) : truthy (trim s) = true -> truthy s = true.
Proof. destruct s; [discriminate | reflexivity]. Qed.

Lemma required_fields_none (pg : Page) :
  template_fields pg = [] -> required_fields pg = [].
Proof.
  unfold template_fields, required_fields. induction (elements pg) as [|e l IH];
    [reflexivity|].
  cbn [filter]. destruct (starts_with (str "field-") (el_id e)); [discriminate|].
  exact IH.
Qed.

(** X17.  The two scripts on the same inputs.  Whenever the application,
    connected through [verifyAndConnect], sends a request, the legacy
    [createIssue] on the same inputs sends one too; it carries user,
    repository, token, title and body as typed, while the application
    sends them trimmed.  On a form without template fields the two requests
    carry the same data when none of the five inputs has surrounding white
    space. *)
Theorem createIssue_in_both_scripts (confirmed : bool)
  (verifier : ConnectionData -> VerifyFetch) (user_agent timestamp : jsstring)
  (form : ConnectForm) (sections sections' : Sections) (app app' : App)
  (cevs : list ConnectEvent) (main compat : IssueData -> FetchResult)
  (server : Legacy.IssueData -> Legacy.Fetch Legacy.CreateResult)
  (preview : jsstring) :
  verifyAndConnect confirmed verifier user_agent timestamp form sections app
  = (app', sections', cevs) ->
  existsb is_connect_success cevs = true ->
  existsb is_request (events_of (createIssue main compat app')) = true ->
  exists form' rest d,
    Legacy.createIssue server (legacy_form form (page app) preview)
    = (form',
       Legacy.EvPost Legacy.create_endpoint
         (Legacy.mkIssueData (issue_title (page app)) (issue_body (page app))
            (token_input form) (username_input form) (repo_name_input form))
         :: rest)
    /\ In (EvFetch createIssue_endpoint d)
          (events_of (createIssue main compat app'))
    /\ d_title d = trim (issue_title (page app))
    /\ d_token d = trim (token_input form)
    /\ d_username d = trim (username_input form)
    /\ d_repo_name d = trim (repo_name_input form)
    /\ (template_fields (page app) = [] ->
        d_body d = trim (issue_body (page app))
        /\ (trim (issue_title (page app)) = issue_title (page app) ->
            trim (issue_body (page app)) = issue_body (page app) ->
            trim (token_input form) = token_input form ->
            trim (username_input form) = username_input form ->
            trim (repo_name_input form) = repo_name_input form ->
            legacy_data d
            = Legacy.mkIssueData (issue_title (page app)) (issue_body (page app))
                (token_input form) (username_input form)
                (repo_name_input form))).
Proof.
  intros E Hs.
  pose proof (verifyAndConnect_state confirmed verifier user_agent timestamp
                form sections app) as H.
  cbv zeta in H. rewrite E in H. cbn [fst snd] in H. rewrite Hs in H.
  destruct H as [Hf ->]. unfold createIssue.
  cbn [currentUser currentRepository currentToken currentTemplate page truthy_opt].
  unfold form_filled in Hf. rewrite Hf. cbn [negb]. intros H.
  destruct (truthy (trim (issue_title (page app)))) eqn:Et; [|discriminate].
  destruct (truthy (trim (issue_body (page app)))) eqn:Eb; [|discriminate].
  cbn [negb] in *.
  assert (L : exists form' rest,
             Legacy.createIssue server (legacy_form form (page app) preview)
             = (form',
                Legacy.EvPost Legacy.create_endpoint
                  (Legacy.mkIssueData (issue_title (page app))
                     (issue_body (page app)) (token_input form)
                     (username_input form) (repo_name_input form))
                  :: rest)).
  { unfold Legacy.createIssue, legacy_form.
    cbn [Legacy.title Legacy.body Legacy.token Legacy.username Legacy.repo_name].
    rewrite (truthy_trim _ Et), (truthy_trim _ Eb). cbn [negb orb].
    destruct (server _) as [msg|status [result|]]; try (eexists; eexists; reflexivity).
    destruct (Legacy.r_success result); eexists; eexists; reflexivity. }
  destruct L as (form' & rest & L). exists form', rest.
  destruct (find _ _) as [e|] eqn:Ef; [discriminate|].
  destruct (finalBody _ _) as [final|msg|w] eqn:Efb; try discriminate.
  cbn [text_of] in *.
  match goal with
  | |- context [main ?d] => set (data := d) in *
  end.
  exists data. split; [exact L|]. split.
  { destruct (main data) as [msg|status json].
    - destruct (handle_response _ _ (compat data)) as [a e].
      cbn [events_of]. right. left. reflexivity.
    - destruct (handle_response _ _ (Response status json)) as [a e].
      cbn [events_of]. right. left. reflexivity. }
  repeat (split; [reflexivity|]).
  intros Hfields. rewrite Hfields in Efb.
  unfold finalBody, collect, Object_entries in Efb.
  cbn [fold_left replace_placeholders] in Efb. injection Efb as <-.
  split; [reflexivity|].
  intros T1 T2 T3 T4 T5. unfold legacy_data, data.
  cbn [d_title d_body d_token d_username d_repo_name].
  now rewrite T1, T2, T3, T4, T5.
Qed.

Lemma createIssue_in_both_scripts_witness :
  exists form' rest d,
    Legacy.createIssue (fun _ => Legacy.NetworkError [])
      (legacy_form octocat_form (page (fresh_app (str "Title") (str "Body ") []))
                   [])
    = (form',
       Legacy.EvPost Legacy.create_endpoint
         (Legacy.mkIssueData (str "Title") (str "Body ") (str "ghp_token ")
            (str " octocat ") (str "hello-world"))
         :: rest)
    /\ In (EvFetch createIssue_endpoint d)
          (events_of
             (createIssue accepting accepting
                (fst (fst (verifyAndConnect false granting (str "agent")
                             (str "now") octocat_form editing
                             (fresh_app (str "Title") (str "Body ") []))))))
    /\ d_title d = str "Title"
    /\ d_token d = str "ghp_token"
    /\ d_username d = str "octocat"
    /\ d_repo_name d = str "hello-world".
Proof.
  destruct (createIssue_in_both_scripts false granting (str "agent") (str "now")
              octocat_form editing _
              (fresh_app (str "Title") (str "Body ") []) _ _
              accepting accepting (fun _ => Legacy.NetworkError []) []
              eq_refl eq_refl eq_refl)
    as (form' & rest & d & H1 & H2 & H3 & H4 & H5 & H6 & _).
  exists form', rest, d. repeat split; assumption.
Defined.

(** ** The bold button and the preview *)

Lemma bold_rule_compiles :
  RegExp_new (rule_pattern bold_rule) (rule_flags bold_rule) = Ok bold_regexp.
Proof. vm_compute. reflexivity. Qed.

(** A lazy star stops at the first place where what follows it matches. *)
Lemma lazy_star_stops_first
  (m : (mstate -> option mstate) -> mstate -> option mstate)
  (clear : mstate -> mstate) (ok q : char -> bool)
  (k : mstate -> option mstate) (tail : jsstring) (z : mstate) :
  (forall k' x, m k' x = match ms_rest x with
                         | d :: r => if ok d then k' (advance d r x) else None
                         | [] => None
                         end) ->
  (forall x, clear x = x) ->
  forall caps,
  (forall prev, k (mkState prev tail caps) = Some z) ->
  (forall y, fails_at_head q (ms_rest y) = true -> ms_rest y <> [] -> k y = None) ->
  forall x, forallb ok x = true -> lacks q x = true ->
  forall fuel prev, length (x ++ tail) < fuel ->
  repeat_matcher m clear false k fuel 0 None (mkState prev (x ++ tail) caps)
  = Some z.
Proof.
  intros Hm Hclear caps Hz Hk.
  induction x as [|c x IH]; intros Hok Hq fuel prev Hf;
    (destruct fuel as [|fuel]; [simpl in Hf; lia|]).
  - cbn [app repeat_matcher is_zero_max Nat.eqb negb andb]. now rewrite Hz.
  - cbn [forallb] in Hok. apply andb_true_iff in Hok as [Hc Hok].
    pose proof Hq as Hq'. unfold lacks in Hq'. cbn [forallb] in Hq'.
    apply andb_true_iff in Hq' as [Hqc Hqx].
    cbn [app repeat_matcher is_zero_max Nat.eqb negb andb].
    rewrite Hk by (cbn [ms_rest fails_at_head]; assumption || discriminate).
    rewrite Hclear, Hm. cbn [ms_rest]. rewrite Hc. unfold advance.
    cbn [length Nat.eqb ms_caps ms_prev ms_rest].
    replace (length (x ++ tail) =? S (length (x ++ tail)))
      with false by (symmetry; apply Nat.eqb_neq; lia).
    change (pred 0) with 0. cbn [pred_max].
    apply IH; [assumption | assumption | simpl in Hf; lia].
Qed.

Lemma bold_match (prev : option char) (selected after : jsstring) :
  lacks is_line_terminator selected = true ->
  lacks (N.eqb (ch "*")) selected = true ->
  exec_at bold_regexp prev (str "**" ++ selected ++ str "**" ++ after)
  = Some (after, [Some selected]).
Proof.
  intros Hl Hs. unfold exec_at, bold_regexp.
  cbn [re_body re_flags re_ngroups repeat].
  change (str "**" ++ selected ++ str "**" ++ after)
    with (ch "*" :: ch "*" :: selected ++ str "**" ++ after).
  cbn [rmatch ms_rest]. rewrite !N.eqb_refl. unfold advance.
  cbn [ms_rest ms_caps ms_prev f_dotAll orb]. rewrite !N.eqb_refl.
  cbn [ms_rest ms_caps ms_prev f_dotAll orb].
  erewrite (lazy_star_stops_first _ _ (fun c => negb (is_line_terminator c))
              (N.eqb (ch "*")) _ (str "**" ++ after)
              (mkState (Some (ch "*")) after [Some selected])).
  - reflexivity.
  - intros k' x. reflexivity.
  - now intros [p r c].
  - intros prev'. rewrite rmatch_literal. cbn [ms_rest].
    change (starts_with (str "**") (str "**" ++ after)) with true.
    cbv iota. cbn [ms_prev ms_rest ms_caps]. unfold consumed. cbn [ms_rest].
    change (skipn (length (str "**")) (str "**" ++ after)) with after.
    change (fold_left (fun _ c => Some c) (str "**") prev') with (Some (ch "*")).
    rewrite firstn_consumed. reflexivity.
  - intros y Hy Hne. rewrite rmatch_literal. cbn [ms_rest].
    destruct (ms_rest y) as [|d r]; [congruence|].
    cbn [fails_at_head] in Hy. apply negb_true_iff in Hy.
    change (str "**") with [ch "*"; ch "*"]. cbn [starts_with]. now rewrite Hy.
  - exact Hl.
  - exact Hs.
  - cbn [plus]. lia.
Qed.

Lemma bold_replacement (selected matched pre post : jsstring) :
  get_substitution [Some selected] matched pre post (str "<strong>$1</strong>")
  = str "<strong>" ++ selected ++ str "</strong>".
Proof. reflexivity. Qed.

Lemma fails_at_head_lacks (q : char -> bool) (b r : jsstring) :
  lacks q b = true -> b <> [] -> fails_at_head q (b ++ r) = true.
Proof.
  destruct b as [|c b]; [congruence|]. unfold lacks. cbn [forallb app fails_at_head].
  intros H _. now apply andb_true_iff in H.
Qed.

(** The bold rule turns a pair of double stars around a text without star
    into a [<strong>] element, in a text that has no other star. *)
Lemma bold_rule_marks (before selected after : jsstring) :
  lacks (N.eqb (ch "*")) before = true ->
  lacks (N.eqb (ch "*")) selected = true ->
  lacks (N.eqb (ch "*")) after = true ->
  lacks is_line_terminator selected = true ->
  apply_rule bold_rule (before ++ str "**" ++ selected ++ str "**" ++ after)
  = Ok (before ++ str "<strong>" ++ selected ++ str "</strong>" ++ after).
Proof.
  intros Hb Hs Ha Hl. unfold apply_rule. rewrite bold_rule_compiles.
  cbn [bind rule_replacement bold_rule]. f_equal. unfold string_replace.
  rewrite replace_scan_passes_over.
  2:{ intros a b -> Hne. apply (exec_at_first_test _ (N.eqb (ch "*")));
        [reflexivity|].
      apply fails_at_head_lacks; [|assumption]. now apply lacks_app in Hb. }
  f_equal.
  assert (E : str "**" ++ selected ++ str "**" ++ after
              = ch "*" :: (str "*" ++ selected ++ str "**") ++ after)
    by (now rewrite <- !app_assoc).
  assert (L : length (str "**" ++ selected ++ str "**" ++ after) - length after
              = S (length (str "*" ++ selected ++ str "**"))).
  { rewrite E. cbn [length]. rewrite length_app. lia. }
  rewrite (replace_scan_match bold_regexp _ _ _ _ _ _ _ E eq_refl
             (bold_match _ selected after Hl Hs)).
  rewrite L, replace_scan_skips, replace_scan_no_match.
  2:{ intros a b ->. apply (exec_at_first_test _ (N.eqb (ch "*")));
        [reflexivity|].
      apply lacks_app in Ha as [_ Ha]. destruct b as [|c b]; [reflexivity|].
      unfold lacks in Ha. cbn [forallb fails_at_head] in *.
      now apply andb_true_iff in Ha. }
  rewrite bold_replacement. now rewrite <- !app_assoc.
Qed.

Lemma includes_past (c : char) (p a b : jsstring) :
  lacks (N.eqb c) a = true -> includes (c :: p) (a ++ b) = includes (c :: p) b.
Proof.
  induction a as [|d a IH]; [reflexivity|]. unfold lacks. cbn [forallb].
  intros H. apply andb_true_iff in H as [Hd Ha]. apply negb_true_iff in Hd.
  cbn [app]. change (includes (c :: p) (d :: a ++ b))
    with (starts_with (c :: p) (d :: a ++ b) || includes (c :: p) (a ++ b))%bool.
  cbn [starts_with]. rewrite Hd. cbn [andb orb]. now apply IH.
Qed.

(** A text made of pieces without [<], each but the first put after a [<],
    holds no tag [<x...] when no piece but the first starts with [x]. *)
Lemma includes_no_tag (x : char) (p : jsstring) (pieces : list jsstring) :
  N.eqb x (ch "<") = false ->
  Forall (fun a => lacks (N.eqb (ch "<")) a = true
                   /\ fails_at_head (N.eqb x) a = true) pieces ->
  forall a0, lacks (N.eqb (ch "<")) a0 = true ->
  includes (ch "<" :: x :: p)
           (a0 ++ flat_map (fun a => ch "<" :: a) pieces) = false.
Proof.
  intros Hx H. induction H as [|a pieces [Ha Hh] _ IH]; intros a0 H0.
  - cbn [flat_map]. rewrite includes_past by assumption. reflexivity.
  - rewrite includes_past by assumption. cbn [flat_map app].
    change (includes (ch "<" :: x :: p) (ch "<" :: ?s))
      with (starts_with (ch "<" :: x :: p) (ch "<" :: s)
            || includes (ch "<" :: x :: p) s)%bool.
    rewrite (IH a Ha). rewrite orb_false_r.
    cbn [starts_with]. rewrite N.eqb_refl. cbn [andb].
    destruct a as [|d a]; cbn [app].
    + destruct pieces; cbn [flat_map app starts_with]; [reflexivity|].
      now rewrite Hx.
    + cbn [fails_at_head] in Hh. apply negb_true_iff in Hh.
      cbn [starts_with]. now rewrite Hh.
Qed.

Lemma space_is_not_tag (d : char) : is_space d = true -> N.eqb (ch "<") d = false.
Proof. intros H. destruct (N.eqb_spec (ch "<") d) as [<-|]; [discriminate | reflexivity]. Qed.

Lemma repeat_spaces_stop
  (m : (mstate -> option mstate) -> mstate -> option mstate)
  (clear : mstate -> mstate) (greedy : bool)
  (k : mstate -> option mstate) (w : jsstring) (c : char) (rest : jsstring) :
  (forall k' x, m k' x = match ms_rest x with
                         | d :: r => if is_space d then k' (advance d r x) else None
                         | [] => None
                         end) ->
  (forall x, clear x = x) ->
  is_space c = false ->
  (forall y, starts_with (ch "<" :: w) (ms_rest y) = false -> k y = None) ->
  starts_with (ch "<" :: w) (c :: rest) = false ->
  forall ws, forallb is_space ws = true ->
  forall fuel max prev caps,
  repeat_matcher m clear greedy k fuel 0 max (mkState prev (ws ++ c :: rest) caps)
  = None.
Proof.
  intros Hm Hclear Hc Hk Hrest.
  induction ws as [|d ws IH]; intros Hws fuel max prev caps;
    (destruct fuel as [|fuel]; [reflexivity|]).
  - cbn [repeat_matcher app]. rewrite Hk by exact Hrest.
    rewrite Hclear, Hm. cbn [ms_rest Nat.eqb negb andb]. rewrite Hc.
    now destruct (is_zero_max max), greedy.
  - cbn [forallb] in Hws. apply andb_true_iff in Hws as [Hd Hws].
    cbn [repeat_matcher app].
    rewrite Hk by (cbn [ms_rest starts_with]; now rewrite (space_is_not_tag d Hd)).
    rewrite Hclear, Hm. cbn [ms_rest Nat.eqb negb andb advance]. rewrite Hd.
    replace (length (ws ++ c :: rest) =? length (d :: ws ++ c :: rest))
      with false by (symmetry; apply Nat.eqb_neq; cbn [length]; lia).
    change (pred 0) with 0. unfold advance. cbn [ms_caps]. rewrite (IH Hws).
    now destruct (is_zero_max max), greedy.
Qed.

(** The rule for empty paragraphs leaves a paragraph alone whose text holds
    no [<p] and does not start, after its leading white space, with [</]. *)
Lemma empty_paragraph_rule_keeps_text (ws : jsstring) (c : char) (s' : jsstring) :
  forallb is_space ws = true -> is_space c = false ->
  starts_with (str "</p>") (c :: s' ++ str "</p>") = false ->
  includes (str "<p") ((ws ++ c :: s') ++ str "</p>") = false ->
  apply_rule empty_paragraph_rule (str "<p>" ++ (ws ++ c :: s') ++ str "</p>")
  = Ok (str "<p>" ++ (ws ++ c :: s') ++ str "</p>").
Proof.
  intros Hws Hc Hstart Hin.
  eapply apply_rule_identity; [vm_compute; reflexivity|].
  cbn [rule_replacement empty_paragraph_rule]. unfold string_replace.
  match goal with |- replace_scan ?re _ _ _ _ = _ => set (RE := re) end.
  set (s := ws ++ c :: s') in *.
  change (str "<p>" ++ s ++ str "</p>")
    with (ch "<" :: (ch "p" :: ch ">" :: s) ++ str "</p>").
  assert (E0 : exec_at RE (hd_error [])
                 (ch "<" :: (ch "p" :: ch ">" :: s) ++ str "</p>") = None).
  { unfold exec_at, RE.
    cbn [re_flags re_body re_ngroups repeat rmatch ms_rest app].
    change (N.eqb 60 (ch "<")) with true. unfold advance.
    cbn [ms_rest ms_caps]. change (N.eqb 112 (ch "p")) with true.
    cbn [ms_rest ms_caps]. change (N.eqb 62 (ch ">")) with true.
    cbn [ms_rest ms_caps]. subst s. rewrite <- app_assoc. cbn [app].
    erewrite (repeat_spaces_stop _ _ _ _ (str "/p>") c (s' ++ str "</p>"));
      try reflexivity; try assumption.
    - intros k' x. cbn [rmatch]. destruct (ms_rest x) as [|d r]; [reflexivity|].
      unfold class_matches. cbn [existsb class_item_matches xorb].
      now rewrite orb_false_r.
    - now intros [p r cs].
    - intros y Hy. change (str "/p>") with [ch "/"; ch "p"; ch ">"] in Hy.
      destruct (ms_rest y) as [|c0 [|c1 [|c2 [|c3 r]]]]; cbn [starts_with] in Hy;
        try reflexivity;
        change 60%N with (ch "<"); change 47%N with (ch "/");
        change 112%N with (ch "p"); change 62%N with (ch ">");
        destruct (N.eqb (ch "<") c0); try reflexivity;
        destruct (N.eqb (ch "/") c1); try reflexivity;
        destruct (N.eqb (ch "p") c2); try reflexivity;
        destruct (N.eqb (ch ">") c3); try reflexivity; discriminate. }
  cbn [replace_scan]. rewrite E0. f_equal.
  apply replace_scan_no_match. intros a b E.
  destruct b as [|d b]; [now apply (exec_at_first_test RE (N.eqb (ch "<")))|].
  destruct (N.eqb (ch "<") d) eqn:Ed.
  - apply N.eqb_eq in Ed. subst d.
    assert (Hb : starts_with (str "<p") (ch "<" :: b) = false).
    { apply includes_head. apply (includes_suffix _ a). rewrite <- E.
      change ((ch "p" :: ch ">" :: s) ++ str "</p>")
        with (str "p>" ++ s ++ str "</p>").
      change (str "<p") with (ch "<" :: str "p").
      rewrite includes_past by reflexivity. exact Hin. }
    unfold exec_at, RE. cbn [re_flags re_body re_ngroups repeat rmatch ms_rest].
    change (N.eqb 60 (ch "<")) with true. cbv iota. unfold advance at 1.
    cbn [ms_rest]. destruct b as [|e b]; [reflexivity|].
    change (str "<p") with [ch "<"; ch "p"] in Hb.
    cbn [starts_with] in Hb. rewrite N.eqb_refl in Hb. cbn [andb] in Hb.
    rewrite andb_true_r in Hb. change (N.eqb 112 e) with (N.eqb (ch "p") e).
    now rewrite Hb.
  - apply (exec_at_first_test RE (N.eqb (ch "<"))); [reflexivity|].
    cbn [fails_at_head]. now rewrite Ed.
Qed.

Lemma apply_rules_app (a b : list rule) (s : jsstring) :
  apply_rules (a ++ b) s = (s' <- apply_rules a s ;; apply_rules b s').
Proof.
  revert s. induction a as [|r a IH]; intros s; [reflexivity|].
  cbn [app apply_rules]. destruct (apply_rule r s); cbn [bind]; auto.
Qed.

Lemma existsb_trim_start (s : jsstring) :
  existsb (fun c => negb (is_space c)) s = true ->
  existsb (fun c => negb (is_space c)) (trim_start s) = true.
Proof.
  induction s as [|c s IH]; [discriminate|]. cbn [existsb trim_start].
  destruct (is_space c) eqn:E; cbn [negb orb]; [exact IH|].
  intros _. cbn [existsb]. now rewrite E.
Qed.

Lemma existsb_rev {A : Type} (p : A -> bool) (l : list A) :
  existsb p l = true -> existsb p (rev l) = true.
Proof.
  rewrite !existsb_exists. intros (x & Hx & Hp). exists x. split; [|exact Hp].
  now apply in_rev in Hx.
Qed.

Lemma truthy_trim_text (s : jsstring) :
  existsb (fun c => negb (is_space c)) s = true -> truthy (trim s) = true.
Proof.
  intros H. unfold trim.
  apply existsb_trim_start, existsb_rev, existsb_trim_start, existsb_rev in H.
  now destruct (rev _).
Qed.

Lemma trim_start_spaces (ws : jsstring) (c : char) (rest : jsstring) :
  forallb is_space ws = true -> is_space c = false ->
  trim_start (ws ++ c :: rest) = c :: rest.
Proof.
  intros Hws Hc. induction ws as [|d ws IH].
  - cbn [app trim_start]. now rewrite Hc.
  - cbn [forallb] in Hws. apply andb_true_iff in Hws as [Hd Hws].
    cbn [app trim_start]. rewrite Hd. now apply IH.
Qed.

Lemma trim_start_before_strong (before rest : jsstring) :
  lacks (N.eqb (ch "<")) before = true ->
  starts_with (str "</p>") (trim_start (before ++ str "<strong>" ++ rest)) = false.
Proof.
  induction before as [|c before IH]; intros H; [reflexivity|].
  unfold lacks in H. cbn [forallb] in H. apply andb_true_iff in H as [Hc H].
  apply negb_true_iff in Hc. cbn [app trim_start].
  destruct (is_space c); [now apply IH|].
  change (str "</p>") with (ch "<" :: str "/p>"). cbn [starts_with]. now rewrite Hc.
Qed.

Lemma unmarked_parts (before selected after : jsstring) :
  unmarked (before ++ selected ++ after) = true ->
  let bad := fun c => (is_line_terminator c || N.eqb c (ch "`")
                       || N.eqb c (ch "[") || N.eqb c (ch "<")
                       || N.eqb c (ch "*"))%bool in
  lacks bad before = true /\ lacks bad selected = true /\ lacks bad after = true
  /\ fails_at_head (fun c => (N.eqb c (ch "#") || N.eqb c (ch "-")
                              || N.eqb c (ch ">") || is_digit c)%bool)
                   (before ++ selected ++ after) = true.
Proof.
  unfold unmarked. intros H. apply andb_true_iff in H as [H Hh].
  apply lacks_app in H as [Hb H]. apply lacks_app in H as [Hs Ha]. cbv zeta. auto.
Qed.

Lemma markdown_rules_on_bold (before selected after : jsstring) :
  unmarked (before ++ selected ++ after) = true ->
  apply_rules markdown_rules
    (before ++ str "**" ++ selected ++ str "**" ++ after)
  = Ok (before ++ str "<strong>" ++ selected ++ str "</strong>" ++ after).
Proof.
  intros text_unmarked.
  set (marked := before ++ str "**" ++ selected ++ str "**" ++ after).
  set (shown := before ++ str "<strong>" ++ selected ++ str "</strong>" ++ after).
  destruct (unmarked_parts _ _ _ text_unmarked) as (Hb & Hs & Ha & Hh).
  assert (W : forall (q : char -> bool) s,
              (forall c, q c = true ->
                 (is_line_terminator c || N.eqb c (ch "`") || N.eqb c (ch "[")
                  || N.eqb c (ch "<") || N.eqb c (ch "*"))%bool = true) ->
              lacks (fun c => (is_line_terminator c || N.eqb c (ch "`")
                               || N.eqb c (ch "[") || N.eqb c (ch "<")
                               || N.eqb c (ch "*"))%bool) s = true ->
              lacks q s = true).
  { intros q s Hq. now apply lacks_weaken. }
  assert (Lt : forall c, is_line_terminator c = true ->
                 (is_line_terminator c || N.eqb c (ch "`") || N.eqb c (ch "[")
                  || N.eqb c (ch "<") || N.eqb c (ch "*"))%bool = true)
    by (now intros c ->).
  assert (St : forall c, N.eqb (ch "*") c = true ->
                 (is_line_terminator c || N.eqb c (ch "`") || N.eqb c (ch "[")
                  || N.eqb c (ch "<") || N.eqb c (ch "*"))%bool = true).
  { intros c E. apply N.eqb_eq in E. now subst c. }
  assert (Ab : forall c, (is_line_terminator c || N.eqb c (ch "`")
                          || N.eqb c (ch "["))%bool = true ->
                 (is_line_terminator c || N.eqb c (ch "`") || N.eqb c (ch "[")
                  || N.eqb c (ch "<") || N.eqb c (ch "*"))%bool = true).
  { intros c E. rewrite E. reflexivity. }
  change markdown_rules
    with (firstn 6 markdown_rules ++ bold_rule :: skipn 7 markdown_rules).
  rewrite apply_rules_app.
  assert (Hl : lacks is_line_terminator marked = true).
  { subst marked. repeat apply lacks_app_intro; try reflexivity; now apply (W _ _ Lt). }
  assert (Hm : fails_at_head (fun c => (N.eqb c (ch "#") || N.eqb c (ch "-")
                                        || N.eqb c (ch ">") || is_digit c)%bool)
                             marked = true).
  { subst marked. destruct before; [reflexivity | exact Hh]. }
  rewrite apply_rules_identity.
  2:{ unfold markdown_rules. cbn [firstn].
      repeat apply Forall_cons; [..|apply Forall_nil]; line_start_rule Hl Hm. }
  cbn [bind apply_rules]. subst marked.
  rewrite bold_rule_marks by (now apply (W _ _ St) || now apply (W _ _ Lt)).
  cbn [bind]. fold shown.
  assert (Hl' : lacks is_line_terminator shown = true).
  { subst shown. repeat apply lacks_app_intro; try reflexivity; now apply (W _ _ Lt). }
  assert (Hm' : fails_at_head (fun c => (N.eqb c (ch "#") || N.eqb c (ch "-")
                                         || N.eqb c (ch ">") || is_digit c)%bool)
                              shown = true).
  { subst shown. destruct before; [reflexivity | exact Hh]. }
  assert (H1 : lacks (fun c => (is_line_terminator c || N.eqb c (ch "`")
                                || N.eqb c (ch "["))%bool) shown = true).
  { subst shown. repeat apply lacks_app_intro; try reflexivity; now apply (W _ _ Ab). }
  assert (H2 : count_char (ch "*") shown <= 1).
  { assert (Z : forall s, lacks (N.eqb (ch "*")) s = true -> count_char (ch "*") s = 0).
    { intros s Hz. unfold count_char, lacks in *. induction s as [|c s IH]; [reflexivity|].
      cbn [forallb filter] in *. apply andb_true_iff in Hz as [Hc Hz].
      apply negb_true_iff in Hc. rewrite Hc. now apply IH. }
    subst shown. rewrite !count_char_app.
    rewrite (Z before), (Z selected), (Z after) by (now apply (W _ _ St)).
    cbn. lia. }
  apply apply_rules_identity. unfold markdown_rules. cbn [skipn].
  repeat apply Forall_cons; [..|apply Forall_nil].
  - twice_rule H2.
  - absent_rule H1.
  - absent_rule H1.
  - absent_rule H1.
  - absent_rule H1.
  - line_start_rule Hl' Hm'.
  - line_start_rule Hl' Hm'.
  - line_start_rule Hl' Hm'.
  - line_start_rule Hl' Hm'.
  - absent_rule H1.
  - absent_rule H1.
Qed.

Lemma render_bold (before selected after : jsstring) :
  unmarked (before ++ selected ++ after) = true ->
  render (before ++ str "**" ++ selected ++ str "**" ++ after)
  = Ok (str "<p>" ++ before ++ str "<strong>" ++ selected ++ str "</strong>"
          ++ after ++ str "</p>").
Proof.
  intros H. unfold render. rewrite markdown_rules_on_bold by assumption.
  cbn [bind].
  destruct (unmarked_parts _ _ _ H) as (Hb & Hs & Ha & _).
  assert (T : forall s,
              lacks (fun c => (is_line_terminator c || N.eqb c (ch "`")
                               || N.eqb c (ch "[") || N.eqb c (ch "<")
                               || N.eqb c (ch "*"))%bool) s = true ->
              lacks (N.eqb (ch "<")) s = true).
  { intros s. apply lacks_weaken. intros c E. apply N.eqb_eq in E. now subst c. }
  set (shown := before ++ str "<strong>" ++ selected ++ str "</strong>" ++ after).
  assert (Hp1 : lacks (N.eqb (ch "<")) (str "strong>" ++ selected) = true)
    by (apply lacks_app_intro; [reflexivity | now apply T]).
  assert (Hp2 : lacks (N.eqb (ch "<")) (str "/strong>" ++ after) = true)
    by (apply lacks_app_intro; [reflexivity | now apply T]).
  assert (Hw : apply_rule wrap_list_rule shown = Ok shown).
  { eapply apply_rule_identity; [exact wrap_list_rule_compiles|].
    unfold string_replace. apply replace_scan_no_match. intros a b E.
    apply wrap_list_needs_opening, includes_head, (includes_suffix _ a).
    rewrite <- E. subst shown.
    replace (before ++ str "<strong>" ++ selected ++ str "</strong>" ++ after)
      with (before ++ flat_map (fun a => ch "<" :: a)
                        [str "strong>" ++ selected; str "/strong>" ++ after])
      by (cbn [flat_map app]; now rewrite <- !app_assoc, app_nil_r).
    apply (includes_no_tag (ch "l") (str "i>")); [reflexivity| |now apply T].
    repeat constructor; assumption. }
  rewrite Hw. cbn [bind].
  assert (Hn : existsb (fun c => negb (is_space c)) shown = true).
  { subst shown. rewrite existsb_app. apply orb_true_iff. right. reflexivity. }
  replace (str "<p>" ++ before ++ str "<strong>" ++ selected ++ str "</strong>"
             ++ after ++ str "</p>")
    with (str "<p>" ++ shown ++ str "</p>")
    by (subst shown; now rewrite <- !app_assoc).
  destruct (leading_spaces shown Hn) as (ws & c & s' & E & Hws & Hc).
  rewrite E.
  apply empty_paragraph_rule_keeps_text; try assumption.
  - rewrite <- (trim_start_spaces ws c (s' ++ str "</p>")) by assumption.
    change (ws ++ c :: s' ++ str "</p>") with (ws ++ (c :: s') ++ str "</p>").
    rewrite app_assoc, <- E. subst shown. rewrite <- !app_assoc.
    apply trim_start_before_strong. now apply T.
  - rewrite <- E. subst shown.
    replace ((before ++ str "<strong>" ++ selected ++ str "</strong>" ++ after)
               ++ str "</p>")
      with (before ++ flat_map (fun a => ch "<" :: a)
                        [str "strong>" ++ selected; str "/strong>" ++ after;
                         str "/p>"])
      by (cbn [flat_map app]; now rewrite <- !app_assoc).
    apply (includes_no_tag (ch "p") []); [reflexivity| |now apply T].
    repeat constructor; assumption.
Qed.

Lemma substring_middle (before selected after : jsstring) :
  substring (before ++ selected ++ after) (length before)
            (length before + length selected) = selected.
Proof.
  rewrite substring_selection by (rewrite ?length_app; lia).
  rewrite skipn_app, skipn_all, Nat.sub_diag. cbn [skipn app].
  replace (length before + length selected - length before)
    with (length selected) by lia.
  rewrite firstn_app, firstn_all, Nat.sub_diag. cbn [firstn]. apply app_nil_r.
Qed.

Lemma firstn_before (before rest : jsstring) :
  firstn (length before) (before ++ rest) = before.
Proof.
  rewrite firstn_app, firstn_all, Nat.sub_diag. cbn [firstn]. apply app_nil_r.
Qed.

Lemma skipn_after (before selected after : jsstring) :
  skipn (length before + length selected) (before ++ selected ++ after) = after.
Proof.
  rewrite app_assoc, <- length_app, skipn_app, skipn_all, Nat.sub_diag.
  reflexivity.
Qed.

(** X18.  The bold button and the preview: on a body of text without
    markup, with a preview and no template fields, [applyStyle('bold')]
    puts the selection between double stars, places the cursor after them
    (between them when nothing is selected), and the preview then shows
    the body as one paragraph with the selection in a [<strong>]
    element. *)
Theorem bold_button_shows_strong (pg : Page) (before selected after : jsstring) :
  issue_body pg = before ++ selected ++ after ->
  unmarked (before ++ selected ++ after) = true ->
  has_preview pg = true ->
  template_fields pg = [] ->
  applyStyle (str "bold") pg (length before) (length before + length selected)
  = Ok (mkPage (issue_title pg)
               (before ++ str "**" ++ selected ++ str "**" ++ after)
               (elements pg) true
               (str "<p>" ++ before ++ str "<strong>" ++ selected
                  ++ str "</strong>" ++ after ++ str "</p>"),
        (length before + length selected + 4 - (if truthy selected then 0 else 2),
         length before + length selected + 4 - (if truthy selected then 0 else 2))).
Proof.
  intros Eb Hu Hp Hf.
  destruct (unmarked_parts _ _ _ Hu) as (Hb & Hs & Ha & _).
  assert (C : forall s,
              lacks (fun c => (is_line_terminator c || N.eqb c (ch "`")
                               || N.eqb c (ch "[") || N.eqb c (ch "<")
                               || N.eqb c (ch "*"))%bool) s = true ->
              lacks (N.eqb 13%N) s = true).
  { intros s. apply lacks_weaken. intros c E. apply N.eqb_eq in E. now subst c. }
  unfold applyStyle, restyle. rewrite Eb, substring_middle.
  change (style_text (str "bold") selected)
    with (Some (str "**" ++ selected ++ str "**",
                if truthy selected then 0 else 2)).
  cbv iota beta. rewrite substring_before, firstn_before, skipn_after.
  rewrite normalize_newlines_id
    by (repeat apply lacks_app_intro; try reflexivity; now apply C).
  set (marked := before ++ (str "**" ++ selected ++ str "**") ++ after).
  assert (Em : marked = before ++ str "**" ++ selected ++ str "**" ++ after)
    by (subst marked; now rewrite <- !app_assoc).
  assert (Lm : length marked = length before + length selected + 4 + length after).
  { rewrite Em, !length_app. cbn [length str list_ascii_of_string map]. lia. }
  rewrite Lm. rewrite !length_app.
  change (length (str "**")) with 2.
  replace (length before + (2 + (length selected + 2)) <?
           (if truthy selected then 0 else 2)) with false
    by (symmetry; apply Nat.ltb_ge; destruct (truthy selected); lia).
  rewrite Nat.min_l by (destruct (truthy selected); lia).
  replace (length before + (2 + (length selected + 2))
           - (if truthy selected then 0 else 2))
    with (length before + length selected + 4 - (if truthy selected then 0 else 2))
    by lia.
  unfold updatePreview, set_body.
  cbn [has_preview issue_body issue_title elements preview_html template_fields].
  rewrite Hp. cbn [negb].
  rewrite truthy_trim_text
    by (rewrite Em, !existsb_app; apply orb_true_iff; right; reflexivity).
  cbn [negb].
  change (template_fields (mkPage (issue_title pg) marked (elements pg) true
                                  (preview_html pg)))
    with (template_fields pg).
  rewrite Hf. unfold processedMarkdown, collect, Object_entries.
  cbn [fold_left replace_placeholders bind]. rewrite Em.
  rewrite render_bold by assumption. reflexivity.
Qed.

Lemma bold_button_shows_strong_witness :
  applyStyle (str "bold") (mkPage (str "T") (str "make this bold now") [] true [])
             10 14
  = Ok (mkPage (str "T") (str "make this **bold** now") [] true
               (str "<p>make this <strong>bold</strong> now</p>"),
        (18, 18)).
Proof.
  apply (bold_button_shows_strong
           (mkPage (str "T") (str "make this bold now") [] true [])
           (str "make this ") (str "bold") (str " now"));
    reflexivity.
Defined.

(** ** Submitting twice *)

Lemma handle_response_no_request (app : App) (title : jsstring) (res : FetchResult)
  (url : jsstring) (d : IssueData) :
  ~ In (EvFetch url d) (snd (handle_response app title res)).
Proof.
  destruct res as [msg|status [result|]]; cbn [handle_response snd].
  - intros [H|[]]. discriminate.
  - destruct (r_success result); cbn [snd].
    + intros [H|[H|[H|[H|[]]]]]; discriminate.
    + intros [H|[]]. discriminate.
  - intros [H|[]]. discriminate.
Qed.

(** X19.  A submission leaves the form as it is, also when it succeeds:
    whenever [createIssue] has sent a request, the page is unchanged and a
    second call sends the same data again, whatever the servers answer.
    Only the clearing of the form, scheduled for later, ends this. *)
Theorem createIssue_can_be_repeated (main compat main' compat' : IssueData -> FetchResult)
  (app app' : App) (evs : list Event) (d : IssueData) :
  createIssue main compat app = Ok (app', evs) ->
  In (EvFetch createIssue_endpoint d) evs ->
  page app' = page app
  /\ exists app'' evs',
       createIssue main' compat' app' = Ok (app'', evs')
       /\ In (EvFetch createIssue_endpoint d) evs'.
Proof.
  unfold createIssue. intros H Hin.
  destruct (truthy_opt (currentUser app) && truthy_opt (currentRepository app)
            && truthy_opt (currentToken app))%bool eqn:Ec; cbn [negb] in *.
  2:{ injection H as <- <-. destruct Hin as [Hin|[]]. discriminate. }
  destruct (truthy (trim (issue_title (page app)))) eqn:Et; cbn [negb] in *.
  2:{ injection H as <- <-. destruct Hin as [Hin|[Hin|[]]]; discriminate. }
  destruct (truthy (trim (issue_body (page app)))) eqn:Eb; cbn [negb] in *.
  2:{ injection H as <- <-. destruct Hin as [Hin|[Hin|[]]]; discriminate. }
  destruct (find _ (required_fields (page app))) eqn:Ef.
  { injection H as <- <-. destruct Hin as [Hin|[Hin|[]]]; discriminate. }
  destruct (finalBody _ _) as [final|m|w] eqn:Eq; try discriminate.
  2:{ injection H as <- <-. destruct Hin as [Hin|[Hin|[]]]; discriminate. }
  set (data := mkIssueData _ _ _ _ _ _) in *.
  assert (Hd : d = data /\ exists res, app' = fst (handle_response app
                                   (trim (issue_title (page app))) res)).
  { destruct (main data) as [msg|status json].
    - pose proof (handle_response_no_request app (trim (issue_title (page app)))
                    (compat data) createIssue_endpoint d) as Hn.
      destruct (handle_response _ _ (compat data)) as [a e] eqn:Eh.
      injection H as <- <-. split; [|exists (compat data); now rewrite Eh].
      destruct Hin as [Hin|[Hin|[Hin|Hin]]].
      + discriminate.
      + now injection Hin.
      + exfalso. injection Hin as Hu _. vm_compute in Hu. discriminate.
      + exfalso. now apply Hn in Hin.
    - pose proof (handle_response_no_request app (trim (issue_title (page app)))
                    (Response status json) createIssue_endpoint d) as Hn.
      destruct (handle_response _ _ (Response status json)) as [a e] eqn:Eh.
      injection H as <- <-. split; [|exists (Response status json); now rewrite Eh].
      destruct Hin as [Hin|[Hin|Hin]].
      + discriminate.
      + now injection Hin.
      + exfalso. now apply Hn in Hin. }
  destruct Hd as [-> (res & ->)].
  assert (Hk : forall a, a = fst (handle_response app (trim (issue_title (page app))) res) ->
                 currentUser a = currentUser app
                 /\ currentRepository a = currentRepository app
                 /\ currentToken a = currentToken app
                 /\ currentTemplate a = currentTemplate app
                 /\ page a = page app).
  { intros a ->. destruct res as [msg|status [result|]]; cbn [handle_response fst];
      try (repeat split; reflexivity).
    destruct (r_success result); repeat split; reflexivity. }
  destruct (Hk _ eq_refl) as (E1 & E2 & E3 & E4 & E5).
  split; [exact E5|].
  rewrite E1, E2, E3, E4, E5, Ec, Et, Eb, Ef, Eq. cbn [negb]. fold data.
  destruct (main' data) as [msg|status json].
  - destruct (handle_response _ _ (compat' data)) as [a e].
    eexists; eexists; split; [reflexivity|]. right. left. reflexivity.
  - destruct (handle_response _ _ (Response status json)) as [a e].
    eexists; eexists; split; [reflexivity|]. right. left. reflexivity.
Qed.

Lemma createIssue_can_be_repeated_witness :
  exists app'' evs',
    createIssue unreachable accepting
      (without_draft (connected_app (str "Title") (str "Body") []))
    = Ok (app'', evs')
    /\ In (EvFetch createIssue_endpoint
             (mkIssueData (str "Title") (str "Body") (str "ghp_token")
                          (str "octocat") (str "hello-world") []))
          evs'.
Proof.
  apply (createIssue_can_be_repeated accepting accepting unreachable accepting
           (connected_app (str "Title") (str "Body") []) _ _
           (mkIssueData (str "Title") (str "Body") (str "ghp_token")
                        (str "octocat") (str "hello-world") [])
           eq_refl).
  right. left. reflexivity.
Defined.


(** X20.  The legacy [createIssue] clears the form at once when the server
    reports success: title, body and preview are emptied, the credentials
    are kept, and a second call sends nothing.  In every other case the
    form stays as it was. *)
Theorem legacy_createIssue_clears_on_success
  (server server' : Legacy.IssueData -> Legacy.Fetch Legacy.CreateResult)
  (form : Legacy.Form) :
  let form' := fst (Legacy.createIssue server form) in
  if existsb is_legacy_success (snd (Legacy.createIssue server form))
  then form' = Legacy.mkForm (Legacy.username form) (Legacy.repo_name form)
                             (Legacy.token form) [] [] []
       /\ Legacy.createIssue server' form'
          = (form', [Legacy.EvShowResult (str "Please fill issue title and body")
                                         (str "error")])
  else form' = form.
Proof.
  unfold Legacy.createIssue.
  destruct (negb (truthy (Legacy.title form)) || negb (truthy (Legacy.body form)))%bool;
    [reflexivity|].
  destruct (server _) as [msg|status [result|]]; try reflexivity.
  destruct (Legacy.r_success result); [|reflexivity].
  cbn. split; reflexivity.
Qed.

(** ** The map of the fields, the preview, the title sent *)

Lemma eqb_str_sym (a b : jsstring) : eqb_str a b = eqb_str b a.
Proof.
  destruct (eqb_str a b) eqn:E.
  - apply eqb_str_eq in E. subst. symmetry. apply eqb_str_refl.
  - destruct (eqb_str b a) eqn:E'; [|reflexivity].
    apply eqb_str_eq in E'. subst. now rewrite eqb_str_refl in E.
Qed.

Lemma distinct_keys_cons (k : jsstring) (v : jsvalue) (o : jsobject) :
  distinct_keys ((k, v) :: o) = (negb (obj_has k o) && distinct_keys o)%bool.
Proof.
  cbn [distinct_keys]. f_equal. f_equal.
  induction o as [|[k' v'] o IH]; [reflexivity|].
  cbn [existsb obj_has fst]. now rewrite IH.
Qed.

Lemma obj_has_update (k' k : jsstring) (v : jsvalue) (o : jsobject) :
  obj_has k' (obj_update k v o) = obj_has k' o.
Proof.
  induction o as [|[k0 v0] o IH]; [reflexivity|]. cbn [obj_update].
  destruct (eqb_str k k0); cbn [obj_has]; [reflexivity | now rewrite IH].
Qed.

Lemma obj_has_app (k : jsstring) (a b : jsobject) :
  obj_has k (a ++ b) = (obj_has k a || obj_has k b)%bool.
Proof.
  induction a as [|[k0 v0] a IH]; [reflexivity|]. cbn [app obj_has].
  now rewrite IH, orb_assoc.
Qed.

Lemma obj_has_insert (k' : jsstring) (i : N) (k : jsstring) (v : jsvalue)
  (o : jsobject) :
  obj_has k' (obj_insert_index i k v o) = (eqb_str k' k || obj_has k' o)%bool.
Proof.
  induction o as [|[k0 v0] o IH]; [reflexivity|]. cbn [obj_insert_index].
  destruct (array_index k0) as [j|]; [|reflexivity].
  destruct (N.ltb i j); [reflexivity|]. cbn [obj_has]. rewrite IH.
  now rewrite !orb_assoc, (orb_comm (eqb_str k' k0)).
Qed.

Lemma distinct_keys_update (k : jsstring) (v : jsvalue) (o : jsobject) :
  distinct_keys o = true -> distinct_keys (obj_update k v o) = true.
Proof.
  induction o as [|[k0 v0] o IH]; [reflexivity|]. rewrite distinct_keys_cons.
  intros H. apply andb_true_iff in H as [H0 H]. cbn [obj_update].
  destruct (eqb_str k k0); rewrite distinct_keys_cons.
  - now rewrite H0, H.
  - now rewrite obj_has_update, H0, IH.
Qed.

Lemma distinct_keys_append (k : jsstring) (v : jsvalue) (o : jsobject) :
  obj_has k o = false -> distinct_keys o = true ->
  distinct_keys (o ++ [(k, v)]) = true.
Proof.
  induction o as [|[k0 v0] o IH]; [reflexivity|]. cbn [obj_has app].
  rewrite !distinct_keys_cons. intros Hk H.
  apply orb_false_iff in Hk as [Hk0 Hk]. apply andb_true_iff in H as [H0 H].
  rewrite obj_has_app. cbn [obj_has]. rewrite orb_false_r.
  apply negb_true_iff in H0. rewrite H0, eqb_str_sym, Hk0. cbn [orb negb andb].
  now apply IH.
Qed.

Lemma distinct_keys_insert (i : N) (k : jsstring) (v : jsvalue) (o : jsobject) :
  obj_has k o = false -> distinct_keys o = true ->
  distinct_keys (obj_insert_index i k v o) = true.
Proof.
  induction o as [|[k0 v0] o IH]; [reflexivity|]. intros Hk H.
  cbn [obj_insert_index].
  assert (G : distinct_keys ((k, v) :: (k0, v0) :: o) = true)
    by (rewrite distinct_keys_cons, Hk; exact H).
  destruct (array_index k0) as [j|]; [|exact G].
  destruct (N.ltb i j); [exact G|].
  rewrite distinct_keys_cons in *. apply andb_true_iff in H as [H0 H].
  cbn [obj_has] in Hk. apply orb_false_iff in Hk as [Hk0 Hk].
  rewrite obj_has_insert, eqb_str_sym, Hk0. cbn [orb]. rewrite H0.
  now apply IH.
Qed.

Lemma distinct_keys_set (o : jsobject) (k : jsstring) (v : jsvalue) :
  distinct_keys o = true -> distinct_keys (obj_set o k v) = true.
Proof.
  intros H. unfold obj_set. destruct (eqb_str k (str "__proto__")); [exact H|].
  destruct (obj_has k o) eqn:Ek; [now apply distinct_keys_update|].
  destruct (array_index k); [now apply distinct_keys_insert
                            | now apply distinct_keys_append].
Qed.

Lemma obj_has_set (k' : jsstring) (o : jsobject) (k : jsstring) (v : jsvalue) :
  obj_has k' (obj_set o k v)
  = (obj_has k' o || (eqb_str k' k && negb (eqb_str k (str "__proto__"))))%bool.
Proof.
  unfold obj_set. destruct (eqb_str k (str "__proto__")) eqn:Ep.
  - now rewrite andb_false_r, orb_false_r.
  - rewrite andb_true_r. destruct (obj_has k o) eqn:Ek.
    + rewrite obj_has_update. destruct (eqb_str k' k) eqn:E.
      * apply eqb_str_eq in E. subst. now rewrite Ek.
      * now rewrite orb_false_r.
    + destruct (array_index k).
      * rewrite obj_has_insert. apply orb_comm.
      * rewrite obj_has_app. cbn [obj_has]. now rewrite orb_false_r.
Qed.

Lemma assoc_update (k : jsstring) (v : jsvalue) (o : jsobject) :
  obj_has k o = true -> assoc k (obj_update k v o) = Some v.
Proof.
  induction o as [|[k0 v0] o IH]; [discriminate|]. cbn [obj_has obj_update].
  destruct (eqb_str k k0) eqn:E; cbn [orb assoc].
  - intros _. now rewrite eqb_str_sym, E.
  - intros H. rewrite eqb_str_sym, E. now apply IH.
Qed.

Lemma assoc_append (k : jsstring) (v : jsvalue) (o : jsobject) :
  obj_has k o = false -> assoc k (o ++ [(k, v)]) = Some v.
Proof.
  induction o as [|[k0 v0] o IH]; cbn [obj_has app assoc].
  - intros _. now rewrite eqb_str_refl.
  - intros H. apply orb_false_iff in H as [H0 H]. rewrite eqb_str_sym, H0.
    now apply IH.
Qed.

Lemma assoc_insert (i : N) (k : jsstring) (v : jsvalue) (o : jsobject) :
  obj_has k o = false -> assoc k (obj_insert_index i k v o) = Some v.
Proof.
  induction o as [|[k0 v0] o IH]; cbn [obj_has obj_insert_index assoc].
  - intros _. now rewrite eqb_str_refl.
  - intros H. apply orb_false_iff in H as [H0 H].
    destruct (array_index k0) as [j|]; [destruct (N.ltb i j)|];
      cbn [assoc]; rewrite ?eqb_str_refl; try reflexivity.
    rewrite eqb_str_sym, H0. now apply IH.
Qed.

Lemma collect_snoc (value_of : Element -> jsvalue) (fields : list Element)
  (e : Element) :
  collect value_of (fields ++ [e])
  = obj_set (collect value_of fields) (field_name e) (value_of e).
Proof. unfold collect. now rewrite fold_left_app. Qed.

(** X21.  The map both methods build from the controls is a map indeed: no
    key occurs twice, whatever ids the controls have; the key [__proto__]
    never gets in; and a control overrides the value of every earlier
    control of the same name. *)
Theorem collect_is_a_map (value_of : Element -> jsvalue) (fields : list Element) :
  distinct_keys (Object_entries (collect value_of fields)) = true
  /\ obj_has (str "__proto__") (collect value_of fields) = false
  /\ forall e,
       eqb_str (field_name e) (str "__proto__") = false ->
       assoc (field_name e) (Object_entries (collect value_of (fields ++ [e])))
       = Some (value_of e).
Proof.
  assert (G : distinct_keys (collect value_of fields) = true
              /\ obj_has (str "__proto__") (collect value_of fields) = false).
  { induction fields as [|e fields IH] using rev_ind; [split; reflexivity|].
    destruct IH as [Hd Hp]. rewrite collect_snoc. split.
    - now apply distinct_keys_set.
    - rewrite obj_has_set, Hp. cbn [orb].
      destruct (eqb_str (str "__proto__") (field_name e)) eqn:E; [|reflexivity].
      apply eqb_str_eq in E. rewrite <- E. reflexivity. }
  destruct G as [Hd Hp]. split; [exact Hd|]. split; [exact Hp|].
  intros e He. unfold Object_entries. rewrite collect_snoc. unfold obj_set.
  rewrite He. destruct (obj_has (field_name e) (collect value_of fields)) eqn:Eh.
  - now apply assoc_update.
  - destruct (array_index (field_name e)); [now apply assoc_insert
                                           | now apply assoc_append].
Qed.

Lemma collect_is_a_map_witness :
  assoc (field_name (text_field (str "os") (str "macOS")))
    (Object_entries
       (collect submit_value
          ([text_field (str "os") (str "Linux")]
             ++ [text_field (str "os") (str "macOS")])))
  = Some (submit_value (text_field (str "os") (str "macOS"))).
Proof.
  apply (proj2 (proj2 (collect_is_a_map submit_value
                         [text_field (str "os") (str "Linux")]))).
  reflexivity.
Defined.


(** X22.  Refreshing the preview is idempotent: after [refreshPreview] (or
    [updatePreview]) has returned, the preview is up to date, and
    refreshing again changes nothing and reports the same. *)
Theorem preview_refresh_is_idempotent (pg pg' : Page) (evs : list Event) :
  refreshPreview pg = Ok (pg', evs) ->
  updatePreview pg' = Ok pg' /\ refreshPreview pg' = Ok (pg', evs).
Proof.
  unfold refreshPreview. intros H.
  destruct (updatePreview pg) as [p| |] eqn:E; try discriminate.
  cbn [bind] in H. injection H as <- <-.
  assert (G : updatePreview p = Ok p).
  { unfold updatePreview in *.
    destruct (has_preview pg) eqn:Ep; cbn [negb] in E.
    - destruct (negb (truthy (trim (issue_body pg)))) eqn:Eb.
      + injection E as <-. unfold set_preview.
        cbn [has_preview issue_body]. now rewrite Ep, Eb.
      + destruct (processedMarkdown (issue_body pg) (template_fields pg))
          as [processed| |] eqn:Em; try discriminate.
        cbn [bind] in E.
        destruct (render processed) as [html| |] eqn:Er; try discriminate.
        cbn [bind] in E. injection E as <-. unfold set_preview.
        cbn [has_preview issue_body]. rewrite Ep, Eb. cbn [negb].
        change (template_fields (mkPage (issue_title pg) (issue_body pg)
                                        (elements pg) true html))
          with (template_fields pg).
        rewrite Em. cbn [bind]. rewrite Er. reflexivity.
    - injection E as <-. now rewrite Ep. }
  split; [exact G|]. now rewrite G.
Qed.

Lemma preview_refresh_is_idempotent_witness :
  updatePreview
    (mkPage (str "T") (str "**a**") [] true (str "<p><strong>a</strong></p>"))
  = Ok (mkPage (str "T") (str "**a**") [] true (str "<p><strong>a</strong></p>")).
Proof.
  apply (preview_refresh_is_idempotent
           (mkPage (str "T") (str "**a**") [] true [])
           (mkPage (str "T") (str "**a**") [] true
                   (str "<p><strong>a</strong></p>"))
           [EvShowResult (MsgText (str "Preview refreshed")) KInfo]).
  vm_compute. reflexivity.
Defined.


Lemma trim_start_head (s : jsstring) (c : char) (r : jsstring) :
  trim_start s = c :: r -> is_space c = false.
Proof.
  induction s as [|d s IH]; [discriminate|]. cbn [trim_start].
  destruct (is_space d) eqn:E; [exact IH|]. intros H. now injection H as <- _.
Qed.

Lemma trim_start_suffix (s : jsstring) : exists ws, s = ws ++ trim_start s.
Proof.
  induction s as [|d s (ws & E)]; [now exists []|]. cbn [trim_start].
  destruct (is_space d); [|now exists []].
  exists (d :: ws). cbn [app]. now rewrite <- E.
Qed.

(** A trimmed text neither starts nor ends with white space. *)
Lemma trim_ends (s : jsstring) :
  fails_at_head is_space (trim s) = true
  /\ fails_at_head is_space (rev (trim s)) = true.
Proof.
  unfold trim. rewrite rev_involutive.
  set (y := rev (trim_start s)). split.
  - destruct (trim_start y) as [|c r] eqn:E; [reflexivity|].
    destruct (trim_start_suffix y) as (ws & Ey). rewrite E in Ey.
    destruct (trim_start s) as [|d t] eqn:Es.
    { subst y. cbn [rev] in Ey. destruct ws; discriminate. }
    pose proof (trim_start_head _ _ _ Es) as Hd.
    assert (Er : d :: t = rev (c :: r) ++ rev ws).
    { rewrite <- rev_app_distr, <- Ey. subst y. now rewrite rev_involutive. }
    destruct (rev (c :: r)) as [|x xs] eqn:Ex.
    + apply (f_equal (@length char)) in Ex. rewrite length_rev in Ex. discriminate.
    + cbn [app] in Er. injection Er as <- _. cbn [fails_at_head]. now rewrite Hd.
  - destruct (trim_start y) as [|c r] eqn:E; [reflexivity|].
    cbn [fails_at_head]. now rewrite (trim_start_head _ _ _ E).
Qed.

(** X23.  Every request of [createIssue] carries the trimmed title of the
    form, which is not empty and neither starts nor ends with white space,
    and the token, user and repository of the session. *)
Theorem createIssue_sends_trimmed_title (main compat : IssueData -> FetchResult)
  (app app' : App) (evs : list Event) (url : jsstring) (d : IssueData) :
  createIssue main compat app = Ok (app', evs) ->
  In (EvFetch url d) evs ->
  d_title d = trim (issue_title (page app))
  /\ truthy (d_title d) = true
  /\ fails_at_head is_space (d_title d) = true
  /\ fails_at_head is_space (rev (d_title d)) = true
  /\ d_token d = text_of (currentToken app)
  /\ d_username d = text_of (currentUser app)
  /\ d_repo_name d = text_of (currentRepository app).
Proof.
  unfold createIssue. intros H Hin.
  destruct (negb (_ && _ && _)).
  { injection H as <- <-. destruct Hin as [Hin|[]]. discriminate. }
  destruct (truthy (trim (issue_title (page app)))) eqn:Et; cbn [negb] in *.
  2:{ injection H as <- <-. destruct Hin as [Hin|[Hin|[]]]; discriminate. }
  destruct (negb (truthy (trim (issue_body (page app))))).
  { injection H as <- <-. destruct Hin as [Hin|[Hin|[]]]; discriminate. }
  destruct (find _ (required_fields (page app))).
  { injection H as <- <-. destruct Hin as [Hin|[Hin|[]]]; discriminate. }
  destruct (finalBody _ _) as [final|m|w]; try discriminate.
  2:{ injection H as <- <-. destruct Hin as [Hin|[Hin|[]]]; discriminate. }
  set (data := mkIssueData _ _ _ _ _ _) in *.
  assert (Hd : d = data).
  { destruct (main data) as [msg|status json].
    - pose proof (handle_response_no_request app (trim (issue_title (page app)))
                    (compat data) url d) as Hn.
      destruct (handle_response _ _ (compat data)) as [a e].
      injection H as <- <-.
      destruct Hin as [Hin|[Hin|[Hin|Hin]]];
        [discriminate | now injection Hin | now injection Hin
         | exfalso; now apply Hn in Hin].
    - pose proof (handle_response_no_request app (trim (issue_title (page app)))
                    (Response status json) url d) as Hn.
      destruct (handle_response _ _ (Response status json)) as [a e].
      injection H as <- <-.
      destruct Hin as [Hin|[Hin|Hin]];
        [discriminate | now injection Hin | exfalso; now apply Hn in Hin]. }
  subst d. cbn [d_title d_token d_username d_repo_name data].
  destruct (trim_ends (issue_title (page app))) as [H1 H2].
  repeat split; assumption || reflexivity.
Qed.

Lemma createIssue_sends_trimmed_title_witness :
  d_title (mkIssueData (str "Title") (str "Body") (str "ghp_token")
                       (str "octocat") (str "hello-world") [])
  = trim (issue_title (page (connected_app (str "  Title ") (str "Body") []))).
Proof.
  apply (createIssue_sends_trimmed_title accepting accepting
           (connected_app (str "  Title ") (str "Body") [])
           (without_draft (connected_app (str "  Title ") (str "Body") []))
           _ createIssue_endpoint
           (mkIssueData (str "Title") (str "Body") (str "ghp_token")
                        (str "octocat") (str "hello-world") [])
           eq_refl).
  right. left. reflexivity.
Defined.
